(** * Study Buddy front-end script: search ranking, highlighting, preferences

    A shallow embedding of the search engine of [SearchHandler]
    ([searchContent], [highlightText], [loadSearchData]) and of the
    preference access of [AppState] ([loadPreferences], [savePreferences]),
    as written in revision 2.0 of the script (src/unnamed/part_000), with the
    earlier revision (src/script.js) kept in module [Legacy] for comparison.

    Strings are JavaScript strings whose code units lie in U+0000..U+00FF,
    represented as [string] (one [ascii] per code unit); module [Utf16] has
    the tokenizer for strings of any code units, with [toLowerCase] as a
    parameter.  Scores are the integers the script accumulates in a
    JavaScript number; every value it can reach is far below 2^53, so they
    are exact and modelled in [Z].  Module [Heap] has the ranking with
    objects and arrays held by reference. *)

From Stdlib Require Import ZArith List String Ascii Bool Lia Sorted.
From Stdlib Require Import Permutation QArith DecimalString.
Import ListNotations.

Open Scope string_scope.
Open Scope Z_scope.

(** ** The platform: string and array built-ins the script calls *)

Module JS.

(** Code unit of a character. *)
Definition code (c : ascii) : N := N_of_ascii c.

(** [\s] of a regular expression, restricted to U+0000..U+00FF:
    TAB, LF, VT, FF, CR, SPACE and NO-BREAK SPACE. *)
Definition isWhitespace (c : ascii) : bool :=
  let n := code c in
  ((9 <=? n) && (n <=? 13) || (n =? 32) || (n =? 160))%N.

(** Characters with a lowercase mapping: A-Z, and U+00C0..U+00DE but U+00D7. *)
Definition isUpper (c : ascii) : bool :=
  let n := code c in
  ((65 <=? n) && (n <=? 90)
   || (192 <=? n) && (n <=? 222) && negb (n =? 215))%N.

Definition toLowerChar (c : ascii) : ascii :=
  if isUpper c then ascii_of_N (code c + 32) else c.

(** [String.prototype.toLowerCase] *)
Fixpoint toLowerCase (s : string) : string :=
  match s with
  | EmptyString => EmptyString
  | String c s' => String (toLowerChar c) (toLowerCase s')
  end.

(** [s.split(/\s+/)]: the pieces of [s] between maximal runs of
    whitespace.  [inRun] tells that the previous character was whitespace;
    the head of the result is the piece being read.  As in JavaScript, a
    leading or trailing run yields an empty piece, and the empty string
    splits into one empty piece. *)
Fixpoint splitFrom (inRun : bool) (s : string) : list string :=
  match s with
  | EmptyString => [EmptyString]
  | String c s' =>
      if isWhitespace c then
        if inRun then splitFrom true s' else EmptyString :: splitFrom true s'
      else
        match splitFrom false s' with
        | piece :: rest => String c piece :: rest
        | [] => [String c EmptyString]
        end
  end.

Definition splitWhitespace (s : string) : list string := splitFrom false s.

(** [s.split(' ')]: the pieces of [s] between single spaces. *)
Fixpoint splitSpace (s : string) : list string :=
  match s with
  | EmptyString => [EmptyString]
  | String c s' =>
      if Ascii.eqb c " " then EmptyString :: splitSpace s'
      else
        match splitSpace s' with
        | piece :: rest => String c piece :: rest
        | [] => [String c EmptyString]
        end
  end.

(** [s.startsWith(t)] *)
Definition startsWith (s t : string) : bool := String.prefix t s.

(** [s.includes(t)]: [t] occurs in [s] at some position. *)
Fixpoint includes (s t : string) : bool :=
  String.prefix t s ||
  match s with
  | EmptyString => false
  | String _ s' => includes s' t
  end.

(** [a.join(sep)] *)
Definition join (sep : string) (a : list string) : string :=
  String.concat sep a.

Section Arrays.
Context {A : Type}.

(** [Array.prototype.sort(cmp)].  ECMAScript requires the sort to be
    stable, so for a consistent comparator its result is determined: an
    element goes in front of the first one it does not sort after. *)
Fixpoint insertSorted (cmp : A -> A -> Z) (x : A) (l : list A) : list A :=
  match l with
  | [] => [x]
  | y :: l' =>
      if cmp x y <=? 0 then x :: y :: l' else y :: insertSorted cmp x l'
  end.

Fixpoint sort (cmp : A -> A -> Z) (l : list A) : list A :=
  match l with
  | [] => []
  | x :: l' => insertSorted cmp x (sort cmp l')
  end.

(** [a.slice(0, n)] *)
Definition slice0 (n : nat) (l : list A) : list A := firstn n l.
End Arrays.

End JS.

(** ** Configuration (part_000, lines 7-15) *)

Module Config.
Definition DEBOUNCE_DELAY : Z := 150.
Definition SEARCH_RESULT_LIMIT : nat := 10.
Definition STORAGE_KEY : string := "studyBuddyPrefs".
End Config.

(** ** Completions: a call returns a value or throws *)

Module Completion.

Record Error : Type := mkError { name : string; message : string }.

(** [Unmodelled] marks a run that leaves the part of the platform described
    here (see [RegExp.construct]); no theorem below is about such a run. *)
Inductive completion (A : Type) : Type :=
| Returns (a : A)
| Throws (e : Error)
| Unmodelled.
Arguments Returns {A} a.
Arguments Throws {A} e.
Arguments Unmodelled {A}.

Definition bind {A B : Type} (m : completion A) (k : A -> completion B)
  : completion B :=
  match m with
  | Returns a => k a
  | Throws e => Throws e
  | Unmodelled => Unmodelled
  end.

(** [terms.forEach(body)] over an accumulator that [body] updates: the
    first throw ends the loop. *)
Fixpoint forEach {A B : Type} (body : B -> A -> completion B)
         (l : list A) (acc : B) : completion B :=
  match l with
  | [] => Returns acc
  | x :: l' => bind (body acc x) (forEach body l')
  end.

End Completion.

(** ** Regular expressions, as far as [highlightText] needs them *)

Module RegExp.
Import Completion.

(** SyntaxCharacter of the ECMAScript pattern grammar:
    [^ $ \ . * + ? ( ) [ ] { } |]. *)
Definition isSyntaxCharacter (c : ascii) : bool :=
  existsb (Ascii.eqb c)
          (list_ascii_of_string "^$\.*+?()[]{}|").

Inductive token : Type :=
| Lit (c : ascii)      (* a PatternCharacter, or [\] and a SyntaxCharacter *)
| Op (c : ascii)       (* a SyntaxCharacter standing for itself *)
| Esc (c : ascii).     (* [\] and another character: \d, \b, \1, ... *)

(** The atoms of a pattern; [None] when it ends in a lone backslash. *)
Fixpoint lex (p : string) : option (list token) :=
  match p with
  | EmptyString => Some []
  | String c p' =>
      if Ascii.eqb c "\" then
        match p' with
        | EmptyString => None
        | String d p'' =>
            option_map (cons (if isSyntaxCharacter d then Lit d else Esc d))
                       (lex p'')
        end
      else
        option_map (cons (if isSyntaxCharacter c then Op c else Lit c))
                   (lex p')
  end.

Definition isOp (c : ascii) (t : token) : bool :=
  match t with Op d => Ascii.eqb c d | _ => false end.

(** The characters of a run of literal atoms closed by [)] and nothing
    after it. *)
Fixpoint literalBody (ts : list token) : option string :=
  match ts with
  | [Op c] => if Ascii.eqb c ")" then Some EmptyString else None
  | Lit c :: ts' => option_map (String c) (literalBody ts')
  | _ => None
  end.

(** Parentheses of a pattern without character class: [depth] groups are
    open. *)
Fixpoint balanced (depth : nat) (ts : list token) : bool :=
  match ts with
  | [] => (depth =? 0)%nat
  | Op c :: ts' =>
      if Ascii.eqb c "(" then balanced (S depth) ts'
      else if Ascii.eqb c ")" then
        match depth with
        | O => false
        | S d => balanced d ts'
        end
      else balanced depth ts'
  | _ :: ts' => balanced depth ts'
  end.

(** A compiled expression with flags [gi]: one capturing group around the
    literal characters [lit]. *)
Inductive t : Type := LiteralGroup (lit : string).

Definition SyntaxError (msg : string) : Error := mkError "SyntaxError" msg.

(** The pattern is one group [( ... )] of literal atoms. *)
Definition literalGroup (ts : list token) : option string :=
  match ts with
  | Op c :: body => if Ascii.eqb c "(" then literalBody body else None
  | _ => None
  end.

(** [new RegExp(pattern, 'gi')].  A group of literal atoms compiles to
    [LiteralGroup].  The constructor throws a SyntaxError for a pattern
    that ends in a lone backslash, and for one without character class
    whose parentheses do not match.  Other patterns are not modelled. *)
Definition construct (pattern : string) : completion t :=
  match lex pattern with
  | None => Throws (SyntaxError "\ at end of pattern")
  | Some ts =>
      match literalGroup ts with
      | Some lit => Returns (LiteralGroup lit)
      | None =>
          if existsb (isOp "[") ts || balanced 0 ts then Unmodelled
          else Throws (SyntaxError "Unmatched parenthesis")
      end
  end.

(** Two code units match under flag [i]. *)
Definition eqIgnoreCase (a b : ascii) : bool :=
  Ascii.eqb (JS.toLowerChar a) (JS.toLowerChar b).

(** [lit] matches at the start of [s], ignoring case. *)
Fixpoint matchesAt (lit s : string) : bool :=
  match lit, s with
  | EmptyString, _ => true
  | String a lit', String b s' => eqIgnoreCase a b && matchesAt lit' s'
  | String _ _, EmptyString => false
  end.

Definition mark (m : string) : string := "<mark>" ++ m ++ "</mark>".

(** Scan of [s.replace(re, '<mark>$1</mark>')] for a non-empty literal of
    [n] code units: [skip] characters still belong to the last match. *)
Fixpoint markFrom (lit : string) (n : nat) (skip : nat) (s : string)
  : string :=
  match s with
  | EmptyString => EmptyString
  | String c s' =>
      match skip with
      | S k => markFrom lit n k s'
      | O =>
          if matchesAt lit s
          then mark (substring 0 n s) ++ markFrom lit n (n - 1) s'
          else String c (markFrom lit n 0 s')
      end
  end.

(** The empty group matches before every character and at the end. *)
Fixpoint markEvery (s : string) : string :=
  match s with
  | EmptyString => mark EmptyString
  | String c s' => mark EmptyString ++ String c (markEvery s')
  end.

(** [s.replace(re, '<mark>$1</mark>')]: every match, from left to right
    and without overlap, is wrapped in a mark element; [$1] is the text of
    the subject that the group matched. *)
Definition replaceWithMark (s : string) (re : t) : string :=
  match re with
  | LiteralGroup EmptyString => markEvery s
  | LiteralGroup lit => markFrom lit (String.length lit) 0 s
  end.

End RegExp.

(** ** Helpers (part_000, lines 20-115) *)

Module Helpers.

(** The serialisation of one character of a text node. *)
Definition escapeChar (c : ascii) : string :=
  if Ascii.eqb c "&" then "&amp;"
  else if Ascii.eqb c "<" then "&lt;"
  else if Ascii.eqb c ">" then "&gt;"
  else if (JS.code c =? 160)%N then "&nbsp;"
  else String c EmptyString.

(** [escapeHtml] (lines 65-69): the text becomes the content of a fresh
    element, whose [innerHTML] is read back. *)
Fixpoint escapeHtml (text : string) : string :=
  match text with
  | EmptyString => EmptyString
  | String c text' => escapeChar c ++ escapeHtml text'
  end.

End Helpers.

(** ** Search (part_000, lines 623-874) *)

Module SearchHandler.
Import Completion.

Record SearchRecord : Type := mkRecord {
  title : string;
  description : string;
  category : string;
  page : string;
  keywords : list string
}.

(** The object [{ ...item, score }]: the fields of [item] and its score. *)
Record ScoredRecord : Type := mkScored {
  item : SearchRecord;
  score : Z
}.

(** The fields of the handler that searching reads or leaves alone. *)
Record t : Type := mkHandler {
  searchData : list SearchRecord;
  resultsShown : bool
}.

(** [loadSearchData] (lines 642-672) *)
Definition catalog : list SearchRecord :=
  [ mkRecord "Sing & Rhyme" "Turn lessons into songs to improve retention and make learning fun" "Elementary" "elementary.html" ["music"; "memory"; "songs"; "retention"];
    mkRecord "Colorful Flashcards" "Use colors and images for vocabulary and facts" "Elementary" "elementary.html" ["visual"; "memory"; "colors"; "vocabulary"];
    mkRecord "Short Sessions" "Study for 15-25 minutes then take breaks" "Elementary" "elementary.html" ["focus"; "breaks"; "time management"];
    mkRecord "Read Aloud" "Reading aloud helps comprehension and memory" "Elementary" "elementary.html" ["reading"; "comprehension"];
    mkRecord "Cornell Notes" "Organize lectures into cues, notes, and summaries" "High School" "highschool.html" ["notes"; "organization"; "lectures"; "review"];
    mkRecord "Mnemonics" "Use memory devices for sequences like PEMDAS" "High School" "highschool.html" ["memory"; "tricks"; "sequences"];
    mkRecord "Mind Maps" "Connect ideas visually to improve understanding" "High School" "highschool.html" ["visual"; "connections"; "diagrams"];
    mkRecord "Pomodoro Technique" "Study for 25 minutes then 5-minute break" "High School" "highschool.html" ["focus"; "timer"; "productivity"; "breaks"];
    mkRecord "Flashcard Apps" "Use Anki or Quizlet for spaced repetition" "High School" "highschool.html" ["apps"; "technology"; "spaced repetition"; "anki"; "quizlet"];
    mkRecord "Study Groups" "Explain concepts to peers to deepen comprehension" "High School" "highschool.html" ["collaboration"; "peers"; "teaching"];
    mkRecord "Past Papers" "Practice with old exam formats under timed conditions" "High School" "highschool.html" ["practice"; "exams"; "testing"];
    mkRecord "Career Mapping" "Identify pathways early using interest inventories" "Senior High" "seniorhigh.html" ["career"; "planning"; "future"];
    mkRecord "Time Blocking" "Plan fixed hours for subjects and rest" "Senior High" "seniorhigh.html" ["schedule"; "time management"; "planning"];
    mkRecord "Mock Interviews" "Practice responses with peers for confidence" "Senior High" "seniorhigh.html" ["interview"; "practice"; "career"];
    mkRecord "Digital Literacy" "Learn Google Suite, Excel, and Canva basics" "Senior High" "seniorhigh.html" ["technology"; "digital"; "tools"; "google"; "excel"; "canva"];
    mkRecord "Portfolio Building" "Compile best works, certificates, and achievements" "Senior High" "seniorhigh.html" ["portfolio"; "achievements"; "career"];
    mkRecord "Research Databases" "Master JSTOR, Google Scholar, and library access" "University" "university.html" ["research"; "academic"; "databases"; "jstor"; "scholar"];
    mkRecord "Citation Managers" "Use Zotero, Mendeley, or EndNote for references" "University" "university.html" ["citations"; "references"; "zotero"; "mendeley"];
    mkRecord "Critical Reading" "Evaluate sources, analyze arguments, identify biases" "University" "university.html" ["reading"; "analysis"; "critical thinking"];
    mkRecord "Thesis Planning" "Outline research chapters early with timeline" "University" "university.html" ["thesis"; "research"; "planning"; "writing"];
    mkRecord "Academic Balance" "Combine mental breaks with focused study sessions" "University" "university.html" ["balance"; "wellness"; "breaks"; "pomodoro"] ].

Definition loadSearchData (this : t) : t :=
  mkHandler catalog (resultsShown this).

(** [query.toLowerCase().split(/\s+/).filter(term => term.length > 1)]
    (line 770; the same expression opens [highlightText], line 854) *)
Definition searchTerms (query : string) : list string :=
  filter (fun term => (1 <? String.length term)%nat)
         (JS.splitWhitespace (JS.toLowerCase query)).

(** The body of [searchTerms.forEach] (lines 782-790): one term's
    additions to the running [score]. *)
Definition addTerm (titleLower descLower keywordsLower categoryLower : string)
           (score : Z) (term : string) : Z :=
  let score :=
    if String.eqb titleLower term then score + 100
    else if JS.startsWith titleLower term then score + 75
    else if JS.includes titleLower term then score + 50
    else score in
  let score := if JS.includes descLower term then score + 30 else score in
  let score := if JS.includes keywordsLower term then score + 25 else score in
  let score := if JS.includes categoryLower term then score + 15 else score in
  score.

(** The callback of [map] (lines 775-793). *)
Definition scoreItem (searchTerms : list string) (item : SearchRecord)
  : ScoredRecord :=
  let titleLower := JS.toLowerCase (title item) in
  let descLower := JS.toLowerCase (description item) in
  let keywordsLower := JS.toLowerCase (JS.join " " (keywords item)) in
  let categoryLower := JS.toLowerCase (category item) in
  let score :=
    fold_left (addTerm titleLower descLower keywordsLower categoryLower)
              searchTerms 0 in
  mkScored item score.

(** [searchContent] (lines 769-797) *)
Definition searchContent (this : t) (query : string) : list ScoredRecord :=
  let searchTerms := searchTerms query in
  if (List.length searchTerms =? 0)%nat then []
  else
    JS.slice0 Config.SEARCH_RESULT_LIMIT
      (JS.sort (fun a b => score b - score a)
         (filter (fun item => score item >? 0)
            (map (scoreItem searchTerms) (searchData this)))).

(** [term.replace(/[.*+?^${}()|[\]\\]/g, '\\$&')] (line 858): a backslash
    goes in front of every character of the class. *)
Definition inEscapeClass (c : ascii) : bool :=
  existsb (Ascii.eqb c) (list_ascii_of_string ".*+?^${}()|[]\").

Fixpoint escapeRegExp (term : string) : string :=
  match term with
  | EmptyString => EmptyString
  | String c term' =>
      if inEscapeClass c then String "\" (String c (escapeRegExp term'))
      else String c (escapeRegExp term')
  end.

(** The body of [terms.forEach] in [highlightText] (lines 857-860). *)
Definition highlightTerm (highlighted term : string) : completion string :=
  bind (RegExp.construct ("(" ++ escapeRegExp term ++ ")"))
       (fun regex => Returns (RegExp.replaceWithMark highlighted regex)).

(** [highlightText] (lines 853-863) *)
Definition highlightText (text query : string) : completion string :=
  let terms := searchTerms query in
  let highlighted := Helpers.escapeHtml text in
  forEach highlightTerm terms highlighted.

End SearchHandler.

(** ** Application state and preferences (part_000, lines 120-190) *)

Module AppState.
Import Completion.

(** Values that [JSON.parse] returns and that the fields of [AppState]
    hold.  An array carries the named properties assigned to it besides its
    elements.  A number is given by the text that [String(n)] returns for
    it ([5] by its text 5, a half by 0.5), which is all that the script
    uses of it: whether it is zero or NaN, and its conversion to a
    string. *)
#[warnings="-register-all"]
Inductive value : Type :=
| VUndefined
| VNull
| VBool (b : bool)
| VNum (text : string)
| VStr (s : string)
| VArr (elems : list value) (props : list (string * value))
| VObj (props : list (string * value)).

(** ToBoolean, as [a || b] and [!a] apply it. *)
Definition truthy (v : value) : bool :=
  match v with
  | VUndefined | VNull => false
  | VBool b => b
  | VNum text => negb (String.eqb text "0" || String.eqb text "NaN")
  | VStr s => negb (String.eqb s EmptyString)
  | VArr _ _ | VObj _ => true
  end.

(** [v === 'text'] *)
Definition isString (text : string) (v : value) : bool :=
  match v with
  | VStr s => String.eqb s text
  | _ => false
  end.

Fixpoint lookup (key : string) (props : list (string * value)) : value :=
  match props with
  | [] => VUndefined
  | (k, v) :: props' => if String.eqb k key then v else lookup key props'
  end.

Fixpoint assign (key : string) (x : value) (props : list (string * value))
  : list (string * value) :=
  match props with
  | [] => [(key, x)]
  | (k, v) :: props' =>
      if String.eqb k key then (k, x) :: props'
      else (k, v) :: assign key x props'
  end.

Definition TypeError (msg : string) : Error := mkError "TypeError" msg.

(** [key] is an own property of the object. *)
Definition hasOwn (key : string) (props : list (string * value)) : bool :=
  existsb (fun p => String.eqb (fst p) key) props.

(** ToString, as [setAttribute] applies it to the value of the attribute.
    No value here is callable, so an object that has [toString] as an own
    property has no method to convert it: the own [toString] hides
    [Object.prototype.toString], and [valueOf] returns the object itself.
    An array is converted by [Array.prototype.join], which takes [null] and
    [undefined] as the empty string, unless an own [join] hides it. *)
Fixpoint toString (v : value) : completion string :=
  match v with
  | VUndefined => Returns "undefined"
  | VNull => Returns "null"
  | VBool b => Returns (if b then "true" else "false")
  | VNum text => Returns text
  | VStr s => Returns s
  | VObj props =>
      if hasOwn "toString" props
      then Throws (TypeError "Cannot convert object to primitive value")
      else Returns "[object Object]"
  | VArr elems props =>
      if hasOwn "toString" props
      then Throws (TypeError "Cannot convert object to primitive value")
      else if hasOwn "join" props then Returns "[object Array]"
      else
        (fix join (elems : list value) : completion string :=
           match elems with
           | [] => Returns EmptyString
           | element :: rest =>
               let text :=
                 match element with
                 | VUndefined | VNull => Returns EmptyString
                 | _ => toString element
                 end in
               match rest with
               | [] => text
               | _ =>
                   bind text (fun first =>
                   bind (join rest) (fun others =>
                   Returns (first ++ "," ++ others)))
               end
           end) elems
  end.

(** [v.key]: reading a property of [null] or [undefined] throws. *)
Definition getProp (v : value) (key : string) : completion value :=
  match v with
  | VUndefined => Throws (TypeError "Cannot read properties of undefined")
  | VNull => Throws (TypeError "Cannot read properties of null")
  | VObj props | VArr _ props => Returns (lookup key props)
  | VBool _ | VNum _ | VStr _ => Returns VUndefined
  end.

(** [v.key = x]: the object after the assignment.  The script is not in
    strict mode: an assignment to a property of a primitive is dropped. *)
Definition setProp (v : value) (key : string) (x : value)
  : completion value :=
  match v with
  | VUndefined => Throws (TypeError "Cannot set properties of undefined")
  | VNull => Throws (TypeError "Cannot set properties of null")
  | VObj props => Returns (VObj (assign key x props))
  | VArr elems props => Returns (VArr elems (assign key x props))
  | VBool _ | VNum _ | VStr _ => Returns v
  end.

(** What the browser answers: each call of the preference store and of
    JSON may throw. *)
Record Browser : Type := mkBrowser {
  getItem : string -> Error + option string;
  setItem : string -> string -> option Error;
  JSON_parse : string -> Error + value;
  JSON_stringify : value -> Error + string;
  (** [window.matchMedia?.('(prefers-color-scheme: dark)').matches], and
      [None] where [matchMedia] is missing *)
  prefersDark : option bool
}.

(** The fields of [AppState] and what the script has done to the page. *)
Record World : Type := mkWorld {
  theme : value;
  preferences : value;
  warnings : list (string * string);   (* console.warn(text, e.message) *)
  written : list (string * string);    (* setItem calls that succeeded *)
  dataTheme : option string;           (* attribute data-theme of the root *)
  darkMode : bool;                     (* class dark-mode of the body *)
  listening : bool;                    (* system theme listener is set *)
  announced : list string              (* Helpers.announce(message) *)
}.

(** [AppState] as the script declares it, on a fresh page. *)
Definition initial : World :=
  mkWorld (VStr "light") (VObj []) [] [] None false false [].

Definition M (A : Type) : Type := World -> completion A * World.

Definition ret {A : Type} (a : A) : M A := fun w => (Returns a, w).

Definition bindM {A B : Type} (m : M A) (k : A -> M B) : M B :=
  fun w =>
    match m w with
    | (Returns a, w') => k a w'
    | (Throws e, w') => (Throws e, w')
    | (Unmodelled, w') => (Unmodelled, w')
    end.

Definition lift {A : Type} (c : completion A) : M A := fun w => (c, w).

Definition ofSum {A : Type} (r : Error + A) : M A :=
  fun w => (match r with inl e => Throws e | inr a => Returns a end, w).

(** [try { body } catch (e) { handler }] *)
Definition tryCatch {A : Type} (body : M A) (handler : Error -> M A) : M A :=
  fun w =>
    match body w with
    | (Throws e, w') => handler e w'
    | r => r
    end.

Notation "x <- m ;; k" := (bindM m (fun x => k))
  (at level 61, m at next level, right associativity).
Notation "m ;;; k" := (bindM m (fun _ => k))
  (at level 61, right associativity).

Definition getTheme : M value := fun w => (Returns (theme w), w).
Definition getPreferences : M value := fun w => (Returns (preferences w), w).

Definition setTheme (v : value) : M unit := fun w =>
  (Returns tt,
   mkWorld v (preferences w) (warnings w) (written w) (dataTheme w)
           (darkMode w) (listening w) (announced w)).

Definition setPreferences (v : value) : M unit := fun w =>
  (Returns tt,
   mkWorld (theme w) v (warnings w) (written w) (dataTheme w)
           (darkMode w) (listening w) (announced w)).

(** [console.warn(text, e.message)] *)
Definition warn (text msg : string) : M unit := fun w =>
  (Returns tt,
   mkWorld (theme w) (preferences w) (warnings w ++ [(text, msg)])
           (written w) (dataTheme w) (darkMode w) (listening w)
           (announced w)).

Section InBrowser.
Variable env : Browser.

(** [localStorage.setItem(key, text)] *)
Definition storageSet (key text : string) : M unit := fun w =>
  match setItem env key text with
  | Some e => (Throws e, w)
  | None =>
      (Returns tt,
       mkWorld (theme w) (preferences w) (warnings w)
               (written w ++ [(key, text)]) (dataTheme w) (darkMode w)
               (listening w) (announced w))
  end.

(** [getSystemTheme] (lines 153-155) *)
Definition getSystemTheme : string :=
  match prefersDark env with
  | Some true => "dark"
  | _ => "light"
  end.

(** [loadPreferences] (lines 133-142) *)
Definition loadPreferences : M unit :=
  tryCatch
    (saved <- ofSum (getItem env Config.STORAGE_KEY) ;;
     parsed <- match saved with
               | Some text =>
                   if String.eqb text EmptyString then ret (VObj [])
                   else ofSum (JSON_parse env text)
               | None => ret (VObj [])
               end ;;
     setPreferences parsed ;;;
     prefs <- getPreferences ;;
     stored <- lift (getProp prefs "theme") ;;
     setTheme (if truthy stored then stored else VStr getSystemTheme))
    (fun e =>
       warn "Could not load preferences:" (message e) ;;;
       setPreferences (VObj [])).

(** [savePreferences] (lines 144-151) *)
Definition savePreferences : M unit :=
  tryCatch
    (prefs <- getPreferences ;;
     current <- getTheme ;;
     prefs' <- lift (setProp prefs "theme" current) ;;
     setPreferences prefs' ;;;
     text <- ofSum (JSON_stringify env prefs') ;;
     storageSet Config.STORAGE_KEY text)
    (fun e => warn "Could not save preferences:" (message e)).

(** [applyTheme] (lines 169-173): [setAttribute] converts [this.theme] to a
    string, and throws where that conversion does, before the class of the
    body is touched; [updateThemeIcon] only relabels the toggle button, when
    the page has one. *)
Definition applyTheme : M unit :=
  current <- getTheme ;;
  text <- lift (toString current) ;;
  fun w =>
    (Returns tt,
     mkWorld (theme w) (preferences w) (warnings w) (written w)
             (Some text) (isString "dark" current) (listening w)
             (announced w)).

(** [setupSystemThemeListener] (lines 157-167) *)
Definition setupSystemThemeListener : M unit :=
  match prefersDark env with
  | None => ret tt
  | Some _ =>
      prefs <- getPreferences ;;
      stored <- lift (getProp prefs "theme") ;;
      if truthy stored then ret tt
      else fun w =>
        (Returns tt,
         mkWorld (theme w) (preferences w) (warnings w) (written w)
                 (dataTheme w) (darkMode w) true (announced w))
  end.

(** [Helpers.announce(message)] for a theme given as a string *)
Definition announce (text : string) : M unit := fun w =>
  (Returns tt,
   mkWorld (theme w) (preferences w) (warnings w) (written w)
           (dataTheme w) (darkMode w) (listening w)
           (announced w ++ [text])).

(** [init] (lines 127-131) *)
Definition init : M unit :=
  loadPreferences ;;; applyTheme ;;; setupSystemThemeListener.

(** [toggleTheme] (lines 175-180) *)
Definition toggleTheme : M unit :=
  current <- getTheme ;;
  let next := if isString "light" current then "dark" else "light" in
  setTheme (VStr next) ;;;
  applyTheme ;;;
  savePreferences ;;;
  announce ("Switched to " ++ next ++ " mode").
End InBrowser.

End AppState.

(** ** The earlier revision of the script (src/script.js) *)

Module Legacy.
Import Completion SearchHandler.

(** [query.toLowerCase().split(' ').filter(term => term.length > 0)]
    (line 787; again in [highlightText], line 918) *)
Definition searchTerms (query : string) : list string :=
  filter (fun term => (0 <? String.length term)%nat)
         (JS.splitSpace (JS.toLowerCase query)).

(** The body of [searchTerms.forEach] (lines 796-806) *)
Definition addTerm (titleLower descLower keywordsLower : string)
           (item : SearchRecord) (score : Z) (term : string) : Z :=
  let score :=
    if String.eqb titleLower term then score + 100
    else if JS.includes titleLower term then score + 50
    else score in
  let score := if JS.includes descLower term then score + 30 else score in
  let score := if JS.includes keywordsLower term then score + 20 else score in
  let score :=
    if JS.includes (JS.toLowerCase (category item)) term then score + 15
    else score in
  score.

Definition scoreItem (searchTerms : list string) (item : SearchRecord)
  : ScoredRecord :=
  let titleLower := JS.toLowerCase (title item) in
  let descLower := JS.toLowerCase (description item) in
  let keywordsLower := JS.toLowerCase (JS.join " " (keywords item)) in
  mkScored item
    (fold_left (addTerm titleLower descLower keywordsLower item)
               searchTerms 0).

(** [searchContent] (lines 786-814) *)
Definition searchContent (this : SearchHandler.t) (query : string)
  : list ScoredRecord :=
  let searchTerms := searchTerms query in
  JS.slice0 10
    (JS.sort (fun a b => score b - score a)
       (filter (fun item => score item >? 0)
          (map (scoreItem searchTerms) (searchData this)))).

(** The body of [terms.forEach] in [highlightText] (lines 921-924): the
    term goes into the pattern as it is. *)
Definition highlightTerm (highlighted term : string) : completion string :=
  bind (RegExp.construct ("(" ++ term ++ ")"))
       (fun regex => Returns (RegExp.replaceWithMark highlighted regex)).

(** [highlightText] (lines 917-927) *)
Definition highlightText (text query : string) : completion string :=
  let terms := searchTerms query in
  let highlighted := Helpers.escapeHtml text in
  forEach highlightTerm terms highlighted.

Section InBrowser.
Import AppState.
Variable env : Browser.

(** [loadPreferences] (lines 17-25): the handler only warns. *)
Definition loadPreferences : M unit :=
  tryCatch
    (bindM (ofSum (getItem env "studyBuddyPrefs")) (fun saved =>
     bindM (match saved with
            | Some text =>
                if String.eqb text EmptyString then ret (VObj [])
                else ofSum (JSON_parse env text)
            | None => ret (VObj [])
            end) (fun parsed =>
     bindM (setPreferences parsed) (fun _ =>
     bindM getPreferences (fun prefs =>
     bindM (lift (getProp prefs "theme")) (fun stored =>
     setTheme (if truthy stored then stored else VStr "light")))))))
    (fun e => warn "Could not load preferences" EmptyString).
End InBrowser.

End Legacy.

(** ** What the specification says, and the notions that state it *)

Module Spec.
Import SearchHandler.

(** Scorer, the three title tiers: exact, else prefix, else substring. *)
Definition titleTier (titleLower term : string) : Z :=
  if String.eqb term titleLower then 100
  else if JS.startsWith titleLower term then 75
  else if JS.includes titleLower term then 50
  else 0.

(** A bonus of [points] when [field] contains the term. *)
Definition bonus (points : Z) (field term : string) : Z :=
  if JS.includes field term then points else 0.

(** What one term adds to the score of a record. *)
Definition termScore (r : SearchRecord) (term : string) : Z :=
  titleTier (JS.toLowerCase (title r)) term
  + bonus 30 (JS.toLowerCase (description r)) term
  + bonus 25 (JS.toLowerCase (JS.join " " (keywords r))) term
  + bonus 15 (JS.toLowerCase (category r)) term.

(** The sum over the terms. *)
Definition totalScore (r : SearchRecord) (terms : list string) : Z :=
  fold_right Z.add 0 (map (termScore r) terms).

(** Non-increasing order of the keys. *)
Definition descending {A : Type} (key : A -> Z) (a b : A) : Prop :=
  key a >= key b.

(** [a] stands at some place of [l] and [b] at a later one. *)
Definition precedes {A : Type} (a b : A) (l : list A) : Prop :=
  exists l1 l2 l3, l = (l1 ++ a :: l2 ++ b :: l3)%list.

(** The output of [searchContent], every record with the position in the
    catalog that it comes from. *)
Definition numbered (this : SearchHandler.t) (query : string)
  : list (nat * ScoredRecord) :=
  let terms := searchTerms query in
  if (List.length terms =? 0)%nat then []
  else
    firstn Config.SEARCH_RESULT_LIMIT
      (JS.sort (fun a b => score (snd b) - score (snd a))
         (filter (fun p => score (snd p) >? 0)
            (map (fun p => (fst p, scoreItem terms (snd p)))
               (combine (seq 0 (List.length (searchData this)))
                        (searchData this))))).

(** Properties of the characters of a string. *)
Definition allChars (p : ascii -> bool) (s : string) : Prop :=
  Forall (fun c => p c = true) (list_ascii_of_string s).

Definition noUppercase : string -> Prop :=
  allChars (fun c => negb (JS.isUpper c)).
Definition noWhitespace : string -> Prop :=
  allChars (fun c => negb (JS.isWhitespace c)).
Definition onlyWhitespace : string -> Prop := allChars JS.isWhitespace.

(** A separator is a non-empty run of whitespace. *)
Definition separator (sep : string) : Prop :=
  sep <> EmptyString /\ onlyWhitespace sep.

(** The pieces with a separator between each two neighbours:
    [p0 ++ s1 ++ p1 ++ ... ++ sn ++ pn]. *)
Fixpoint weave (pieces seps : list string) : string :=
  match pieces, seps with
  | p :: pieces', sep :: seps' => p ++ sep ++ weave pieces' seps'
  | p :: _, [] => p
  | [], _ => EmptyString
  end.

(** Every piece but the last is non-empty. *)
Fixpoint innerNonEmpty (pieces : list string) : Prop :=
  match pieces with
  | [] | [_] => True
  | p :: pieces' => p <> EmptyString /\ innerNonEmpty pieces'
  end.

(** The in-memory state after a load that failed with message [msg]:
    empty preferences, the theme as it was, one more warning. *)
Definition afterFailedLoad (w : AppState.World) (msg : string)
  : AppState.World :=
  AppState.mkWorld
    (AppState.theme w) (AppState.VObj [])
    (AppState.warnings w ++ [("Could not load preferences:", msg)])%list
    (AppState.written w) (AppState.dataTheme w) (AppState.darkMode w)
    (AppState.listening w) (AppState.announced w).

(** A world [w'] that differs from [w] by a save that failed: nothing
    more is written, the theme is as it was, one more warning. *)
Definition failedSave (w w' : AppState.World) (msg : string) : Prop :=
  AppState.theme w' = AppState.theme w
  /\ AppState.written w' = AppState.written w
  /\ AppState.warnings w'
     = (AppState.warnings w ++ [("Could not save preferences:", msg)])%list.

(** The page shows the theme of the state: the attribute holds the theme
    as a string. *)
Definition themeApplied (w : AppState.World) : Prop :=
  (exists text,
      AppState.toString (AppState.theme w) = Completion.Returns text
      /\ AppState.dataTheme w = Some text)
  /\ AppState.darkMode w = AppState.isString "dark" (AppState.theme w).

End Spec.

(** ** More built-ins, for the rest of the script *)

Module Builtins.

(** [s.trimStart()] and [s.trimEnd()]: whitespace and line terminators, the
    characters of [\s], go from the start and from the end. *)
Fixpoint trimStart (s : string) : string :=
  match s with
  | EmptyString => EmptyString
  | String c s' => if JS.isWhitespace c then trimStart s' else s
  end.

Fixpoint trimEnd (s : string) : string :=
  match s with
  | EmptyString => EmptyString
  | String c s' =>
      match trimEnd s' with
      | EmptyString =>
          if JS.isWhitespace c then EmptyString else String c EmptyString
      | rest => String c rest
      end
  end.

(** [s.trim()] *)
Definition trim (s : string) : string := trimEnd (trimStart s).

(** [s.split(sep)] for a separator of one character. *)
Fixpoint split (sep : ascii) (s : string) : list string :=
  match s with
  | EmptyString => [EmptyString]
  | String c s' =>
      if Ascii.eqb c sep then EmptyString :: split sep s'
      else
        match split sep s' with
        | piece :: rest => String c piece :: rest
        | [] => [String c EmptyString]
        end
  end.

(** [a.pop()]: the last element, [undefined] for an empty array. *)
Definition pop {A : Type} (a : list A) : option A := List.last (map Some a) None.

(** [a.findIndex(p)]: the first index whose element satisfies [p], or -1. *)
Fixpoint findIndex {A : Type} (p : A -> bool) (a : list A) : Z :=
  match a with
  | [] => -1
  | x :: a' =>
      if p x then 0
      else
        let i := findIndex p a' in
        if i <? 0 then -1 else i + 1
  end.

(** [a[i]] for a number [i]: [undefined] out of range. *)
Definition at_ {A : Type} (a : list A) (i : Z) : option A :=
  if i <? 0 then None else nth_error a (Z.to_nat i).

(** [String(b)] for a boolean *)
Definition ofBool (b : bool) : string := if b then "true" else "false".

(** [String(n)] for a natural number: its decimal digits. *)
Definition ofNat (n : nat) : string := NilEmpty.string_of_uint (Nat.to_uint n).

End Builtins.

(** ** Notions that state the further properties *)

Module Props.
Import SearchHandler.

(** The term occurs in the lowercased title, description, joined keywords
    or category of the record. *)
Definition occursIn (r : SearchRecord) (term : string) : bool :=
  JS.includes (JS.toLowerCase (title r)) term
  || JS.includes (JS.toLowerCase (description r)) term
  || JS.includes (JS.toLowerCase (JS.join " " (keywords r))) term
  || JS.includes (JS.toLowerCase (category r)) term.

(** A character that is neither [<] nor [>] nor a no-break space. *)
Definition plainChar (c : ascii) : Prop :=
  c <> "<"%char /\ c <> ">"%char /\ c <> ascii_of_N 160.

(** The atom of a pattern that a character other than the backslash gives. *)
Definition atom (c : ascii) : RegExp.token :=
  if RegExp.isSyntaxCharacter c then RegExp.Op c else RegExp.Lit c.

End Props.

(** ** [Helpers.debounce] and [Helpers.throttleRAF] (part_000, lines 24-46)

    A timer or a frame request is an entry [(id, ...)] of the list of those
    that the closure has started and that have not run yet; the page hands
    out growing ids.  When a timer expires or a frame comes is up to the
    browser: it is an event. *)

Module Debounce.
Section Closure.
Context {A : Type}.
Variable delay : Z.

Record t : Type := mk {
  timeoutId : option nat;            (* let timeoutId *)
  timers : list (nat * (Z * A));     (* started by setTimeout, not yet run *)
  nextId : nat;
  applied : list A                   (* fn.apply(this, args) so far *)
}.

Definition start : t := mk None [] 0 [].

(** [clearTimeout(id)] *)
Definition clearTimeout (id : option nat) (l : list (nat * (Z * A)))
  : list (nat * (Z * A)) :=
  match id with
  | Some i => filter (fun entry => negb (fst entry =? i)%nat) l
  | None => l
  end.

Fixpoint lookup (i : nat) (l : list (nat * (Z * A))) : option A :=
  match l with
  | [] => None
  | (j, (_, a)) :: l' => if (j =? i)%nat then Some a else lookup i l'
  end.

(** A call of the debounced function (lines 26-29): the timer of the call
    before is cleared and a new one is started. *)
Definition call (args : A) (d : t) : t :=
  let timers' := clearTimeout (timeoutId d) (timers d) in
  mk (Some (nextId d)) (timers' ++ [(nextId d, (delay, args))])
     (S (nextId d)) (applied d).

(** The timer [id] expires: its callback applies [fn]. *)
Definition expire (id : nat) (d : t) : t :=
  match lookup id (timers d) with
  | Some args =>
      mk (timeoutId d) (clearTimeout (Some id) (timers d)) (nextId d)
         (applied d ++ [args])
  | None => d
  end.

Inductive event : Type :=
| Call (args : A)
| Expire (id : nat).

Definition step (d : t) (e : event) : t :=
  match e with
  | Call args => call args d
  | Expire id => expire id d
  end.

Definition run (events : list event) : t := fold_left step events start.

(** The arguments of the last call among the events. *)
Fixpoint lastCall (events : list event) : option A :=
  match events with
  | [] => None
  | Call args :: events' =>
      match lastCall events' with
      | Some later => Some later
      | None => Some args
      end
  | Expire _ :: events' => lastCall events'
  end.

Definition isCall (e : event) : bool :=
  match e with Call _ => true | Expire _ => false end.

(** What holds of the closure after the events: no timer, or the one of the
    latest call; and no more applications and timers than calls. *)
Definition settled (events : list event) (d : t) : Prop :=
  (timers d = []
   \/ exists id args,
        timers d = [(id, (delay, args))] /\ timeoutId d = Some id
        /\ lastCall events = Some args)
  /\ (List.length (applied d) + List.length (timers d)
      <= List.length (filter isCall events))%nat.
End Closure.
End Debounce.

Module ThrottleRAF.
Section Closure.
Context {A : Type}.

(** Whether [fn], applied to these arguments, throws. *)
Variable throws : A -> bool.

Record t : Type := mk {
  ticking : bool;                (* let ticking *)
  frames : list (nat * A);       (* requested frames that have not come *)
  nextId : nat;
  applied : list A               (* fn.apply(this, args) so far *)
}.

Definition start : t := mk false [] 0 [].

Fixpoint lookup (i : nat) (l : list (nat * A)) : option A :=
  match l with
  | [] => None
  | (j, a) :: l' => if (j =? i)%nat then Some a else lookup i l'
  end.

(** A call of the throttled function (lines 37-45). *)
Definition call (args : A) (d : t) : t :=
  if ticking d then d
  else mk true (frames d ++ [(nextId d, args)]) (S (nextId d)) (applied d).

(** The frame [id] comes: its callback applies [fn] and then, unless [fn]
    threw, resets [ticking]. *)
Definition frame (id : nat) (d : t) : t :=
  match lookup id (frames d) with
  | Some args =>
      mk (if throws args then ticking d else false)
         (filter (fun entry => negb (fst entry =? id)%nat) (frames d))
         (nextId d) (applied d ++ [args])
  | None => d
  end.

Inductive event : Type :=
| Call (args : A)
| Frame (id : nat).

Definition step (d : t) (e : event) : t :=
  match e with
  | Call args => call args d
  | Frame id => frame id d
  end.

Definition run (events : list event) (d : t) : t := fold_left step events d.
End Closure.
End ThrottleRAF.

(** ** The search box and its result panel (part_000, lines 628-767 and
    799-868)

    The handlers that [setupSearch] registers, the timer of the debounced
    search, and [handleSearch], [displayResults], [clearResults] and
    [handleArrowNavigation].  An event is one run of a handler or of the
    timer callback. *)

Module SearchUI.
Import Completion SearchHandler.

(** A link of class [search-result-item] and the three spans inside it
    (lines 829-840). *)
Record Item : Type := mkItem {
  href : string;               (* result.page *)
  categoryHtml : string;       (* result.category, as it is *)
  titleHtml : string;          (* highlightText(result.title, query) *)
  descriptionHtml : string;    (* highlightText(result.description, query) *)
  animationDelay : Z           (* index * 30, in ms *)
}.

(** What the container of class [search-results] holds. *)
Inductive Panel : Type :=
| NoResults (queryHtml : string)               (* lines 808-820 *)
| Results (header : string) (items : list Item).   (* lines 821-845 *)

(** The element that has the focus. *)
Inductive Active : Type :=
| OnInput
| OnResult (container : nat) (index : nat)
| Elsewhere.

Record t : Type := mk {
  searchData : list SearchRecord;
  hasWrapper : bool;                 (* elements.wrapper was found *)
  hasClear : bool;                   (* elements.clear was found *)
  inputValue : string;               (* input.value *)
  clearDisplay : option string;      (* clear.style.display, once set *)
  active : Active;                   (* document.activeElement *)
  debounced : Debounce.t (A := string);   (* debouncedSearch *)
  attached : list (nat * Panel);     (* containers that are in the wrapper *)
  resultsContainer : option (nat * Panel);   (* elements.resultsContainer *)
  nextElement : nat;                 (* identity of the next container *)
  announcements : list string;       (* Helpers.announce(message) *)
  location : option string;          (* window.location.href, once set *)
  prevented : nat;                   (* calls of e.preventDefault() *)
  errors : list Error                (* what a handler threw *)
}.

(** After [init] has found the input: nothing typed, no panel. *)
Definition start (wrapper clear : bool) : t :=
  mk catalog wrapper clear EmptyString None Elsewhere Debounce.start [] None
     0 [] None 0 [].

Definition handlerOf (ui : t) : SearchHandler.t :=
  mkHandler (searchData ui)
            (match resultsContainer ui with Some _ => true | None => false end).

Definition setFocus (a : Active) (ui : t) : t :=
  mk (searchData ui) (hasWrapper ui) (hasClear ui) (inputValue ui)
     (clearDisplay ui) a (debounced ui) (attached ui) (resultsContainer ui)
     (nextElement ui) (announcements ui) (location ui) (prevented ui)
     (errors ui).

Definition setInput (value : string) (display : option string)
           (d : Debounce.t (A := string)) (ui : t) : t :=
  mk (searchData ui) (hasWrapper ui) (hasClear ui) value display (active ui)
     d (attached ui) (resultsContainer ui) (nextElement ui)
     (announcements ui) (location ui) (prevented ui) (errors ui).

Definition preventDefault (ui : t) : t :=
  mk (searchData ui) (hasWrapper ui) (hasClear ui) (inputValue ui)
     (clearDisplay ui) (active ui) (debounced ui) (attached ui)
     (resultsContainer ui) (nextElement ui) (announcements ui) (location ui)
     (S (prevented ui)) (errors ui).

Definition navigate (url : string) (ui : t) : t :=
  mk (searchData ui) (hasWrapper ui) (hasClear ui) (inputValue ui)
     (clearDisplay ui) (active ui) (debounced ui) (attached ui)
     (resultsContainer ui) (nextElement ui) (announcements ui) (Some url)
     (prevented ui) (errors ui).

Definition isContainer (id : nat) (entry : nat * Panel) : bool :=
  (fst entry =? id)%nat.

(** [clearResults] (lines 865-868).  An element that is removed while it
    has the focus loses it. *)
Definition clearResults (ui : t) : t :=
  match resultsContainer ui with
  | None => ui
  | Some (id, _) =>
      mk (searchData ui) (hasWrapper ui) (hasClear ui) (inputValue ui)
         (clearDisplay ui)
         (match active ui with
          | OnResult c _ => if (c =? id)%nat then Elsewhere else active ui
          | a => a
          end)
         (debounced ui)
         (filter (fun entry => negb (isContainer id entry)) (attached ui))
         None (nextElement ui) (announcements ui) (location ui)
         (prevented ui) (errors ui)
  end.

(** [results.forEach((result, index) => ...)] (lines 828-844) *)
Fixpoint renderItems (query : string) (index : Z)
         (results : list ScoredRecord) : completion (list Item) :=
  match results with
  | [] => Returns []
  | result :: rest =>
      bind (highlightText (title (item result)) query) (fun titleHtml =>
      bind (highlightText (description (item result)) query) (fun descHtml =>
      bind (renderItems query (index + 1) rest) (fun items =>
      Returns (mkItem (page (item result)) (category (item result))
                      titleHtml descHtml (index * 30) :: items))))
  end.

(** [`${n} result${n !== 1 ? 's' : ''}`] *)
Definition countText (n : nat) : string :=
  Builtins.ofNat n ++ " result" ++ (if (n =? 1)%nat then "" else "s").

Definition renderPanel (results : list ScoredRecord) (query : string)
  : completion Panel :=
  match results with
  | [] => Returns (NoResults (Helpers.escapeHtml query))
  | _ =>
      bind (renderItems query 0 results) (fun items =>
      Returns (Results (countText (List.length results)) items))
  end.

(** [displayResults] (lines 799-851) *)
Definition displayResults (results : list ScoredRecord) (query : string)
           (ui : t) : t :=
  let ui := clearResults ui in
  let id := nextElement ui in
  match renderPanel results query with
  | Returns panel =>
      mk (searchData ui) (hasWrapper ui) (hasClear ui) (inputValue ui)
         (clearDisplay ui) (active ui) (debounced ui)
         (if hasWrapper ui then attached ui ++ [(id, panel)]
          else attached ui)
         (Some (id, panel)) (S id)
         (announcements ui
          ++ [countText (List.length results) ++ " found"])
         (location ui) (prevented ui) (errors ui)
  | Throws e =>
      mk (searchData ui) (hasWrapper ui) (hasClear ui) (inputValue ui)
         (clearDisplay ui) (active ui) (debounced ui) (attached ui)
         (resultsContainer ui) (S id) (announcements ui) (location ui)
         (prevented ui) (errors ui ++ [e])
  | Unmodelled => ui
  end.

(** [handleSearch] (lines 759-767) *)
Definition handleSearch (query : string) (ui : t) : t :=
  if String.eqb query EmptyString then clearResults ui
  else displayResults (searchContent (handlerOf ui) query) query ui.

(** The result items of the document, in document order. *)
Definition itemsOf (entry : nat * Panel) : list (nat * nat) :=
  match snd entry with
  | NoResults _ => []
  | Results _ items =>
      map (fun i => (fst entry, i)) (seq 0 (List.length items))
  end.

Definition resultItems (ui : t) : list (nat * nat) :=
  flat_map itemsOf (attached ui).

Definition isActive (a : Active) (element : nat * nat) : bool :=
  match a with
  | OnResult c i => (c =? fst element)%nat && (i =? snd element)%nat
  | _ => false
  end.

(** The index that gets the focus (lines 749-754). *)
Definition nextIndex (key : string) (currentIndex length : Z) : Z :=
  if String.eqb key "ArrowDown" then
    if currentIndex <? length - 1 then currentIndex + 1 else 0
  else
    if currentIndex >? 0 then currentIndex - 1 else length - 1.

(** [handleArrowNavigation] (lines 742-757) *)
Definition handleArrowNavigation (key : string) (ui : t) : t :=
  let results := resultItems ui in
  if (List.length results =? 0)%nat then ui
  else
    let ui := preventDefault ui in
    let currentIndex := Builtins.findIndex (isActive (active ui)) results in
    let next := nextIndex key currentIndex (Z.of_nat (List.length results)) in
    match Builtins.at_ results next with
    | Some (c, i) => setFocus (OnResult c i) ui
    | None => ui
    end.

(** The listener of [input] on the input (lines 684-690) *)
Definition onInput (value : string) (ui : t) : t :=
  let query := Builtins.trim value in
  setInput value
    (if hasClear ui
     then Some (if String.eqb query EmptyString then "none" else "flex")
     else clearDisplay ui)
    (Debounce.call 200 query (debounced ui)) ui.

(** The listener of [keydown] on the input (lines 693-710) *)
Definition onInputKeydown (key : string) (ui : t) : t :=
  let ui :=
    if String.eqb key "Enter" then
      let ui := preventDefault ui in
      let query := Builtins.trim (inputValue ui) in
      if String.eqb query EmptyString then ui
      else
        match searchContent (handlerOf ui) query with
        | first :: _ => navigate (page (item first)) ui
        | [] => ui
        end
    else ui in
  if String.eqb key "ArrowDown" || String.eqb key "ArrowUp"
  then handleArrowNavigation key ui
  else ui.

(** The listener of [click] on the clear button (lines 713-718); there is
    none when the page has no such button. *)
Definition onClearClick (ui : t) : t :=
  if hasClear ui then
    let ui := setInput EmptyString (clearDisplay ui) (debounced ui) ui in
    let ui := setFocus OnInput ui in
    let ui := clearResults ui in
    setInput (inputValue ui) (Some "none") (debounced ui) ui
  else ui.

(** The listener of [keydown] on the document (lines 721-732) *)
Definition onDocumentKeydown (key : string) (ctrlKey metaKey : bool) (ui : t)
  : t :=
  let ui :=
    if (ctrlKey || metaKey) && String.eqb key "k"
    then setFocus OnInput (preventDefault ui)
    else ui in
  match active ui with
  | OnInput =>
      if String.eqb key "Escape" then clearResults (setFocus Elsewhere ui)
      else ui
  | _ => ui
  end.

(** The listener of [click] on the document (lines 735-739):
    [inWrapper] and [inResults] tell whether the wrapper and the container,
    where there is one, contain the target. *)
Definition onDocumentClick (inWrapper inResults : bool) (ui : t) : t :=
  let outsideWrapper := if hasWrapper ui then negb inWrapper else true in
  let outsideResults :=
    match resultsContainer ui with
    | Some _ => negb inResults
    | None => true
    end in
  if outsideWrapper && outsideResults then clearResults ui else ui.

(** The timer [id] of the debounced search expires (lines 680-682). *)
Definition onTimeout (id : nat) (ui : t) : t :=
  match Debounce.lookup id (Debounce.timers (debounced ui)) with
  | Some query =>
      handleSearch query
        (setInput (inputValue ui) (clearDisplay ui)
                  (Debounce.expire id (debounced ui)) ui)
  | None => ui
  end.

Inductive event : Type :=
| Input (value : string)
| InputKeydown (key : string)
| ClearClick
| DocumentKeydown (key : string) (ctrlKey metaKey : bool)
| DocumentClick (inWrapper inResults : bool)
| Timeout (id : nat).

Definition step (ui : t) (e : event) : t :=
  match e with
  | Input value => onInput value ui
  | InputKeydown key => onInputKeydown key ui
  | ClearClick => onClearClick ui
  | DocumentKeydown key ctrlKey metaKey =>
      onDocumentKeydown key ctrlKey metaKey ui
  | DocumentClick inWrapper inResults =>
      onDocumentClick inWrapper inResults ui
  | Timeout id => onTimeout id ui
  end.

Definition run (events : list event) (ui : t) : t := fold_left step events ui.

(** What an event means to the debounced search. *)
Definition debounceEvent (e : event) : list (Debounce.event (A := string)) :=
  match e with
  | Input value => [Debounce.Call (Builtins.trim value)]
  | Timeout id => [Debounce.Expire id]
  | _ => []
  end.

(** The panel is in the page once, or not at all when there is no wrapper
    or no panel; no handler has thrown. *)
Definition onePanel (ui : t) : Prop :=
  errors ui = []
  /\ attached ui
     = match resultsContainer ui with
       | Some container => if hasWrapper ui then [container] else []
       | None => []
       end.

End SearchUI.

(** ** Navigation (part_000, lines 195-361) *)

Module Menu.

(** The element that has the focus, as far as the menu cares. *)
Inductive Focus : Type :=
| OnToggle
| OnElement (id : nat)
| Other.

Record t : Type := mk {
  menuOpen : bool;                  (* AppState.menuOpen *)
  showClass : bool;                 (* class show of the menu *)
  ariaExpanded : option string;     (* attribute of the toggle button *)
  bodyOverflow : string;            (* document.body.style.overflow *)
  focusables : list (nat * bool);   (* the a and button elements of the menu,
                                       in document order; true for an a *)
  focus : Focus;
  prevented : nat                   (* calls of e.preventDefault() *)
}.

Definition setFocus (f : Focus) (w : t) : t :=
  mk (menuOpen w) (showClass w) (ariaExpanded w) (bodyOverflow w)
     (focusables w) f (prevented w).

(** [Helpers.$('a', menu)] *)
Definition firstLink (w : t) : option nat :=
  option_map fst (List.find snd (focusables w)).

(** [toggleMenu] (lines 267-279) *)
Definition toggleMenu (w : t) : t :=
  let open := negb (menuOpen w) in
  let w :=
    mk open open (Some (Builtins.ofBool open))
       (if open then "hidden" else EmptyString)
       (focusables w) (focus w) (prevented w) in
  if open then
    match firstLink w with
    | Some id => setFocus (OnElement id) w
    | None => w
    end
  else w.

(** [closeMenu] (lines 281-290) *)
Definition closeMenu (w : t) : t :=
  if negb (menuOpen w) then w
  else mk false false (Some "false") EmptyString (focusables w) (focus w)
          (prevented w).

Definition hasFocus (w : t) (element : option (nat * bool)) : bool :=
  match element, focus w with
  | Some (id, _), OnElement active => (id =? active)%nat
  | _, _ => false
  end.

(** [handleFocusTrap] (lines 252-265) *)
Definition handleFocusTrap (shiftKey : bool) (w : t) : t :=
  let focusableElements := focusables w in
  let firstElement := Builtins.at_ focusableElements 0 in
  let lastElement :=
    Builtins.at_ focusableElements
                 (Z.of_nat (List.length focusableElements) - 1) in
  if shiftKey && hasFocus w firstElement then
    mk (menuOpen w) (showClass w) (ariaExpanded w) (bodyOverflow w)
       (focusables w) OnToggle (S (prevented w))
  else if negb shiftKey && hasFocus w lastElement then
    mk (menuOpen w) (showClass w) (ariaExpanded w) (bodyOverflow w)
       (focusables w) OnToggle (S (prevented w))
  else w.

(** The listeners of [setupMobileMenu] (lines 219-250) *)
Inductive event : Type :=
| ToggleClick
| DocumentClick (inMenu inToggle : bool)
| DocumentKeydown (key : string)
| LinkClick
| MenuKeydown (key : string) (shiftKey : bool).

Definition step (w : t) (e : event) : t :=
  match e with
  | ToggleClick => toggleMenu w
  | DocumentClick inMenu inToggle =>
      if menuOpen w && negb inMenu && negb inToggle then closeMenu w else w
  | DocumentKeydown key =>
      if String.eqb key "Escape" && menuOpen w
      then setFocus OnToggle (closeMenu w)
      else w
  | LinkClick => closeMenu w
  | MenuKeydown key shiftKey =>
      if String.eqb key "Tab" && menuOpen w then handleFocusTrap shiftKey w
      else w
  end.

Definition run (events : list event) (w : t) : t := fold_left step events w.

(** The page shows the menu exactly when the flag says so. *)
Definition consistent (w : t) : Prop :=
  showClass w = menuOpen w
  /\ ariaExpanded w = Some (Builtins.ofBool (menuOpen w))
  /\ bodyOverflow w = (if menuOpen w then "hidden" else EmptyString).

End Menu.

Module Scroll.

(** [Config.SCROLL_THRESHOLD] and [Config.HEADER_HIDE_THRESHOLD]
    (lines 9-10) *)
Definition SCROLL_THRESHOLD : Q := 10 # 1.
Definition HEADER_HIDE_THRESHOLD : Q := 100 # 1.

(** [a > b] on scroll offsets *)
Definition gt (a b : Q) : bool := negb (Qle_bool a b).

Record t : Type := mk {
  hasHeader : bool;       (* elements.header was found *)
  isScrolled : bool;      (* AppState.isScrolled *)
  scrolledClass : bool;   (* class scrolled of the header *)
  hiddenClass : bool;     (* class hidden of the header *)
  lastScrollY : Q         (* this.lastScrollY *)
}.

(** [handleScroll] (lines 300-318), [currentScrollY] being [window.scrollY] *)
Definition handleScroll (currentScrollY : Q) (w : t) : t :=
  if negb (hasHeader w) then w
  else
    let shouldHaveShadow := gt currentScrollY SCROLL_THRESHOLD in
    let changed := negb (Bool.eqb shouldHaveShadow (isScrolled w)) in
    let shouldHide :=
      gt currentScrollY (lastScrollY w)
      && gt currentScrollY HEADER_HIDE_THRESHOLD in
    mk (hasHeader w)
       (if changed then shouldHaveShadow else isScrolled w)
       (if changed then shouldHaveShadow else scrolledClass w)
       shouldHide currentScrollY.

Definition run (offsets : list Q) (w : t) : t :=
  fold_left (fun w y => handleScroll y w) offsets w.

End Scroll.

Module ActiveNav.

(** [window.location.pathname.split('/').pop() || 'index.html'] (line 343) *)
Definition currentPage (pathname : string) : string :=
  match Builtins.pop (Builtins.split "/" pathname) with
  | Some segment =>
      if String.eqb segment EmptyString then "index.html" else segment
  | None => "index.html"
  end.

(** A link of the navigation menu; [href] is [None] without the attribute. *)
Record Link : Type := mkLink {
  href : option string;
  activeClass : bool;
  ariaCurrent : option string
}.

(** [href === currentPage || (currentPage === 'index.html' && href === '/')]
    (line 347) *)
Definition isActive (page : string) (link : Link) : bool :=
  match href link with
  | Some h =>
      String.eqb h page || (String.eqb page "index.html" && String.eqb h "/")
  | None => false
  end.

(** [highlightActiveNav] (lines 342-356) *)
Definition highlightActiveNav (pathname : string) (links : list Link)
  : list Link :=
  let page := currentPage pathname in
  map (fun link =>
         let active := isActive page link in
         mkLink (href link) active (if active then Some "page" else None))
      links.

End ActiveNav.

(** ** The listener of the system theme (part_000, lines 160-165) *)

Module ThemeListener.
Import Completion AppState.

(** The listener of [change] that [setupSystemThemeListener] registers on
    the media query; [matches] is [e.matches]. *)
Definition onSystemThemeChange (matches : bool) : M unit :=
  prefs <- getPreferences ;;
  stored <- lift (getProp prefs "theme") ;;
  if truthy stored then ret tt
  else
    setTheme (VStr (if matches then "dark" else "light")) ;;;
    applyTheme.

End ThemeListener.

(** ** [Performance.prefetchLinks] (part_000, lines 1015-1033) *)

Module Prefetch.

Record t : Type := mk {
  hrefs : list string;        (* link.href of the links to .html pages *)
  observer : bool;            (* 'IntersectionObserver' in window *)
  fired : list nat;           (* links whose once-listener has run *)
  prefetched : list string;   (* const prefetched = new Set() *)
  head : list string          (* href of the prefetch links put in the head *)
}.

Definition start (hrefs : list string) (observer : bool) : t :=
  mk hrefs observer [] [] [].

(** [prefetched.has(href)] *)
Definition has (href : string) (set : list string) : bool :=
  existsb (String.eqb href) set.

(** The pointer enters link [i]: the listener, registered with
    [{ once: true }] when the browser has IntersectionObserver, runs if it
    has not run before. *)
Definition mouseenter (i : nat) (w : t) : t :=
  if negb (observer w) then w
  else
    match nth_error (hrefs w) i with
    | None => w
    | Some href =>
        if existsb (Nat.eqb i) (fired w) then w
        else if has href (prefetched w)
        then mk (hrefs w) (observer w) (i :: fired w) (prefetched w) (head w)
        else mk (hrefs w) (observer w) (i :: fired w)
                (prefetched w ++ [href]) (head w ++ [href])
    end.

Definition run (events : list nat) (w : t) : t :=
  fold_left (fun w i => mouseenter i w) events w.

(** Every target is in the head once, the head is what the set holds, and
    the target of a link whose listener has run is in the set. *)
Definition tidy (w : t) : Prop :=
  NoDup (prefetched w) /\ head w = prefetched w
  /\ (forall h, In h (prefetched w) -> In h (hrefs w))
  /\ (forall i h, In i (fired w) -> nth_error (hrefs w) i = Some h ->
                  In h (prefetched w)).

End Prefetch.

(** ** The heap: the catalog and the results as objects held by reference

    [searchContent] (part_000, lines 769-797) and [loadSearchData] (lines
    642-672) once more, with objects and arrays as the script has them:
    created where a literal or a built-in creates one, held by reference,
    and changed in place by [sort].  The world also holds what two
    evaluations may differ in: the clock and the state of the random number
    generator. *)

Module Heap.

(** An object of the catalog or of a result. *)
Record Obj : Type := mkObj {
  title : string;
  description : string;
  category : string;
  page : string;
  keywords : nat;          (* reference of an array of strings *)
  score : option Z         (* the property [score], when the object has it *)
}.

Record World : Type := mkWorld {
  strings : list (list string);   (* the arrays of strings, by reference *)
  objects : list Obj;             (* the objects, by reference *)
  arrays : list (list nat);       (* the arrays of objects, by reference *)
  searchData : nat;               (* [this.searchData]: an array of objects *)
  clock : Z;                      (* what [Date.now()] would return *)
  entropy : list Q                (* what [Math.random()] would return *)
}.

(** A step of the script: [None] where a reference points nowhere, which
    no state of the script does. *)
Definition M (A : Type) : Type := World -> option (A * World).

Definition ret {A : Type} (a : A) : M A := fun w => Some (a, w).

Definition bind {A B : Type} (m : M A) (k : A -> M B) : M B :=
  fun w =>
    match m w with
    | Some (a, w') => k a w'
    | None => None
    end.

Notation "x <- m ;; k" := (bind m (fun x => k))
  (at level 61, m at next level, right associativity).

Definition object (r : nat) : M Obj := fun w =>
  match nth_error (objects w) r with
  | Some o => Some (o, w)
  | None => None
  end.

Definition stringArray (r : nat) : M (list string) := fun w =>
  match nth_error (strings w) r with
  | Some a => Some (a, w)
  | None => None
  end.

Definition array (r : nat) : M (list nat) := fun w =>
  match nth_error (arrays w) r with
  | Some a => Some (a, w)
  | None => None
  end.

(** A new array of strings, a new object and a new array of objects: each
    gets the next free reference of its kind. *)
Definition newStrings (elems : list string) : M nat := fun w =>
  Some (List.length (strings w),
        mkWorld (strings w ++ [elems]) (objects w) (arrays w) (searchData w)
                (clock w) (entropy w)).

Definition newObject (o : Obj) : M nat := fun w =>
  Some (List.length (objects w),
        mkWorld (strings w) (objects w ++ [o]) (arrays w) (searchData w)
                (clock w) (entropy w)).

Definition newArray (elems : list nat) : M nat := fun w =>
  Some (List.length (arrays w),
        mkWorld (strings w) (objects w) (arrays w ++ [elems]) (searchData w)
                (clock w) (entropy w)).

Fixpoint replace {A : Type} (n : nat) (x : A) (l : list A) : list A :=
  match l, n with
  | [], _ => []
  | _ :: l', O => x :: l'
  | y :: l', S n' => y :: replace n' x l'
  end.

(** The array [r] gets new elements, in place. *)
Definition setArray (r : nat) (elems : list nat) : M unit := fun w =>
  match nth_error (arrays w) r with
  | Some _ =>
      Some (tt,
            mkWorld (strings w) (objects w) (replace r elems (arrays w))
                    (searchData w) (clock w) (entropy w))
  | None => None
  end.

(** [this.searchData = r] *)
Definition setSearchData (r : nat) : M unit := fun w =>
  Some (tt,
        mkWorld (strings w) (objects w) (arrays w) r (clock w) (entropy w)).

Definition getSearchData : M nat := fun w => Some (searchData w, w).

(** The calls of a callback on the elements of an array, in order. *)
Fixpoint mapM {A B : Type} (f : A -> M B) (l : list A) : M (list B) :=
  match l with
  | [] => ret []
  | x :: l' => y <- f x ;; ys <- mapM f l' ;; ret (y :: ys)
  end.

Fixpoint filterM {A : Type} (p : A -> M bool) (l : list A) : M (list A) :=
  match l with
  | [] => ret []
  | x :: l' =>
      keep <- p x ;;
      rest <- filterM p l' ;;
      ret (if keep then x :: rest else rest)
  end.

(** [a.map(f)]: a new array of what [f] returns. *)
Definition map (f : nat -> M nat) (a : nat) : M nat :=
  elems <- array a ;; out <- mapM f elems ;; newArray out.

(** [a.filter(p)]: a new array of the elements that [p] accepts. *)
Definition filter (p : nat -> M bool) (a : nat) : M nat :=
  elems <- array a ;; out <- filterM p elems ;; newArray out.

(** [(a, b) => b.score - a.score] (line 795), read in the world [w]: a
    score that is missing makes the difference NaN, which [sort] takes
    as 0. *)
Definition compare (w : World) (a b : nat) : Z :=
  match nth_error (objects w) b, nth_error (objects w) a with
  | Some ob, Some oa =>
      match score ob, score oa with
      | Some sb, Some sa => sb - sa
      | _, _ => 0
      end
  | _, _ => 0
  end.

(** [a.sort(compare)]: the array itself, sorted in place. *)
Definition sort (a : nat) : M nat := fun w =>
  (elems <- array a ;;
   _ <- setArray a (JS.sort (compare w) elems) ;;
   ret a) w.

(** [a.slice(0, n)]: a new array. *)
Definition slice0 (n : nat) (a : nat) : M nat :=
  elems <- array a ;; newArray (JS.slice0 n elems).

(** The callback of [map] (lines 775-793): [{ ...item, score }] is a new
    object with the properties of [item], its keywords array included by
    reference, and the score. *)
Definition scoreItem (searchTerms : list string) (item : nat) : M nat :=
  o <- object item ;;
  words <- stringArray (keywords o) ;;
  let titleLower := JS.toLowerCase (title o) in
  let descLower := JS.toLowerCase (description o) in
  let keywordsLower := JS.toLowerCase (JS.join " " words) in
  let categoryLower := JS.toLowerCase (category o) in
  let score :=
    fold_left
      (SearchHandler.addTerm titleLower descLower keywordsLower categoryLower)
      searchTerms 0 in
  newObject (mkObj (title o) (description o) (category o) (page o)
                   (keywords o) (Some score)).

(** [item => item.score > 0] (line 794); [undefined > 0] is false. *)
Definition positive (item : nat) : M bool :=
  o <- object item ;;
  ret (match score o with
       | Some s => s >? 0
       | None => false
       end).

(** [searchContent] (lines 769-797) *)
Definition searchContent (query : string) : M nat :=
  let searchTerms := SearchHandler.searchTerms query in
  if (List.length searchTerms =? 0)%nat then newArray []
  else
    data <- getSearchData ;;
    mapped <- map (scoreItem searchTerms) data ;;
    filtered <- filter positive mapped ;;
    sorted <- sort filtered ;;
    slice0 Config.SEARCH_RESULT_LIMIT sorted.

(** An object literal of [loadSearchData] (lines 645-671). *)
Definition newRecord (r : SearchHandler.SearchRecord) : M nat :=
  words <- newStrings (SearchHandler.keywords r) ;;
  newObject (mkObj (SearchHandler.title r) (SearchHandler.description r)
                   (SearchHandler.category r) (SearchHandler.page r)
                   words None).

(** [loadSearchData] (lines 642-672) *)
Definition loadSearchData : M unit :=
  items <- mapM newRecord SearchHandler.catalog ;;
  data <- newArray items ;;
  setSearchData data.

(** *** What a reference stands for *)

Definition recordAt (w : World) (r : nat)
  : option SearchHandler.SearchRecord :=
  match nth_error (objects w) r with
  | Some o =>
      match nth_error (strings w) (keywords o) with
      | Some words =>
          Some (SearchHandler.mkRecord (title o) (description o)
                                       (category o) (page o) words)
      | None => None
      end
  | None => None
  end.

Definition scoredAt (w : World) (r : nat)
  : option SearchHandler.ScoredRecord :=
  match recordAt w r, nth_error (objects w) r with
  | Some item, Some o =>
      match score o with
      | Some s => Some (SearchHandler.mkScored item s)
      | None => None
      end
  | _, _ => None
  end.

Fixpoint all {A B : Type} (f : A -> option B) (l : list A)
  : option (list B) :=
  match l with
  | [] => Some []
  | x :: l' =>
      match f x, all f l' with
      | Some y, Some ys => Some (y :: ys)
      | _, _ => None
      end
  end.

(** The catalog: the records that the elements of [this.searchData] are. *)
Definition catalogOf (w : World) : option (list SearchHandler.SearchRecord) :=
  match nth_error (arrays w) (searchData w) with
  | Some elems => all (recordAt w) elems
  | None => None
  end.

(** The records and scores that the elements of the array [a] are. *)
Definition resultOf (w : World) (a : nat)
  : option (list SearchHandler.ScoredRecord) :=
  match nth_error (arrays w) a with
  | Some elems => all (scoredAt w) elems
  | None => None
  end.

(** [w'] has everything of [w] as it was, and maybe more. *)
Definition extends (w w' : World) : Prop :=
  strings w' = strings w
  /\ (exists more, objects w' = (objects w ++ more)%list)
  /\ (exists more, arrays w' = (arrays w ++ more)%list)
  /\ searchData w' = searchData w
  /\ clock w' = clock w
  /\ entropy w' = entropy w.

(** [SearchHandler] as the script declares it (line 625): [searchData] is
    an empty array. *)
Definition initial (clock : Z) (entropy : list Q) : World :=
  mkWorld [] [] [[]] 0 clock entropy.

End Heap.

(** ** The tokenizer on strings of UTF-16 code units

    The expression [query.toLowerCase().split(/\s+/).filter(term =>
    term.length > 1)] (part_000, line 770) for every JavaScript string: a
    string is the list of its code units, [length] counts them, and [\s]
    is the class of the language.  The case tables behind
    [String.prototype.toLowerCase] are the platform's and not part of the
    script: the function is a parameter. *)

Module Utf16.

(** [\s]: the white space and line terminator code points of ECMAScript,
    all of one code unit: U+0009..U+000D, U+0020, U+00A0, U+1680,
    U+2000..U+200A, U+2028, U+2029, U+202F, U+205F, U+3000, U+FEFF. *)
Definition isWhitespace (c : N) : bool :=
  ((9 <=? c) && (c <=? 13) || (c =? 32) || (c =? 160) || (c =? 5760)
   || (8192 <=? c) && (c <=? 8202) || (c =? 8232) || (c =? 8233)
   || (c =? 8239) || (c =? 8287) || (c =? 12288) || (c =? 65279))%N.

(** [s.split(/\s+/)], as [JS.splitFrom]. *)
Fixpoint splitFrom (inRun : bool) (s : list N) : list (list N) :=
  match s with
  | [] => [[]]
  | c :: s' =>
      if isWhitespace c then
        if inRun then splitFrom true s' else [] :: splitFrom true s'
      else
        match splitFrom false s' with
        | piece :: rest => (c :: piece) :: rest
        | [] => [[c]]
        end
  end.

Definition splitWhitespace (s : list N) : list (list N) := splitFrom false s.

Section Tokenizer.
(** [String.prototype.toLowerCase] *)
Variable toLowerCase : list N -> list N.

(** [query.toLowerCase().split(/\s+/).filter(term => term.length > 1)] *)
Definition searchTerms (query : list N) : list (list N) :=
  filter (fun term => (1 <? List.length term)%nat)
         (splitWhitespace (toLowerCase query)).
End Tokenizer.

(** The letters of U+0000..U+00FF that have a lowercase form, 32 code
    units higher: A-Z, and U+00C0..U+00DE but U+00D7. *)
Definition isUpperLatin1 (c : N) : bool :=
  ((65 <=? c) && (c <=? 90)
   || (192 <=? c) && (c <=? 222) && negb (c =? 215))%N.

Definition lowerLatin1 (c : N) : N :=
  if isUpperLatin1 c then (c + 32)%N else c.

(** What is used of [toLowerCase]: on strings of code units up to U+00FF it
    maps each letter to its lowercase form; no code unit of its result
    would change when lowercased on its own; and it leaves a string of
    white space as it is. *)
Record Lowercase (toLowerCase : list N -> list N) : Prop := mkLowercase {
  lower_latin1 :
    forall s, Forall (fun c => (c <= 255)%N) s ->
              toLowerCase s = map lowerLatin1 s;
  lower_stable :
    forall s c, In c (toLowerCase s) -> toLowerCase [c] = [c];
  lower_whitespace :
    forall s, Forall (fun c => isWhitespace c = true) s -> toLowerCase s = s
}.

(** The code units of a string of the model of U+0000..U+00FF. *)
Definition units (s : string) : list N :=
  map JS.code (list_ascii_of_string s).

Definition onlyWhitespace (s : list N) : Prop :=
  Forall (fun c => isWhitespace c = true) s.
Definition noWhitespace (s : list N) : Prop :=
  Forall (fun c => isWhitespace c = false) s.

(** A separator is a non-empty run of whitespace. *)
Definition separator (sep : list N) : Prop := sep <> [] /\ onlyWhitespace sep.

(** The pieces with a separator between each two neighbours. *)
Fixpoint weave (pieces seps : list (list N)) : list N :=
  match pieces, seps with
  | p :: pieces', sep :: seps' => (p ++ sep ++ weave pieces' seps')%list
  | p :: _, [] => p
  | [], _ => []
  end.

(** Every piece but the last is non-empty. *)
Fixpoint innerNonEmpty (pieces : list (list N)) : Prop :=
  match pieces with
  | [] | [_] => True
  | p :: pieces' => p <> [] /\ innerNonEmpty pieces'
  end.

End Utf16.

(** * Properties *)

Import SearchHandler.

(** ** Lists and the array built-ins *)

Lemma firstn_In {A : Type} (a : A) (n : nat) (l : list A) :
  In a (firstn n l) -> In a l.
Proof.
  intros H. rewrite <- (firstn_skipn n l). apply in_or_app. now left.
Qed.

Section SortLemmas.
Context {A : Type}.
Variable key : A -> Z.

(** The comparator [(a, b) => key(b) - key(a)]. *)
Local Notation "'cmp'" := (fun a b : A => key b - key a).

Lemma insertSorted_In (x a : A) (l : list A) :
  In a (JS.insertSorted cmp x l) <-> a = x \/ In a l.
Proof.
  induction l as [|y l IH]; simpl.
  - intuition.
  - destruct (cmp x y <=? 0); simpl; [intuition|].
    rewrite IH. intuition.
Qed.

Lemma sort_In (a : A) (l : list A) : In a (JS.sort cmp l) <-> In a l.
Proof.
  induction l as [|x l IH]; simpl; [tauto|].
  rewrite insertSorted_In, IH. intuition.
Qed.

Lemma sort_length (l : list A) : List.length (JS.sort cmp l) = List.length l.
Proof.
  assert (Hins : forall x m,
             List.length (JS.insertSorted cmp x m) = S (List.length m)).
  { intros x m. induction m as [|y m IH]; simpl; [reflexivity|].
    destruct (cmp x y <=? 0); simpl; [reflexivity|]. now rewrite IH. }
  induction l as [|x l IH]; simpl; [reflexivity|].
  now rewrite Hins, IH.
Qed.

Lemma insertSorted_sorted (x : A) (l : list A) :
  StronglySorted (Spec.descending key) l ->
  StronglySorted (Spec.descending key) (JS.insertSorted cmp x l).
Proof.
  induction 1 as [|y l Hs IH Hall]; simpl.
  - repeat constructor.
  - destruct (Z.leb_spec (cmp x y) 0) as [Hle|Hgt]; cbv beta in *.
    + constructor; [now constructor|].
      constructor; [unfold Spec.descending; lia|].
      eapply Forall_impl; [|exact Hall].
      unfold Spec.descending. intros z Hz. lia.
    + constructor; [exact IH|].
      apply Forall_forall. intros z Hz.
      apply insertSorted_In in Hz. destruct Hz as [->|Hz].
      * unfold Spec.descending. lia.
      * rewrite Forall_forall in Hall. now apply Hall.
Qed.

Lemma sort_sorted (l : list A) : StronglySorted (Spec.descending key) (JS.sort cmp l).
Proof.
  induction l as [|x l IH]; simpl; [constructor|].
  now apply insertSorted_sorted.
Qed.

Lemma firstn_sorted (n : nat) (l : list A) :
  StronglySorted (Spec.descending key) l -> StronglySorted (Spec.descending key) (firstn n l).
Proof.
  intros Hs. revert n.
  induction Hs as [|y l Hs IH Hall]; intros [|n]; simpl;
    try constructor; [apply IH|].
  apply Forall_forall. intros z Hz.
  rewrite Forall_forall in Hall. apply Hall.
  eapply firstn_In; exact Hz.
Qed.
End SortLemmas.

(** ** Order of two elements of a list *)

Section Precedes.
Context {A : Type}.
Implicit Types (a b x : A) (l : list A).

Lemma precedes_cons_inv a b x l :
  Spec.precedes a b (x :: l) -> (a = x /\ In b l) \/ Spec.precedes a b l.
Proof.
  intros (l1 & l2 & l3 & E). destruct l1 as [|y l1]; simpl in E.
  - injection E as <- ->. left. split; [reflexivity|].
    apply in_or_app. right. now left.
  - injection E as <- ->. right. now exists l1, l2, l3.
Qed.

Lemma precedes_cons a b x l :
  Spec.precedes a b l -> Spec.precedes a b (x :: l).
Proof.
  intros (l1 & l2 & l3 & ->). now exists (x :: l1), l2, l3.
Qed.

Lemma precedes_head x b l : In b l -> Spec.precedes x b (x :: l).
Proof.
  intros H. apply in_split in H as (l2 & l3 & ->). now exists [], l2, l3.
Qed.

Lemma precedes_app_l a b l l' :
  Spec.precedes a b l -> Spec.precedes a b (l ++ l')%list.
Proof.
  intros (l1 & l2 & l3 & ->). exists l1, l2, (l3 ++ l')%list.
  now rewrite <- !app_assoc, <- !app_comm_cons, <- !app_assoc,
    <- !app_comm_cons.
Qed.

Lemma precedes_firstn a b n l :
  Spec.precedes a b (firstn n l) -> Spec.precedes a b l.
Proof.
  intros H. rewrite <- (firstn_skipn n l). now apply precedes_app_l.
Qed.

Lemma precedes_filter (f : A -> bool) a b l :
  Spec.precedes a b (filter f l) -> Spec.precedes a b l.
Proof.
  induction l as [|x l IH]; simpl; [trivial|].
  destruct (f x).
  - intros H. apply precedes_cons_inv in H as [[-> Hb]|H].
    + apply precedes_head. apply filter_In in Hb. tauto.
    + apply precedes_cons. auto.
  - intros H. apply precedes_cons. auto.
Qed.

Lemma precedes_map {B : Type} (g : B -> A) a b (l : list B) :
  Spec.precedes a b (map g l) ->
  exists u v : B, g u = a /\ g v = b /\ Spec.precedes u v l.
Proof.
  intros (l1 & l2 & l3 & E).
  apply map_eq_app in E as (m1 & m & -> & _ & E).
  apply map_eq_cons in E as (u & m' & -> & Ha & E).
  apply map_eq_app in E as (m2 & m'' & -> & _ & E).
  apply map_eq_cons in E as (v & m3 & -> & Hb & _).
  exists u, v. repeat split; trivial. now exists m1, m2, m3.
Qed.

(** The sort of [JS.sort] is stable: elements with equal keys keep the
    order they had. *)
Variable key : A -> Z.
Local Notation "'cmp'" := (fun u v : A => key v - key u).

Lemma precedes_insertSorted a b x l :
  Spec.precedes a b (JS.insertSorted cmp x l) -> key a = key b ->
  (a = x /\ In b l) \/ Spec.precedes a b l.
Proof.
  intros H Hk. induction l as [|y l IH]; simpl in H.
  - apply precedes_cons_inv in H as [[_ []]|(l1 & l2 & l3 & E)].
    now destruct l1.
  - destruct (Z.leb_spec (cmp x y) 0) as [Hle|Hgt]; cbv beta in *.
    + now apply precedes_cons_inv in H.
    + apply precedes_cons_inv in H as [[-> Hb]|H].
      * apply insertSorted_In in Hb as [->|Hb]; [lia|].
        right. now apply precedes_head.
      * destruct (IH H) as [[-> Hb]|H'].
        -- left. split; [reflexivity|now right].
        -- right. now apply precedes_cons.
Qed.

Lemma precedes_sort a b l :
  Spec.precedes a b (JS.sort cmp l) -> key a = key b -> Spec.precedes a b l.
Proof.
  intros H Hk. induction l as [|x l IH]; simpl in H.
  - destruct H as (l1 & l2 & l3 & E). now destruct l1.
  - apply precedes_insertSorted in H as [[-> Hb]|H]; trivial.
    + apply precedes_head. exact (proj1 (sort_In key b l) Hb).
    + apply precedes_cons. auto.
Qed.
End Precedes.


(** ** Catalog positions *)

Section Positions.
Context {A B : Type}.

Lemma combine_seq_In (l : list A) (s i : nat) (x : A) :
  In (i, x) (combine (seq s (List.length l)) l) ->
  (s <= i)%nat /\ nth_error l (i - s) = Some x.
Proof.
  revert s. induction l as [|y l IH]; intros s; simpl; [intros []|].
  intros [E|H].
  - injection E as <- <-. split; [lia|]. now rewrite Nat.sub_diag.
  - apply IH in H as [Hle Hn]. split; [lia|].
    replace (i - s)%nat with (S (i - S s)) by lia. exact Hn.
Qed.

Lemma combine_seq_snd (l : list A) (s : nat) :
  map snd (combine (seq s (List.length l)) l) = l.
Proof.
  revert s. induction l as [|y l IH]; intros s; simpl; [reflexivity|].
  now rewrite IH.
Qed.

(** In the catalog numbered from [s], an earlier entry has the smaller
    number. *)
Lemma combine_seq_precedes (l : list A) (s i j : nat) (x y : A) :
  Spec.precedes (i, x) (j, y) (combine (seq s (List.length l)) l) ->
  (i < j)%nat.
Proof.
  revert s. induction l as [|z l IH]; intros s; simpl.
  - intros (l1 & l2 & l3 & E). now destruct l1.
  - intros H. apply precedes_cons_inv in H as [[E Hin]|H].
    + injection E as -> ->. apply combine_seq_In in Hin. lia.
    + now apply IH in H.
Qed.

(** Sorting, filtering and mapping numbered elements by their second
    component is sorting, filtering and mapping the elements. *)
Lemma insertSorted_snd (key : A -> Z) (p : nat * A) (l : list (nat * A)) :
  map snd (JS.insertSorted (fun a b => key (snd b) - key (snd a)) p l)
  = JS.insertSorted (fun a b => key b - key a) (snd p) (map snd l).
Proof.
  induction l as [|q l IH]; simpl; [reflexivity|].
  destruct (key (snd q) - key (snd p) <=? 0); simpl; [reflexivity|].
  now rewrite IH.
Qed.

Lemma sort_snd (key : A -> Z) (l : list (nat * A)) :
  map snd (JS.sort (fun a b => key (snd b) - key (snd a)) l)
  = JS.sort (fun a b => key b - key a) (map snd l).
Proof.
  induction l as [|p l IH]; simpl; [reflexivity|].
  now rewrite insertSorted_snd, IH.
Qed.

Lemma filter_snd (f : A -> bool) (l : list (nat * A)) :
  map snd (filter (fun p => f (snd p)) l) = filter f (map snd l).
Proof.
  induction l as [|p l IH]; simpl; [reflexivity|].
  destruct (f (snd p)); simpl; now rewrite IH.
Qed.

Lemma map_snd_tagged (g : B -> A) (l : list (nat * B)) :
  map snd (map (fun p => (fst p, g (snd p))) l) = map g (map snd l).
Proof. rewrite !map_map. reflexivity. Qed.
End Positions.

(** ** Scorer *)

Lemma addTerm_termScore (r : SearchRecord) (acc : Z) (term : string) :
  addTerm (JS.toLowerCase (title r)) (JS.toLowerCase (description r))
          (JS.toLowerCase (JS.join " " (keywords r)))
          (JS.toLowerCase (category r)) acc term
  = acc + Spec.termScore r term.
Proof.
  unfold addTerm, Spec.termScore, Spec.titleTier, Spec.bonus.
  rewrite (String.eqb_sym term).
  destruct (String.eqb _ term); [|destruct (JS.startsWith _ term)];
    repeat match goal with |- context [JS.includes ?f term] =>
             destruct (JS.includes f term) end; lia.
Qed.

Lemma fold_addTerm (r : SearchRecord) (terms : list string) (acc : Z) :
  fold_left (addTerm (JS.toLowerCase (title r))
                     (JS.toLowerCase (description r))
                     (JS.toLowerCase (JS.join " " (keywords r)))
                     (JS.toLowerCase (category r))) terms acc
  = acc + Spec.totalScore r terms.
Proof.
  revert acc. induction terms as [|term terms IH]; intros acc; simpl.
  - unfold Spec.totalScore. simpl. lia.
  - rewrite IH, addTerm_termScore. unfold Spec.totalScore. simpl. lia.
Qed.

Lemma titleTier_cases (titleLower term : string) :
  Spec.titleTier titleLower term = 100 /\ titleLower = term
  \/ Spec.titleTier titleLower term = 75 /\ titleLower <> term
     /\ JS.startsWith titleLower term = true
  \/ Spec.titleTier titleLower term = 50 /\ titleLower <> term
     /\ JS.startsWith titleLower term = false
     /\ JS.includes titleLower term = true
  \/ Spec.titleTier titleLower term = 0 /\ titleLower <> term
     /\ JS.startsWith titleLower term = false
     /\ JS.includes titleLower term = false.
Proof.
  unfold Spec.titleTier.
  destruct (String.eqb_spec term titleLower) as [->|Hne]; [now left|].
  assert (titleLower <> term) by congruence.
  destruct (JS.startsWith titleLower term); [now right; left|].
  destruct (JS.includes titleLower term); [now right; right; left|].
  now right; right; right.
Qed.

(** C1.  The score that [searchContent] computes for a record is the sum over
    the terms, each on its own, of the title tier (100 for a term equal to
    the lowercased title, else 75 when the title starts with it, else 50 when
    the title contains it), of 30 when the lowercased description contains
    the term, of 25 when the lowercased keywords joined by spaces contain it,
    and of 15 when the lowercased category contains it; a term adds exactly
    one of the amounts 100, 75, 50 or nothing for the title. *)
Theorem score_is_sum_over_terms (r : SearchRecord) (terms : list string) :
  score (scoreItem terms r) = Spec.totalScore r terms
  /\ item (scoreItem terms r) = r
  /\ forall term,
       let titleLower := JS.toLowerCase (title r) in
       Spec.termScore r term
       = Spec.titleTier titleLower term
         + (if JS.includes (JS.toLowerCase (description r)) term
            then 30 else 0)
         + (if JS.includes (JS.toLowerCase (JS.join " " (keywords r))) term
            then 25 else 0)
         + (if JS.includes (JS.toLowerCase (category r)) term
            then 15 else 0)
       /\ Spec.titleTier titleLower term
          = (if String.eqb term titleLower then 100
             else if JS.startsWith titleLower term then 75
             else if JS.includes titleLower term then 50 else 0)
       /\ In (Spec.titleTier titleLower term) [100; 75; 50; 0].
Proof.
  split; [|split].
  - unfold scoreItem. simpl. now rewrite fold_addTerm.
  - reflexivity.
  - intros term titleLower. split; [reflexivity|]. split; [reflexivity|].
    destruct (titleTier_cases titleLower term)
      as [[-> _]|[[-> _]|[[-> _]|[-> _]]]]; simpl; auto.
Qed.

(** ** Ranker *)

Lemma searchContent_terms (this : SearchHandler.t) (query : string) :
  searchTerms query <> [] ->
  searchContent this query
  = firstn 10
      (JS.sort (fun a b => score b - score a)
         (filter (fun r => score r >? 0)
            (map (scoreItem (searchTerms query)) (searchData this)))).
Proof.
  intros H. unfold searchContent.
  destruct (searchTerms query); [congruence|reflexivity].
Qed.

Lemma searchContent_In (this : SearchHandler.t) (query : string)
      (r : ScoredRecord) :
  In r (searchContent this query) ->
  score r > 0 /\ In (item r) (searchData this)
  /\ r = scoreItem (searchTerms query) (item r).
Proof.
  unfold searchContent.
  destruct (List.length (searchTerms query) =? 0)%nat; [intros []|].
  intros H. apply firstn_In in H.
  apply (proj1 (sort_In score _ _)) in H. apply filter_In in H as [H Hpos].
  apply in_map_iff in H as (x & <- & Hx).
  split; [lia|]. now split.
Qed.

(** C3.  A query without qualifying term gets the empty sequence. *)
Theorem rank_without_terms_is_empty (this : SearchHandler.t)
        (query : string) :
  searchTerms query = [] -> searchContent this query = [].
Proof.
  intros H. unfold searchContent. now rewrite H.
Qed.

Lemma rank_without_terms_is_empty_witness :
  searchTerms "  a B " = []
  /\ searchContent (loadSearchData (mkHandler [] false)) "  a B " = [].
Proof.
  split; [reflexivity|].
  apply (rank_without_terms_is_empty _ "  a B "). reflexivity.
Defined.

(** C4.  Every record that [searchContent] returns has a positive score. *)
Theorem rank_scores_positive (this : SearchHandler.t) (query : string)
        (r : ScoredRecord) :
  In r (searchContent this query) -> score r > 0.
Proof.
  intros H. now apply searchContent_In in H.
Qed.

Lemma rank_scores_positive_witness :
  In (mkScored (mkRecord "Read Aloud"
                         "Reading aloud helps comprehension and memory"
                         "Elementary" "elementary.html"
                         ["reading"; "comprehension"]) 30)
     (searchContent (mkHandler catalog false) "memory")
  /\ 30 > 0.
Proof.
  assert (H : In (mkScored (mkRecord "Read Aloud"
                         "Reading aloud helps comprehension and memory"
                         "Elementary" "elementary.html"
                         ["reading"; "comprehension"]) 30)
     (searchContent (mkHandler catalog false) "memory")).
  { vm_compute. right. left. reflexivity. }
  split; [exact H|].
  exact (rank_scores_positive (mkHandler catalog false) "memory" _ H).
Defined.

(** C5.  [searchContent] returns at most [Config.SEARCH_RESULT_LIMIT], that
    is ten, records, however many have a positive score. *)
Theorem rank_length_at_most_limit (this : SearchHandler.t) (query : string) :
  (List.length (searchContent this query) <= Config.SEARCH_RESULT_LIMIT)%nat
  /\ Config.SEARCH_RESULT_LIMIT = 10%nat.
Proof.
  split; [|reflexivity]. unfold searchContent.
  destruct (List.length (searchTerms query) =? 0)%nat.
  - simpl. lia.
  - apply firstn_le_length.
Qed.

Lemma numbered_output (this : SearchHandler.t) (query : string) :
  map snd (Spec.numbered this query) = searchContent this query.
Proof.
  unfold Spec.numbered, searchContent, JS.slice0.
  destruct (List.length (searchTerms query) =? 0)%nat; [reflexivity|].
  rewrite <- firstn_map, (sort_snd score).
  rewrite (filter_snd (fun r => score r >? 0)).
  now rewrite map_snd_tagged, combine_seq_snd.
Qed.

Lemma numbered_In (this : SearchHandler.t) (query : string) (i : nat)
      (r : ScoredRecord) :
  In (i, r) (Spec.numbered this query) ->
  nth_error (searchData this) i = Some (item r).
Proof.
  unfold Spec.numbered.
  destruct (List.length (searchTerms query) =? 0)%nat; [intros []|].
  intros H. apply firstn_In in H.
  apply (proj1 (sort_In (fun p => score (snd p)) _ _)) in H.
  apply filter_In in H as [H _].
  apply in_map_iff in H as ([j x] & E & H). simpl in E.
  injection E as -> <-. apply combine_seq_In in H as [_ H].
  now rewrite Nat.sub_0_r in H.
Qed.

Lemma numbered_stable (this : SearchHandler.t) (query : string)
      (i j : nat) (a b : ScoredRecord) :
  Spec.precedes (i, a) (j, b) (Spec.numbered this query) ->
  score a = score b -> (i < j)%nat.
Proof.
  unfold Spec.numbered.
  destruct (List.length (searchTerms query) =? 0)%nat.
  - intros (l1 & l2 & l3 & E). now destruct l1.
  - intros H Hk. apply precedes_firstn in H.
    apply (precedes_sort (fun p => score (snd p))) in H; [|exact Hk].
    apply precedes_filter in H.
    apply precedes_map in H as ([i' x] & [j' y] & E1 & E2 & H).
    simpl in E1, E2. injection E1 as -> _. injection E2 as -> _.
    now apply combine_seq_precedes in H.
Qed.

(** C2.  The records that [searchContent] returns stand in non-increasing
    order of score, and of two returned records with equal scores the one
    that comes first in the output comes first in the catalog: the output
    can be numbered with catalog positions that grow along every run of equal
    scores. *)
Theorem rank_sorted_and_stable (this : SearchHandler.t) (query : string) :
  StronglySorted (Spec.descending score) (searchContent this query)
  /\ (forall a b,
        Spec.precedes a b (searchContent this query) ->
        score a = score b ->
        Spec.precedes (item a) (item b) (searchData this))
  /\ exists places : list (nat * ScoredRecord),
       map snd places = searchContent this query
       /\ (forall i r,
             In (i, r) places ->
             nth_error (searchData this) i = Some (item r))
       /\ forall i j a b,
            Spec.precedes (i, a) (j, b) places -> score a = score b ->
            (i < j)%nat.
Proof.
  split; [|split].
  - unfold searchContent.
    destruct (List.length (searchTerms query) =? 0)%nat; [constructor|].
    apply (firstn_sorted score), (sort_sorted score).
  - unfold searchContent.
    destruct (List.length (searchTerms query) =? 0)%nat.
    + intros a b (l1 & l2 & l3 & E). now destruct l1.
    + intros a b H Hk. unfold JS.slice0 in H.
      apply precedes_firstn in H.
      apply (precedes_sort score) in H; [|exact Hk].
      apply precedes_filter in H.
      apply precedes_map in H as (u & v & <- & <- & H). exact H.
  - exists (Spec.numbered this query).
    split; [apply numbered_output|].
    split; [apply numbered_In|apply numbered_stable].
Qed.

(** C8.  On the catalog of [loadSearchData] and the query "pomodoro": the
    record "Pomodoro Technique" is in the starts-with tier, 75 and not 100,
    its lowercased title differing from the term; "Academic Balance" gets
    the keyword bonus; the output holds these two records, the first one in
    front. *)
Theorem pomodoro_scenario (this : SearchHandler.t) :
  let pomodoro :=
    mkRecord "Pomodoro Technique" "Study for 25 minutes then 5-minute break"
             "High School" "highschool.html"
             ["focus"; "timer"; "productivity"; "breaks"] in
  let balance :=
    mkRecord "Academic Balance"
             "Combine mental breaks with focused study sessions"
             "University" "university.html"
             ["balance"; "wellness"; "breaks"; "pomodoro"] in
  searchTerms "pomodoro" = ["pomodoro"]
  /\ In pomodoro (searchData (loadSearchData this))
  /\ In balance (searchData (loadSearchData this))
  /\ String.eqb (JS.toLowerCase (title pomodoro)) "pomodoro" = false
  /\ Spec.titleTier (JS.toLowerCase (title pomodoro)) "pomodoro" = 75
  /\ Spec.bonus 25 (JS.toLowerCase (JS.join " " (keywords balance)))
                "pomodoro" = 25
  /\ searchContent (loadSearchData this) "pomodoro"
     = [mkScored pomodoro 75; mkScored balance 25].
Proof.
  cbv zeta. repeat split; try reflexivity.
  - vm_compute. tauto.
  - vm_compute. tauto.
Qed.
(** ** Ranking on the heap: two evaluations *)

Section HeapFacts.
Implicit Types (w : Heap.World) (r : nat).

Lemma extends_refl w : Heap.extends w w.
Proof.
  repeat split; try reflexivity; exists []; now rewrite app_nil_r.
Qed.

Lemma extends_trans w1 w2 w3 :
  Heap.extends w1 w2 -> Heap.extends w2 w3 -> Heap.extends w1 w3.
Proof.
  intros (Hs & (mo & Ho) & (ma & Ha) & Hd & Hc & He)
         (Hs' & (mo' & Ho') & (ma' & Ha') & Hd' & Hc' & He').
  repeat split; try congruence.
  - exists (mo ++ mo')%list. now rewrite Ho', Ho, app_assoc.
  - exists (ma ++ ma')%list. now rewrite Ha', Ha, app_assoc.
Qed.

Lemma nth_error_prefix {A : Type} (l more : list A) (n : nat) (x : A) :
  nth_error l n = Some x -> nth_error (l ++ more) n = Some x.
Proof.
  intros H. rewrite nth_error_app1; [exact H|].
  apply nth_error_Some. congruence.
Qed.

Lemma nth_error_next {A : Type} (l more : list A) (x : A) :
  nth_error (l ++ x :: more) (List.length l) = Some x.
Proof. rewrite nth_error_app2, Nat.sub_diag; [reflexivity|lia]. Qed.

Lemma replace_next {A : Type} (l more : list A) (x y : A) :
  Heap.replace (List.length l) y (l ++ x :: more) = (l ++ y :: more)%list.
Proof. induction l as [|z l IH]; cbn; [reflexivity|now rewrite IH]. Qed.

Lemma recordAt_extends w w' r item :
  Heap.extends w w' ->
  Heap.recordAt w r = Some item -> Heap.recordAt w' r = Some item.
Proof.
  intros (Hs & (mo & Ho) & _). unfold Heap.recordAt. rewrite Hs, Ho.
  destruct (nth_error (Heap.objects w) r) as [o|] eqn:E; [|discriminate].
  now rewrite (nth_error_prefix _ mo _ _ E).
Qed.

Lemma scoredAt_extends w w' r scored :
  Heap.extends w w' ->
  Heap.scoredAt w r = Some scored -> Heap.scoredAt w' r = Some scored.
Proof.
  intros Hx. unfold Heap.scoredAt.
  destruct (Heap.recordAt w r) as [item|] eqn:Er; [|discriminate].
  rewrite (recordAt_extends _ _ _ _ Hx Er).
  destruct Hx as (_ & (mo & Ho) & _). rewrite Ho.
  destruct (nth_error (Heap.objects w) r) as [o|] eqn:E; [|discriminate].
  now rewrite (nth_error_prefix _ mo _ _ E).
Qed.

Lemma all_impl {A B : Type} (f g : A -> option B) (l : list A)
      (out : list B) :
  (forall x y, f x = Some y -> g x = Some y) ->
  Heap.all f l = Some out -> Heap.all g l = Some out.
Proof.
  intros H. revert out. induction l as [|x l IH]; intros out; cbn.
  - trivial.
  - destruct (f x) as [y|] eqn:E; [|discriminate].
    destruct (Heap.all f l) as [ys|]; [|discriminate].
    intros [= <-]. now rewrite (H _ _ E), (IH ys eq_refl).
Qed.

Lemma all_firstn {A B : Type} (f : A -> option B) (n : nat) (l : list A)
      (out : list B) :
  Heap.all f l = Some out ->
  Heap.all f (firstn n l) = Some (firstn n out).
Proof.
  revert n out. induction l as [|x l IH]; intros [|n] out; cbn;
    try (now intros [= <-]).
  - reflexivity.
  - destruct (f x) as [y|]; [|discriminate].
    destruct (Heap.all f l) as [ys|]; [|discriminate].
    intros [= <-]. cbn. now rewrite (IH n ys eq_refl).
Qed.

Lemma catalogOf_extends w w' catalog :
  Heap.extends w w' ->
  Heap.catalogOf w = Some catalog -> Heap.catalogOf w' = Some catalog.
Proof.
  intros Hx. unfold Heap.catalogOf.
  destruct Hx as (Hs & Ho & (ma & Ha) & Hd & Hrest) eqn:E. rewrite Hd, Ha.
  destruct (nth_error (Heap.arrays w) (Heap.searchData w)) as [elems|] eqn:En;
    [|discriminate].
  rewrite (nth_error_prefix _ ma _ _ En).
  apply all_impl. intros x y. now apply recordAt_extends.
Qed.

Lemma resultOf_extends w w' a results :
  Heap.extends w w' ->
  Heap.resultOf w a = Some results -> Heap.resultOf w' a = Some results.
Proof.
  intros Hx. unfold Heap.resultOf.
  destruct Hx as (Hs & Ho & (ma & Ha) & Hrest) eqn:E. rewrite Ha.
  destruct (nth_error (Heap.arrays w) a) as [elems|] eqn:En; [|discriminate].
  rewrite (nth_error_prefix _ ma _ _ En).
  apply all_impl. intros x y. now apply scoredAt_extends.
Qed.

(** The callback of [map] creates the object that [scoreItem] describes,
    and touches nothing else. *)
Lemma scoreItem_run (terms : list string) w r item :
  Heap.recordAt w r = Some item ->
  exists o,
    Heap.scoreItem terms r w
    = Some (List.length (Heap.objects w),
            Heap.mkWorld (Heap.strings w) (Heap.objects w ++ [o])
                         (Heap.arrays w) (Heap.searchData w) (Heap.clock w)
                         (Heap.entropy w))
    /\ forall w',
         Heap.strings w' = Heap.strings w ->
         (exists more, Heap.objects w' = (Heap.objects w ++ o :: more)%list) ->
         Heap.scoredAt w' (List.length (Heap.objects w))
         = Some (SearchHandler.scoreItem terms item).
Proof.
  unfold Heap.recordAt, Heap.scoreItem, Heap.bind, Heap.object,
    Heap.stringArray, Heap.newObject.
  destruct (nth_error (Heap.objects w) r) as [o|]; [|discriminate].
  destruct (nth_error (Heap.strings w) (Heap.keywords o)) as [words|] eqn:Ew;
    [|discriminate].
  intros [= <-]. eexists. split; [reflexivity|].
  intros w' Hs (more & Ho). unfold Heap.scoredAt, Heap.recordAt.
  rewrite Ho, Hs, nth_error_next. cbn. now rewrite Ew.
Qed.

Lemma mapM_scoreItem (terms : list string) (elems : list nat) :
  forall w catalog,
    Heap.all (Heap.recordAt w) elems = Some catalog ->
    exists refs more,
      Heap.mapM (Heap.scoreItem terms) elems w
      = Some (refs,
              Heap.mkWorld (Heap.strings w) (Heap.objects w ++ more)
                           (Heap.arrays w) (Heap.searchData w) (Heap.clock w)
                           (Heap.entropy w))
      /\ forall w',
           Heap.strings w' = Heap.strings w ->
           Heap.objects w' = (Heap.objects w ++ more)%list ->
           Heap.all (Heap.scoredAt w') refs
           = Some (List.map (SearchHandler.scoreItem terms) catalog).
Proof.
  induction elems as [|r elems IH]; intros w catalog; cbn.
  - intros [= <-]. exists [], []. rewrite app_nil_r.
    split; [now destruct w|]. reflexivity.
  - destruct (Heap.recordAt w r) as [item|] eqn:Er; [|discriminate].
    destruct (Heap.all (Heap.recordAt w) elems) as [items|] eqn:Ea;
      [|discriminate].
    intros [= <-].
    destruct (scoreItem_run terms w r item Er) as (o & Hrun & Hat).
    unfold Heap.bind at 1. rewrite Hrun.
    set (w1 := Heap.mkWorld _ _ _ _ _ _).
    assert (Hx : Heap.extends w w1).
    { repeat split; try reflexivity; [now exists [o]|].
      exists []. cbn. now rewrite app_nil_r. }
    destruct (IH w1 items) as (refs & more & Hmap & Hall).
    { revert Ea. apply all_impl. intros x y. now apply recordAt_extends. }
    unfold Heap.bind at 1. rewrite Hmap. cbn.
    exists (List.length (Heap.objects w) :: refs), (o :: more).
    split.
    + unfold Heap.ret. now rewrite <- app_assoc.
    + intros w' Hs Ho. cbn.
      rewrite (Hat w' Hs (ex_intro _ more Ho)).
      rewrite (Hall w'); [reflexivity|exact Hs|].
      rewrite Ho. cbn. now rewrite <- app_assoc.
Qed.

Lemma positive_run w r scored :
  Heap.scoredAt w r = Some scored ->
  Heap.positive r w = Some (SearchHandler.score scored >? 0, w).
Proof.
  unfold Heap.scoredAt, Heap.positive, Heap.bind, Heap.object, Heap.ret.
  destruct (Heap.recordAt w r); [|discriminate].
  destruct (nth_error (Heap.objects w) r) as [o|]; [|discriminate].
  destruct (Heap.score o) as [z|]; [|discriminate]. now intros [= <-].
Qed.

Lemma filterM_positive (refs : list nat) :
  forall w scored,
    Heap.all (Heap.scoredAt w) refs = Some scored ->
    exists kept,
      Heap.filterM Heap.positive refs w = Some (kept, w)
      /\ Heap.all (Heap.scoredAt w) kept
         = Some (List.filter (fun i => SearchHandler.score i >? 0) scored).
Proof.
  induction refs as [|r refs IH]; intros w scored; cbn.
  - intros [= <-]. now exists [].
  - destruct (Heap.scoredAt w r) as [s|] eqn:Es; [|discriminate].
    destruct (Heap.all (Heap.scoredAt w) refs) as [ss|] eqn:Ea;
      [|discriminate].
    intros [= <-]. destruct (IH w ss Ea) as (kept & Hf & Hk).
    unfold Heap.bind at 1. rewrite (positive_run w r s Es).
    unfold Heap.bind at 1. rewrite Hf. unfold Heap.ret. cbn.
    destruct (SearchHandler.score s >? 0); eexists; (split; [reflexivity|]).
    + cbn. now rewrite Es, Hk.
    + exact Hk.
Qed.

Lemma compare_scoredAt w a b a' b' :
  Heap.scoredAt w a = Some a' -> Heap.scoredAt w b = Some b' ->
  Heap.compare w a b = SearchHandler.score b' - SearchHandler.score a'.
Proof.
  unfold Heap.scoredAt, Heap.compare.
  destruct (Heap.recordAt w a); [|discriminate].
  destruct (nth_error (Heap.objects w) a) as [oa|]; [|discriminate].
  destruct (Heap.score oa); [|discriminate]. intros [= <-].
  destruct (Heap.recordAt w b); [|discriminate].
  destruct (nth_error (Heap.objects w) b) as [ob|]; [|discriminate].
  destruct (Heap.score ob); [|discriminate]. now intros [= <-].
Qed.

Lemma all_sort w (refs : list nat) :
  forall scored,
    Heap.all (Heap.scoredAt w) refs = Some scored ->
    Heap.all (Heap.scoredAt w) (JS.sort (Heap.compare w) refs)
    = Some (JS.sort
              (fun a b => SearchHandler.score b - SearchHandler.score a)
              scored).
Proof.
  assert (Hins : forall r s l ls,
             Heap.scoredAt w r = Some s ->
             Heap.all (Heap.scoredAt w) l = Some ls ->
             Heap.all (Heap.scoredAt w) (JS.insertSorted (Heap.compare w) r l)
             = Some (JS.insertSorted
                       (fun a b => SearchHandler.score b - SearchHandler.score a)
                       s ls)).
  { intros r s l. induction l as [|y l IH]; intros ls Hr; cbn.
    - intros [= <-]. cbn. now rewrite Hr.
    - destruct (Heap.scoredAt w y) as [sy|] eqn:Ey; [|discriminate].
      destruct (Heap.all (Heap.scoredAt w) l) as [ls'|] eqn:El;
        [|discriminate].
      intros [= <-]. cbn. rewrite (compare_scoredAt w r y s sy Hr Ey).
      destruct (_ <=? 0); cbn.
      + now rewrite Hr, Ey, El.
      + now rewrite Ey, (IH ls' Hr eq_refl). }
  induction refs as [|r refs IH]; intros scored; cbn.
  - now intros [= <-].
  - destruct (Heap.scoredAt w r) as [s|] eqn:Es; [|discriminate].
    destruct (Heap.all (Heap.scoredAt w) refs) as [ss|] eqn:Ea;
      [|discriminate].
    intros [= <-]. cbn. apply Hins; [exact Es|]. now apply IH.
Qed.

(** One evaluation: it returns a new array that stands for the ranking of the
    catalog, and leaves everything that was there as it was. *)
Lemma searchContent_run (query : string) w
      (catalog : list SearchHandler.SearchRecord) (shown : bool) :
  Heap.catalogOf w = Some catalog ->
  exists out w',
    Heap.searchContent query w = Some (out, w')
    /\ Heap.extends w w'
    /\ (List.length (Heap.arrays w) <= out)%nat
    /\ Heap.resultOf w' out
       = Some (SearchHandler.searchContent
                 (SearchHandler.mkHandler catalog shown) query).
Proof.
  intros Hc. unfold Heap.searchContent, SearchHandler.searchContent.
  destruct (List.length (SearchHandler.searchTerms query) =? 0)%nat.
  - unfold Heap.newArray. eexists _, _. split; [reflexivity|].
    split; [|split].
    + repeat split; try reflexivity; cbn; [exists []|now exists [[]]].
      now rewrite app_nil_r.
    + cbn. lia.
    + unfold Heap.resultOf. cbn. now rewrite nth_error_next.
  - unfold Heap.catalogOf in Hc.
    destruct (nth_error (Heap.arrays w) (Heap.searchData w)) as [elems|] eqn:Ed;
      [|discriminate].
    destruct (mapM_scoreItem (SearchHandler.searchTerms query) elems w
                             catalog Hc) as (refs & more & Hmap & Hall).
    set (w1 := Heap.mkWorld (Heap.strings w) (Heap.objects w ++ more)
                 (Heap.arrays w ++ [refs]) (Heap.searchData w) (Heap.clock w)
                 (Heap.entropy w)).
    specialize (Hall w1 eq_refl eq_refl).
    destruct (filterM_positive refs w1 _ Hall) as (kept & Hf & Hk).
    unfold Heap.bind at 1. unfold Heap.getSearchData.
    unfold Heap.bind at 1. unfold Heap.map, Heap.bind at 1, Heap.array at 1.
    rewrite Ed. unfold Heap.bind at 1. rewrite Hmap.
    unfold Heap.newArray at 1. cbn [Heap.arrays Heap.strings Heap.objects
      Heap.searchData Heap.clock Heap.entropy]. fold w1.
    unfold Heap.bind at 1, Heap.filter, Heap.bind at 1, Heap.array at 1.
    replace (nth_error (Heap.arrays w1) (List.length (Heap.arrays w)))
      with (Some refs) by (symmetry; apply nth_error_next).
    unfold Heap.bind at 1. rewrite Hf.
    unfold Heap.newArray at 1.
    set (w2 := Heap.mkWorld (Heap.strings w1) (Heap.objects w1)
                 (Heap.arrays w1 ++ [kept]) (Heap.searchData w1)
                 (Heap.clock w1) (Heap.entropy w1)).
    assert (Hk2 : Heap.all (Heap.scoredAt w2) kept
                  = Some (List.filter (fun i => SearchHandler.score i >? 0)
                            (List.map
                               (SearchHandler.scoreItem
                                  (SearchHandler.searchTerms query)) catalog))).
    { revert Hk. apply all_impl. intros x y. apply scoredAt_extends.
      repeat split; try reflexivity; cbn; [exists []|now exists [kept]].
      now rewrite app_nil_r. }
    apply (all_sort w2) in Hk2.
    set (sorted := JS.sort (Heap.compare w2) kept) in *.
    unfold Heap.bind at 1, Heap.sort, Heap.bind at 1, Heap.array at 1.
    replace (nth_error (Heap.arrays w2) (List.length (Heap.arrays w1)))
      with (Some kept) by (symmetry; apply nth_error_next).
    unfold Heap.bind at 1, Heap.setArray.
    replace (nth_error (Heap.arrays w2) (List.length (Heap.arrays w1)))
      with (Some kept) by (symmetry; apply nth_error_next).
    fold sorted. unfold Heap.ret.
    cbn [Heap.arrays Heap.strings Heap.objects Heap.searchData Heap.clock
         Heap.entropy w2]. rewrite replace_next.
    unfold Heap.slice0, Heap.bind, Heap.array, Heap.newArray.
    cbn [Heap.arrays]. rewrite nth_error_next.
    eexists _, _. split; [reflexivity|]. split; [|split].
    + repeat split; try reflexivity; cbn; [now exists more|].
      exists [refs; sorted; JS.slice0 Config.SEARCH_RESULT_LIMIT sorted].
      now rewrite <- !app_assoc.
    + cbn. rewrite !length_app. cbn. lia.
    + unfold Heap.resultOf. cbn [Heap.arrays].
      rewrite nth_error_next. unfold JS.slice0.
      apply all_firstn. revert Hk2. apply all_impl. intros x y Hxy.
      unfold Heap.scoredAt, Heap.recordAt in *. exact Hxy.
Qed.

Lemma newRecord_run (item : SearchHandler.SearchRecord) w :
  Heap.newRecord item w
  = Some (List.length (Heap.objects w),
          Heap.mkWorld
            (Heap.strings w ++ [SearchHandler.keywords item])
            (Heap.objects w
             ++ [Heap.mkObj (SearchHandler.title item)
                            (SearchHandler.description item)
                            (SearchHandler.category item)
                            (SearchHandler.page item)
                            (List.length (Heap.strings w)) None])
            (Heap.arrays w) (Heap.searchData w) (Heap.clock w)
            (Heap.entropy w)).
Proof. reflexivity. Qed.

Lemma mapM_newRecord (records : list SearchHandler.SearchRecord) :
  forall w,
    exists refs words more,
      Heap.mapM Heap.newRecord records w
      = Some (refs,
              Heap.mkWorld (Heap.strings w ++ words) (Heap.objects w ++ more)
                           (Heap.arrays w) (Heap.searchData w) (Heap.clock w)
                           (Heap.entropy w))
      /\ forall w',
           Heap.strings w' = (Heap.strings w ++ words)%list ->
           Heap.objects w' = (Heap.objects w ++ more)%list ->
           Heap.all (Heap.recordAt w') refs = Some records.
Proof.
  induction records as [|item records IH]; intros w; cbn [Heap.mapM].
  - exists [], [], []. rewrite !app_nil_r. split; [now destruct w|].
    reflexivity.
  - unfold Heap.bind at 1. rewrite newRecord_run. unfold Heap.bind at 1.
    match goal with |- context [Heap.mapM Heap.newRecord records ?w0] =>
      destruct (IH w0) as (refs & words & more & Hmap & Hall) end.
    rewrite Hmap. cbn. unfold Heap.ret.
    eexists _, (SearchHandler.keywords item :: words), (_ :: more).
    split.
    + now rewrite <- !app_assoc.
    + intros w' Hs Ho. cbn. rewrite (Hall w').
      * unfold Heap.recordAt. rewrite Ho, Hs, nth_error_next. cbn.
        rewrite nth_error_next. now destruct item.
      * rewrite Hs. cbn. now rewrite <- app_assoc.
      * rewrite Ho. cbn. now rewrite <- app_assoc.
Qed.

(** After [loadSearchData], in whatever world, the catalog is the one of
    the script, and what was there before is as it was but for
    [this.searchData]. *)
Lemma loadSearchData_catalog w :
  exists w',
    Heap.loadSearchData w = Some (tt, w')
    /\ Heap.catalogOf w' = Some SearchHandler.catalog
    /\ Heap.clock w' = Heap.clock w /\ Heap.entropy w' = Heap.entropy w
    /\ Heap.searchData w' = List.length (Heap.arrays w).
Proof.
  unfold Heap.loadSearchData. unfold Heap.bind at 1.
  destruct (mapM_newRecord SearchHandler.catalog w)
    as (refs & words & more & -> & Hall).
  unfold Heap.bind, Heap.newArray, Heap.setSearchData. cbn [Heap.arrays
    Heap.strings Heap.objects Heap.searchData Heap.clock Heap.entropy].
  eexists. split; [reflexivity|]. split; [|now repeat split].
  unfold Heap.catalogOf. cbn [Heap.arrays Heap.searchData].
  rewrite nth_error_next. now apply Hall.
Qed.
End HeapFacts.

(** C7.  Two evaluations of [searchContent] for the same catalog and the
    same query return the same records with the same scores in the same
    order, whatever else the two worlds hold: the clock, the state of the
    random number generator, other objects and arrays, and the references
    of the catalog itself.  An evaluation creates its objects and arrays and
    sorts one of these; it leaves the catalog and everything else as it was,
    so that the next evaluation, run where the first one ended, returns the
    same sequence in a new array, and the first result still stands. *)
Theorem rank_deterministic (w1 w2 : Heap.World)
        (catalog : list SearchHandler.SearchRecord) (query : string) :
  Heap.catalogOf w1 = Some catalog ->
  Heap.catalogOf w2 = Some catalog ->
  exists out1 after1 out2 after2 again after,
    Heap.searchContent query w1 = Some (out1, after1)
    /\ Heap.searchContent query w2 = Some (out2, after2)
    /\ Heap.searchContent query after1 = Some (again, after)
    /\ (let results :=
          SearchHandler.searchContent
            (SearchHandler.mkHandler catalog false) query in
        Heap.resultOf after1 out1 = Some results
        /\ Heap.resultOf after2 out2 = Some results
        /\ Heap.resultOf after again = Some results
        /\ Heap.resultOf after out1 = Some results)
    /\ Heap.extends w1 after1
    /\ Heap.extends after1 after
    /\ Heap.catalogOf after1 = Some catalog
    /\ again <> out1.
Proof.
  intros H1 H2.
  destruct (searchContent_run query w1 catalog false H1)
    as (out1 & after1 & E1 & X1 & _ & R1).
  destruct (searchContent_run query w2 catalog false H2)
    as (out2 & after2 & E2 & _ & _ & R2).
  assert (H1' := catalogOf_extends _ _ _ X1 H1).
  destruct (searchContent_run query after1 catalog false H1')
    as (again & after & E3 & X3 & Hfresh & R3).
  exists out1, after1, out2, after2, again, after.
  repeat (split; [assumption|]). split; [|split; [|split; [|split]]];
    try assumption.
  - cbv zeta. repeat (split; [assumption|]).
    now apply (resultOf_extends after1).
  - intros ->. unfold Heap.resultOf in R1.
    destruct (nth_error (Heap.arrays after1) out1) eqn:E; [|discriminate].
    assert (out1 < List.length (Heap.arrays after1))%nat
      by (apply nth_error_Some; congruence).
    lia.
Qed.

Lemma rank_deterministic_witness :
  let loaded (w : Heap.World) :=
    match Heap.loadSearchData w with
    | Some (_, w') => w'
    | None => w
    end in
  let w1 := loaded (Heap.initial 0 []) in
  let w2 :=
    loaded (Heap.mkWorld [["spare"]] [] [[]; []] 1 1767225600000
                         [1 # 2; 1 # 3]) in
  exists out1 after1 out2 after2,
    Heap.searchContent "time management" w1 = Some (out1, after1)
    /\ Heap.searchContent "time management" w2 = Some (out2, after2)
    /\ Heap.resultOf after1 out1 = Heap.resultOf after2 out2
    /\ Heap.resultOf after1 out1
       = Some (SearchHandler.searchContent
                 (SearchHandler.mkHandler SearchHandler.catalog false)
                 "time management")
    /\ out1 <> out2.
Proof.
  intros loaded w1 w2.
  assert (H1 : Heap.catalogOf w1 = Some SearchHandler.catalog)
    by (vm_compute; reflexivity).
  assert (H2 : Heap.catalogOf w2 = Some SearchHandler.catalog)
    by (vm_compute; reflexivity).
  destruct (rank_deterministic w1 w2 SearchHandler.catalog "time management"
                               H1 H2)
    as (out1 & after1 & out2 & after2 & again & after & E1 & E2 & _
        & (R1 & R2 & _) & _).
  exists out1, after1, out2, after2.
  split; [exact E1|]. split; [exact E2|]. split; [congruence|].
  split; [exact R1|].
  assert (F1 : fst (match Heap.searchContent "time management" w1 with
                    | Some p => p
                    | None => (0%nat, w1)
                    end) = 4%nat) by (vm_compute; reflexivity).
  assert (F2 : fst (match Heap.searchContent "time management" w2 with
                    | Some p => p
                    | None => (0%nat, w2)
                    end) = 5%nat) by (vm_compute; reflexivity).
  rewrite E1 in F1. rewrite E2 in F2. cbn in F1, F2. lia.
Defined.



(** ** Tokenizer *)

Ltac each_ascii c :=
  destruct c as [[] [] [] [] [] [] [] []].

Lemma toLowerChar_not_upper (c : ascii) : JS.isUpper (JS.toLowerChar c) = false.
Proof. each_ascii c; reflexivity. Qed.

Lemma toLowerChar_whitespace (c : ascii) :
  JS.isWhitespace (JS.toLowerChar c) = JS.isWhitespace c.
Proof. each_ascii c; reflexivity. Qed.

Lemma toLowerChar_fixes_lower (c : ascii) :
  JS.isUpper c = false -> JS.toLowerChar c = c.
Proof. unfold JS.toLowerChar. now intros ->. Qed.

Lemma toLowerCase_length (s : string) :
  String.length (JS.toLowerCase s) = String.length s.
Proof. induction s; simpl; congruence. Qed.

Lemma toLowerCase_noUppercase (s : string) :
  Spec.noUppercase (JS.toLowerCase s).
Proof.
  induction s as [|c s IH]; simpl; constructor; [|exact IH].
  now rewrite toLowerChar_not_upper.
Qed.

Lemma toLowerCase_fixes_lower (s : string) :
  Spec.noUppercase s -> JS.toLowerCase s = s.
Proof.
  induction s as [|c s IH]; simpl; [reflexivity|].
  intros H. inversion H as [|? ? Hc Hs]; subst.
  rewrite IH by exact Hs. rewrite toLowerChar_fixes_lower; [reflexivity|].
  now destruct (JS.isUpper c).
Qed.

Lemma toLowerCase_onlyWhitespace (s : string) :
  Spec.onlyWhitespace s -> Spec.onlyWhitespace (JS.toLowerCase s).
Proof.
  induction s as [|c s IH]; simpl; [constructor|].
  intros H. inversion H; subst. constructor; [|now apply IH].
  now rewrite toLowerChar_whitespace.
Qed.

Lemma splitFrom_not_nil (b : bool) (s : string) : JS.splitFrom b s <> [].
Proof.
  revert b. induction s as [|c s IH]; intros b; simpl; [discriminate|].
  destruct (JS.isWhitespace c).
  - destruct b; [apply IH|discriminate].
  - destruct (JS.splitFrom false s); discriminate.
Qed.

(** The characters of a piece are characters of the subject, none of them
    whitespace. *)
Lemma splitFrom_chars (b : bool) (s piece : string) (c : ascii) :
  In piece (JS.splitFrom b s) -> In c (list_ascii_of_string piece) ->
  In c (list_ascii_of_string s) /\ JS.isWhitespace c = false.
Proof.
  revert b piece. induction s as [|d s IH]; intros b piece; simpl.
  - intros [<-|[]] [].
  - destruct (JS.isWhitespace d) eqn:Hd.
    + assert (Hrec : In piece (JS.splitFrom true s) ->
                     In c (list_ascii_of_string piece) ->
                     (d = c \/ In c (list_ascii_of_string s))
                     /\ JS.isWhitespace c = false).
      { intros Hp Hc. destruct (IH _ _ Hp Hc). auto. }
      destruct b; [exact Hrec|].
      intros [<-|Hp]; [intros []|now apply Hrec].
    + pose proof (IH false) as IHf.
      destruct (JS.splitFrom false s) as [|p rest].
      * intros [<-|[]] [<-|[]]. auto.
      * intros [<-|Hp] Hc.
        -- destruct Hc as [<-|Hc]; [auto|].
           destruct (IHf p (or_introl eq_refl) Hc). auto.
        -- destruct (IHf piece (or_intror Hp) Hc). auto.
Qed.

Lemma splitFrom_onlyWhitespace (b : bool) (s : string) :
  Spec.onlyWhitespace s ->
  Forall (fun piece => piece = EmptyString) (JS.splitFrom b s).
Proof.
  revert b. induction s as [|c s IH]; intros b H; simpl.
  - now constructor.
  - inversion H as [|? ? Hc Hs]; subst. rewrite Hc.
    destruct b; [now apply IH|]. constructor; [reflexivity|now apply IH].
Qed.

Lemma weave_cons_char (c : ascii) (p : string) (rest seps : list string) :
  Spec.weave (String c p :: rest) seps
  = String c (Spec.weave (p :: rest) seps).
Proof. destruct seps; reflexivity. Qed.

(** [splitFrom] cuts at the maximal runs of whitespace: its pieces, woven
    with the runs, give the subject back. *)
Lemma splitFrom_weave (b : bool) (s : string) :
  exists lead seps,
    s = lead ++ Spec.weave (JS.splitFrom b s) seps
    /\ Spec.onlyWhitespace lead
    /\ (b = false -> lead = EmptyString)
    /\ List.length (JS.splitFrom b s) = S (List.length seps)
    /\ Forall Spec.separator seps
    /\ Forall Spec.noWhitespace (JS.splitFrom b s)
    /\ Spec.innerNonEmpty
         (if b then JS.splitFrom b s else tl (JS.splitFrom b s)).
Proof.
  revert b. induction s as [|c s IH]; intros b.
  - exists EmptyString, []. simpl.
    repeat split; try constructor; try constructor.
    now destruct b.
  - simpl. destruct (JS.isWhitespace c) eqn:Hc.
    + destruct (IH true)
        as (lead & seps & E & Hlead & _ & Hlen & Hseps & Hno & Hin).
      destruct b.
      * exists (String c lead), seps. simpl.
        repeat split; trivial; try discriminate.
        -- now rewrite <- E.
        -- now constructor.
      * exists EmptyString, (String c lead :: seps).
        pose proof (splitFrom_not_nil true s) as Hnn.
        simpl. repeat split; trivial.
        -- destruct (JS.splitFrom true s); [congruence|].
           simpl. now rewrite E at 1.
        -- constructor.
        -- now rewrite Hlen.
        -- constructor; [|exact Hseps]. split; [discriminate|].
           now constructor.
        -- constructor; [constructor|exact Hno].
    + destruct (IH false)
        as (lead & seps & E & _ & Hl & Hlen & Hseps & Hno & Hin).
      rewrite (Hl eq_refl) in E.
      change (s = Spec.weave (JS.splitFrom false s) seps) in E.
      destruct (JS.splitFrom false s) as [|p rest]; [discriminate|].
      exists EmptyString, seps. rewrite weave_cons_char.
      change (EmptyString ++ ?x) with x.
      repeat split; trivial.
      * now rewrite <- E.
      * constructor.
      * inversion Hno; subst. constructor; [|assumption].
        constructor; [now rewrite Hc|assumption].
      * simpl in Hin. destruct b; [|exact Hin].
        destruct rest; [exact I|]. split; [discriminate|exact Hin].
Qed.

Lemma searchTerms_In (query term : string) :
  In term (searchTerms query) <->
  In term (JS.splitWhitespace (JS.toLowerCase query))
  /\ (2 <= String.length term)%nat.
Proof.
  unfold searchTerms. rewrite filter_In.
  destruct (Nat.ltb_spec 1 (String.length term)); intuition (lia || congruence).
Qed.

Lemma searchTerms_onlyWhitespace (query : string) :
  Spec.onlyWhitespace query -> searchTerms query = [].
Proof.
  intros H. apply toLowerCase_onlyWhitespace in H.
  apply (splitFrom_onlyWhitespace false) in H.
  unfold searchTerms, JS.splitWhitespace.
  induction H as [|p l -> _ IH]; simpl; [reflexivity|exact IH].
Qed.

Lemma searchTerms_nil_iff (query : string) :
  searchTerms query = [] <->
  forall piece, In piece (JS.splitWhitespace (JS.toLowerCase query)) ->
                (String.length piece <= 1)%nat.
Proof.
  split.
  - intros H piece Hp.
    destruct (Nat.leb_spec (String.length piece) 1) as [|Hgt]; [trivial|].
    assert (Hin : In piece (searchTerms query))
      by (apply searchTerms_In; split; [exact Hp|lia]).
    rewrite H in Hin. destruct Hin.
  - intros H. destruct (searchTerms query) as [|term l] eqn:E; [reflexivity|].
    assert (Hin : In term (searchTerms query)) by (rewrite E; now left).
    apply searchTerms_In in Hin as [Hp Hlen]. apply H in Hp. lia.
Qed.

(** On strings of code units up to U+00FF: the terms of a query are the
    pieces of the lowercased query between its runs of whitespace that are
    longer than one character; an empty or whitespace-only query has no
    term; every term has at least two characters, no uppercase letter and no
    whitespace. *)
Lemma searchTerms_pieces (query : string) :
  let lowered := JS.toLowerCase query in
  let pieces := JS.splitWhitespace lowered in
  (String.length lowered = String.length query
   /\ Spec.noUppercase lowered
   /\ (Spec.noUppercase query -> lowered = query))
  /\ (exists seps,
        lowered = Spec.weave pieces seps
        /\ List.length pieces = S (List.length seps)
        /\ Forall Spec.separator seps
        /\ Forall Spec.noWhitespace pieces
        /\ Spec.innerNonEmpty (tl pieces))
  /\ searchTerms query
     = filter (fun piece => (1 <? String.length piece)%nat) pieces
  /\ (Spec.onlyWhitespace query -> searchTerms query = [])
  /\ forall term,
       In term (searchTerms query) ->
       (2 <= String.length term)%nat
       /\ Spec.noUppercase term /\ Spec.noWhitespace term.
Proof.
  intros lowered pieces. split; [|split; [|split; [|split]]].
  - split; [apply toLowerCase_length|].
    split; [apply toLowerCase_noUppercase|apply toLowerCase_fixes_lower].
  - destruct (splitFrom_weave false lowered)
      as (lead & seps & E & _ & Hl & Hlen & Hseps & Hno & Hin).
    rewrite (Hl eq_refl) in E. exists seps. now repeat split.
  - reflexivity.
  - apply searchTerms_onlyWhitespace.
  - intros term H. apply searchTerms_In in H as [Hp Hlen].
    split; [exact Hlen|]. split; apply Forall_forall; intros c Hc.
    + destruct (splitFrom_chars _ _ _ _ Hp Hc) as [Hin _].
      pose proof (toLowerCase_noUppercase query) as Hlow.
      unfold Spec.noUppercase, Spec.allChars in Hlow.
      rewrite Forall_forall in Hlow. now apply Hlow.
    + destruct (splitFrom_chars _ _ _ _ Hp Hc) as [_ ->]. reflexivity.
Qed.
(** ** Tokenizer, for every string *)

Section Utf16Facts.
Import Utf16.

Lemma splitFrom16_not_nil (b : bool) (s : list N) : splitFrom b s <> [].
Proof.
  revert b. induction s as [|c s IH]; intros b; cbn; [discriminate|].
  destruct (isWhitespace c).
  - destruct b; [apply IH|discriminate].
  - destruct (splitFrom false s); discriminate.
Qed.

(** The code units of a piece are code units of the subject, none of them
    whitespace. *)
Lemma splitFrom16_chars (b : bool) (s piece : list N) (c : N) :
  In piece (splitFrom b s) -> In c piece ->
  In c s /\ isWhitespace c = false.
Proof.
  revert b piece. induction s as [|d s IH]; intros b piece; cbn.
  - intros [<-|[]] [].
  - destruct (isWhitespace d) eqn:Hd.
    + assert (Hrec : In piece (splitFrom true s) -> In c piece ->
                     (d = c \/ In c s) /\ isWhitespace c = false).
      { intros Hp Hc. destruct (IH _ _ Hp Hc). auto. }
      destruct b; [exact Hrec|].
      intros [<-|Hp]; [intros []|now apply Hrec].
    + pose proof (IH false) as IHf.
      destruct (splitFrom false s) as [|p rest].
      * intros [<-|[]] [<-|[]]. auto.
      * intros [<-|Hp] Hc.
        -- destruct Hc as [<-|Hc]; [auto|].
           destruct (IHf p (or_introl eq_refl) Hc). auto.
        -- destruct (IHf piece (or_intror Hp) Hc). auto.
Qed.

Lemma splitFrom16_onlyWhitespace (b : bool) (s : list N) :
  onlyWhitespace s -> Forall (fun piece => piece = []) (splitFrom b s).
Proof.
  revert b. induction s as [|c s IH]; intros b H; cbn.
  - now constructor.
  - inversion H as [|? ? Hc Hs]; subst. rewrite Hc.
    destruct b; [now apply IH|]. constructor; [reflexivity|now apply IH].
Qed.

Lemma weave16_cons (c : N) (p : list N) (rest seps : list (list N)) :
  weave ((c :: p) :: rest) seps = c :: weave (p :: rest) seps.
Proof. destruct seps; reflexivity. Qed.

(** [splitFrom] cuts at the maximal runs of whitespace: its pieces, woven
    with the runs, give the subject back. *)
Lemma splitFrom16_weave (b : bool) (s : list N) :
  exists lead seps,
    s = (lead ++ weave (splitFrom b s) seps)%list
    /\ onlyWhitespace lead
    /\ (b = false -> lead = [])
    /\ List.length (splitFrom b s) = S (List.length seps)
    /\ Forall separator seps
    /\ Forall noWhitespace (splitFrom b s)
    /\ innerNonEmpty (if b then splitFrom b s else tl (splitFrom b s)).
Proof.
  revert b. induction s as [|c s IH]; intros b.
  - exists [], []. cbn.
    repeat split; try constructor; try constructor.
    now destruct b.
  - cbn [splitFrom]. destruct (isWhitespace c) eqn:Hc.
    + destruct (IH true)
        as (lead & seps & E & Hlead & _ & Hlen & Hseps & Hno & Hin).
      destruct b.
      * exists (c :: lead), seps. cbn.
        repeat split; trivial; try discriminate.
        -- now rewrite <- E.
        -- now constructor.
      * exists [], ((c :: lead) :: seps).
        pose proof (splitFrom16_not_nil true s) as Hnn.
        cbn. repeat split; trivial.
        -- destruct (splitFrom true s); [congruence|].
           cbn. now rewrite E at 1.
        -- constructor.
        -- now rewrite Hlen.
        -- constructor; [|exact Hseps]. split; [discriminate|].
           now constructor.
        -- constructor; [constructor|exact Hno].
    + destruct (IH false)
        as (lead & seps & E & _ & Hl & Hlen & Hseps & Hno & Hin).
      rewrite (Hl eq_refl) in E. cbn [app] in E.
      destruct (splitFrom false s) as [|p rest]; [discriminate|].
      exists [], seps. rewrite weave16_cons. cbn [app].
      repeat split; trivial.
      * now rewrite <- E.
      * constructor.
      * inversion Hno; subst. constructor; [|assumption].
        constructor; [exact Hc|assumption].
      * cbn in Hin. destruct b; [|exact Hin].
        destruct rest; [exact I|]. split; [discriminate|exact Hin].
Qed.

Lemma isWhitespace_cases (c : N) :
  isWhitespace c = true <->
  In c [9; 10; 11; 12; 13; 32; 160; 5760; 8192; 8193; 8194; 8195; 8196;
        8197; 8198; 8199; 8200; 8201; 8202; 8232; 8233; 8239; 8287; 12288;
        65279]%N.
Proof.
  unfold isWhitespace. cbn [In].
  rewrite !orb_true_iff, !andb_true_iff, !N.leb_le, !N.eqb_eq. lia.
Qed.

Lemma isUpperLatin1_cases (c : N) :
  isUpperLatin1 c = true <->
  (65 <= c <= 90 \/ (192 <= c <= 222 /\ c <> 215))%N.
Proof.
  unfold isUpperLatin1.
  rewrite !orb_true_iff, !andb_true_iff, negb_true_iff, !N.leb_le,
    N.eqb_neq. lia.
Qed.

(** The model of U+0000..U+00FF is this one on Latin-1 strings. *)
Lemma code_bound (c : ascii) : (JS.code c <= 255)%N.
Proof. destruct c as [[] [] [] [] [] [] [] []]; vm_compute; discriminate. Qed.

Lemma isWhitespace_code (c : ascii) :
  isWhitespace (JS.code c) = JS.isWhitespace c.
Proof. destruct c as [[] [] [] [] [] [] [] []]; reflexivity. Qed.

Lemma lowerLatin1_code (c : ascii) :
  lowerLatin1 (JS.code c) = JS.code (JS.toLowerChar c).
Proof. destruct c as [[] [] [] [] [] [] [] []]; reflexivity. Qed.

Lemma units_toLowerCase (s : string) :
  map lowerLatin1 (units s) = units (JS.toLowerCase s).
Proof.
  unfold units. induction s as [|c s IH]; cbn; [reflexivity|].
  now rewrite lowerLatin1_code, IH.
Qed.

Lemma units_length (s : string) : List.length (units s) = String.length s.
Proof.
  unfold units. rewrite length_map.
  induction s as [|c s IH]; cbn; congruence.
Qed.

Lemma splitFrom_units (b : bool) (s : string) :
  splitFrom b (units s) = map units (JS.splitFrom b s).
Proof.
  revert b. induction s as [|c s IH]; intros b; [reflexivity|].
  change (units (String c s)) with (JS.code c :: units s).
  cbn [splitFrom JS.splitFrom]. rewrite isWhitespace_code.
  destruct (JS.isWhitespace c).
  - destruct b; rewrite IH; reflexivity.
  - rewrite IH. destruct (JS.splitFrom false s); reflexivity.
Qed.

Lemma searchTerms_units (toLowerCase : list N -> list N) (q : string) :
  Lowercase toLowerCase ->
  searchTerms toLowerCase (units q)
  = map units (SearchHandler.searchTerms q).
Proof.
  intros L. unfold searchTerms, SearchHandler.searchTerms, splitWhitespace,
    JS.splitWhitespace.
  rewrite (lower_latin1 _ L).
  - rewrite units_toLowerCase, splitFrom_units.
    induction (JS.splitFrom false (JS.toLowerCase q)) as [|p l IH];
      [reflexivity|].
    cbn [map filter]. rewrite units_length, IH.
    now destruct (1 <? String.length p)%nat.
  - unfold units. apply Forall_forall. intros c Hc.
    apply in_map_iff in Hc as (a & <- & _). apply code_bound.
Qed.

(** The character-wise lowercase mapping of U+0000..U+00FF, which leaves
    every other code unit alone, is one such function. *)
Lemma lowerLatin1_Lowercase : Lowercase (map lowerLatin1).
Proof.
  assert (Hidem : forall c, lowerLatin1 (lowerLatin1 c) = lowerLatin1 c).
  { intros c. unfold lowerLatin1.
    destruct (isUpperLatin1 c) eqn:E; [|now rewrite E].
    apply isUpperLatin1_cases in E.
    destruct (isUpperLatin1 (c + 32)) eqn:E'; [|reflexivity].
    apply isUpperLatin1_cases in E'. lia. }
  constructor.
  - reflexivity.
  - intros s c Hc. apply in_map_iff in Hc as (x & <- & _). cbn.
    now rewrite Hidem.
  - intros s H. induction H as [|c s Hc _ IH]; cbn; [reflexivity|].
    rewrite IH. unfold lowerLatin1.
    destruct (isUpperLatin1 c) eqn:E; [|reflexivity].
    apply isUpperLatin1_cases in E. apply isWhitespace_cases in Hc.
    cbn [In] in Hc. lia.
Qed.
End Utf16Facts.

(** C6.  For every query, a string of UTF-16 code units: the terms are the
    pieces of the lowercased query between its maximal runs of whitespace
    that are longer than one code unit; an empty or whitespace-only query has
    no term; every term has at least two code units, none of them
    whitespace, none of them one that lowercasing would change, and none of
    them one of the capital letters A-Z or U+00C0..U+00DE.  Whitespace is
    what [\s] matches, 25 code units.  On queries of code units up to U+00FF
    the terms are those of [SearchHandler.searchTerms]. *)
Theorem tokenizer_terms (toLowerCase : list N -> list N) (query : list N) :
  Utf16.Lowercase toLowerCase ->
  let lowered := toLowerCase query in
  let pieces := Utf16.splitWhitespace lowered in
  (exists seps,
      lowered = Utf16.weave pieces seps
      /\ List.length pieces = S (List.length seps)
      /\ Forall Utf16.separator seps
      /\ Forall Utf16.noWhitespace pieces
      /\ Utf16.innerNonEmpty (tl pieces))
  /\ Utf16.searchTerms toLowerCase query
     = filter (fun piece => (1 <? List.length piece)%nat) pieces
  /\ (Utf16.onlyWhitespace query -> Utf16.searchTerms toLowerCase query = [])
  /\ (forall term,
        In term (Utf16.searchTerms toLowerCase query) ->
        In term pieces
        /\ (2 <= List.length term)%nat
        /\ Forall (fun c =>
                     Utf16.isWhitespace c = false
                     /\ toLowerCase [c] = [c]
                     /\ Utf16.isUpperLatin1 c = false
                     /\ In c lowered)
                  term)
  /\ (forall c,
        Utf16.isWhitespace c = true <->
        In c [9; 10; 11; 12; 13; 32; 160; 5760; 8192; 8193; 8194; 8195;
              8196; 8197; 8198; 8199; 8200; 8201; 8202; 8232; 8233; 8239;
              8287; 12288; 65279]%N)
  /\ (forall c,
        Utf16.isUpperLatin1 c = true <->
        (65 <= c <= 90 \/ (192 <= c <= 222 /\ c <> 215))%N)
  /\ forall q : string,
       Utf16.searchTerms toLowerCase (Utf16.units q)
       = map Utf16.units (SearchHandler.searchTerms q).
Proof.
  intros L lowered pieces.
  assert (Hterm : forall term,
             In term (Utf16.searchTerms toLowerCase query) ->
             In term pieces /\ (2 <= List.length term)%nat).
  { intros term H. unfold Utf16.searchTerms in H.
    apply filter_In in H as [Hp Hlen]. split; [exact Hp|].
    apply Nat.ltb_lt in Hlen. lia. }
  split; [|split; [|split; [|split; [|split; [|split]]]]].
  - destruct (splitFrom16_weave false lowered)
      as (lead & seps & E & _ & Hl & Hlen & Hseps & Hno & Hin).
    rewrite (Hl eq_refl) in E. exists seps. now repeat split.
  - reflexivity.
  - intros H. unfold Utf16.searchTerms.
    rewrite (Utf16.lower_whitespace _ L query H).
    apply (splitFrom16_onlyWhitespace false) in H.
    unfold Utf16.splitWhitespace.
    induction H as [|p l -> _ IH]; cbn; [reflexivity|exact IH].
  - intros term H. destruct (Hterm term H) as [Hp Hlen].
    split; [exact Hp|]. split; [exact Hlen|].
    apply Forall_forall. intros c Hc.
    destruct (splitFrom16_chars _ _ _ _ Hp Hc) as [Hin Hws].
    assert (Hst := Utf16.lower_stable _ L query c Hin).
    split; [exact Hws|]. split; [exact Hst|]. split; [|exact Hin].
    destruct (Utf16.isUpperLatin1 c) eqn:E; [|reflexivity].
    assert (Hb : (c <= 255)%N) by (apply isUpperLatin1_cases in E; lia).
    rewrite (Utf16.lower_latin1 _ L [c]) in Hst by (now repeat constructor).
    cbn in Hst. unfold Utf16.lowerLatin1 in Hst. rewrite E in Hst.
    injection Hst as Hst. lia.
  - apply isWhitespace_cases.
  - apply isUpperLatin1_cases.
  - intros q. now apply searchTerms_units.
Qed.

Lemma tokenizer_terms_witness :
  let query := [32; 84; 105; 77; 101; 8195; 97; 65279; 77; 65; 78; 65; 71;
                69; 12288]%N in
  Utf16.searchTerms (map Utf16.lowerLatin1) query
  = [[116; 105; 109; 101]; [109; 97; 110; 97; 103; 101]]%N
  /\ Utf16.searchTerms (map Utf16.lowerLatin1) query
     = filter (fun piece => (1 <? List.length piece)%nat)
              (Utf16.splitWhitespace (map Utf16.lowerLatin1 query)).
Proof.
  intros query. split; [reflexivity|].
  exact (proj1 (proj2 (tokenizer_terms (map Utf16.lowerLatin1) query
                                       lowerLatin1_Lowercase))).
Defined.


(** ** Preference store *)

Section Preferences.
Import Completion AppState.
Variable env : Browser.

Ltac run :=
  unfold loadPreferences, savePreferences, init, toggleTheme,
    setupSystemThemeListener, applyTheme, announce, storageSet, tryCatch,
    bindM, ofSum, lift, ret, warn, setPreferences, setTheme,
    getPreferences, getTheme; simpl.

(** A load either goes through without warning, or ends in the fallback
    state; it returns in both cases. *)
Lemma loadPreferences_returns (w : World) :
  (exists th prefs,
      loadPreferences env w
      = (Returns tt,
         mkWorld th prefs (warnings w) (written w) (dataTheme w)
                 (darkMode w) (listening w) (announced w))
      /\ exists stored, getProp prefs "theme" = Returns stored)
  \/ exists msg,
      loadPreferences env w = (Returns tt, Spec.afterFailedLoad w msg).
Proof.
  run. destruct (getItem env Config.STORAGE_KEY) as [e|[text|]]; simpl.
  - right. now exists (message e).
  - destruct (String.eqb text EmptyString); simpl.
    + left. eexists _, _. split; [reflexivity|]. now eexists.
    + destruct (JSON_parse env text) as [e|parsed]; simpl.
      * right. now exists (message e).
      * destruct (getProp parsed "theme") as [stored|e|] eqn:E; simpl.
        -- left. eexists _, _. split; [reflexivity|]. now exists stored.
        -- right. now exists (message e).
        -- now destruct parsed.
  - left. eexists _, _. split; [reflexivity|]. now eexists.
Qed.

Lemma loadPreferences_getItem_throws (w : World) (e : Error) :
  getItem env Config.STORAGE_KEY = inl e ->
  loadPreferences env w = (Returns tt, Spec.afterFailedLoad w (message e)).
Proof. intros H. run. now rewrite H. Qed.

Lemma loadPreferences_parse_throws (w : World) (text : string) (e : Error) :
  getItem env Config.STORAGE_KEY = inr (Some text) ->
  text <> EmptyString ->
  JSON_parse env text = inl e ->
  loadPreferences env w = (Returns tt, Spec.afterFailedLoad w (message e)).
Proof.
  intros H Hne Hp. run. rewrite H. simpl.
  destruct (String.eqb_spec text EmptyString); [contradiction|].
  now rewrite Hp.
Qed.

Lemma loadPreferences_null (w : World) (text : string) :
  getItem env Config.STORAGE_KEY = inr (Some text) ->
  text <> EmptyString ->
  JSON_parse env text = inr VNull ->
  exists msg,
    loadPreferences env w = (Returns tt, Spec.afterFailedLoad w msg).
Proof.
  intros H Hne Hp. run. rewrite H. simpl.
  destruct (String.eqb_spec text EmptyString); [contradiction|].
  rewrite Hp. simpl. now eexists.
Qed.

Lemma savePreferences_returns (w : World) :
  exists w',
    savePreferences env w = (Returns tt, w')
    /\ theme w' = theme w /\ dataTheme w' = dataTheme w
    /\ darkMode w' = darkMode w
    /\ ((exists text,
            written w' = (written w ++ [(Config.STORAGE_KEY, text)])%list
            /\ warnings w' = warnings w)
        \/ exists msg, Spec.failedSave w w' msg).
Proof.
  run. unfold Spec.failedSave.
  destruct (setProp (preferences w) "theme" (theme w)) as [prefs'|e|] eqn:E;
    simpl.
  - destruct (JSON_stringify env prefs') as [e|text]; simpl.
    + eexists. split; [reflexivity|]. simpl. repeat split.
      right. now exists (message e).
    + destruct (setItem env Config.STORAGE_KEY text) as [e|]; simpl.
      * eexists. split; [reflexivity|]. simpl. repeat split.
        right. now exists (message e).
      * eexists. split; [reflexivity|]. simpl. repeat split.
        left. now exists text.
  - eexists. split; [reflexivity|]. simpl. repeat split.
    right. now exists (message e).
  - now destruct (preferences w).
Qed.

Lemma savePreferences_setItem_throws (w : World) (e : Error) :
  (forall text, setItem env Config.STORAGE_KEY text = Some e) ->
  exists w',
    savePreferences env w = (Returns tt, w')
    /\ exists msg, Spec.failedSave w w' msg.
Proof.
  intros H. run. unfold Spec.failedSave.
  destruct (setProp (preferences w) "theme" (theme w)) as [prefs'|e'|] eqn:E;
    simpl.
  - destruct (JSON_stringify env prefs') as [e'|text]; simpl.
    + eexists. split; [reflexivity|]. now exists (message e').
    + rewrite H. simpl. eexists. split; [reflexivity|].
      now exists (message e).
  - eexists. split; [reflexivity|]. now exists (message e').
  - now destruct (preferences w).
Qed.

(** [applyTheme] returns exactly when the theme converts to a string. *)
Lemma applyTheme_returns (w : World) (text : string) :
  toString (theme w) = Returns text ->
  applyTheme w
  = (Returns tt,
     mkWorld (theme w) (preferences w) (warnings w) (written w) (Some text)
             (isString "dark" (theme w)) (listening w) (announced w)).
Proof. intros H. unfold applyTheme, bindM, getTheme, lift. now rewrite H. Qed.

Lemma applyTheme_throws (w : World) (e : Error) :
  toString (theme w) = Throws e -> applyTheme w = (Throws e, w).
Proof. intros H. unfold applyTheme, bindM, getTheme, lift. now rewrite H. Qed.

(** After a load the preferences have properties that can be read. *)
Lemma loadPreferences_readable (w : World) :
  exists w1,
    loadPreferences env w = (Returns tt, w1)
    /\ exists stored, getProp (preferences w1) "theme" = Returns stored.
Proof.
  destruct (loadPreferences_returns w)
    as [(th & prefs & -> & stored & Hs)|(msg & ->)];
    eexists; (split; [reflexivity|]); cbn; eauto.
Qed.

Lemma setupSystemThemeListener_returns (w : World) (stored : value) :
  getProp (preferences w) "theme" = Returns stored ->
  exists w',
    setupSystemThemeListener env w = (Returns tt, w')
    /\ theme w' = theme w /\ preferences w' = preferences w
    /\ dataTheme w' = dataTheme w /\ darkMode w' = darkMode w
    /\ warnings w' = warnings w
    /\ (listening w' = true ->
        listening w = true
        \/ (prefersDark env <> None /\ truthy stored = false)).
Proof.
  intros Hs. unfold setupSystemThemeListener.
  destruct (prefersDark env) as [dark|].
  - unfold bindM, getPreferences, lift, ret. rewrite Hs.
    destruct (truthy stored) eqn:Et; eexists; (split; [reflexivity|]);
      cbn; repeat split; auto.
    intros _. right. now split.
  - unfold ret. eexists. split; [reflexivity|]. repeat split; auto.
Qed.

(** [init] returns when the theme that the load leaves converts to a
    string, and throws what the conversion throws otherwise. *)
Lemma init_returns (w : World) (text : string) :
  toString (theme (snd (loadPreferences env w))) = Returns text ->
  exists w',
    init env w = (Returns tt, w')
    /\ Spec.themeApplied w' /\ dataTheme w' = Some text
    /\ theme w' = theme (snd (loadPreferences env w)).
Proof.
  intros Ht. unfold init. unfold bindM at 1.
  destruct (loadPreferences_readable w) as (w1 & H1 & stored & Hs).
  rewrite H1 in *. cbn [snd] in Ht. unfold bindM at 1.
  rewrite (applyTheme_returns w1 text Ht).
  match goal with |- context [setupSystemThemeListener env ?w0] =>
    destruct (setupSystemThemeListener_returns w0 stored Hs)
      as (w' & -> & Hth & _ & Hdt & Hdm & _) end.
  cbn in Hth, Hdt, Hdm. exists w'. split; [reflexivity|].
  unfold Spec.themeApplied. rewrite Hth, Hdt, Hdm.
  split; [|split]; [|reflexivity..]. split; [|reflexivity]. now exists text.
Qed.

Lemma init_throws (w : World) (e : Error) :
  toString (theme (snd (loadPreferences env w))) = Throws e ->
  init env w = (Throws e, snd (loadPreferences env w)).
Proof.
  intros Ht. unfold init. unfold bindM at 1.
  destruct (loadPreferences_readable w) as (w1 & H1 & _).
  rewrite H1 in *. cbn [snd] in *. unfold bindM at 1.
  now rewrite (applyTheme_throws w1 e Ht).
Qed.

Lemma toggleTheme_returns (w : World) :
  exists w', toggleTheme env w = (Returns tt, w') /\ Spec.themeApplied w'.
Proof.
  unfold toggleTheme, getTheme, setTheme, applyTheme, bindM, lift. cbn.
  match goal with |- context [savePreferences env ?w0] =>
    destruct (savePreferences_returns w0)
      as (w' & -> & Hth & Hdt & Hdm & _) end.
  unfold announce. eexists. split; [reflexivity|].
  unfold Spec.themeApplied. cbn in *. rewrite Hth, Hdt, Hdm.
  split; [|reflexivity]. eexists. now split.
Qed.
End Preferences.

(** C9.  [loadPreferences] and [savePreferences] return whatever the store
    does: a failure of [getItem], of [JSON.parse], of a stored [null], of
    [JSON.stringify] or of [setItem] is caught where it arises, adds a warning
    to the console and leaves the state in memory (after a failed load: empty
    preferences and the theme as it was).  So [toggleTheme] returns with the
    theme applied to the page, and [init] does whenever the theme that the
    load leaves converts to a string: in particular after every failed load,
    the theme being a string as the script sets it. *)
Theorem preference_failures_never_propagate (env : AppState.Browser)
        (w : AppState.World) :
  ((exists th prefs,
       AppState.loadPreferences env w
       = (Completion.Returns tt,
          AppState.mkWorld th prefs (AppState.warnings w)
            (AppState.written w) (AppState.dataTheme w)
            (AppState.darkMode w) (AppState.listening w)
            (AppState.announced w)))
   \/ exists msg,
       AppState.loadPreferences env w
       = (Completion.Returns tt, Spec.afterFailedLoad w msg))
  /\ (forall e,
        AppState.getItem env Config.STORAGE_KEY = inl e ->
        AppState.loadPreferences env w
        = (Completion.Returns tt,
           Spec.afterFailedLoad w (Completion.message e)))
  /\ (forall text e,
        AppState.getItem env Config.STORAGE_KEY = inr (Some text) ->
        text <> EmptyString ->
        AppState.JSON_parse env text = inl e ->
        AppState.loadPreferences env w
        = (Completion.Returns tt,
           Spec.afterFailedLoad w (Completion.message e)))
  /\ (forall text,
        AppState.getItem env Config.STORAGE_KEY = inr (Some text) ->
        text <> EmptyString ->
        AppState.JSON_parse env text = inr AppState.VNull ->
        exists msg,
          AppState.loadPreferences env w
          = (Completion.Returns tt, Spec.afterFailedLoad w msg))
  /\ (exists w',
        AppState.savePreferences env w = (Completion.Returns tt, w')
        /\ AppState.theme w' = AppState.theme w
        /\ ((exists text,
                AppState.written w'
                = (AppState.written w ++ [(Config.STORAGE_KEY, text)])%list
                /\ AppState.warnings w' = AppState.warnings w)
            \/ exists msg, Spec.failedSave w w' msg))
  /\ (forall e,
        (forall text,
            AppState.setItem env Config.STORAGE_KEY text = Some e) ->
        exists w',
          AppState.savePreferences env w = (Completion.Returns tt, w')
          /\ exists msg, Spec.failedSave w w' msg)
  /\ (forall text,
        AppState.toString
          (AppState.theme (snd (AppState.loadPreferences env w)))
        = Completion.Returns text ->
        exists w',
          AppState.init env w = (Completion.Returns tt, w')
          /\ Spec.themeApplied w'
          /\ AppState.dataTheme w' = Some text)
  /\ (forall msg s,
        AppState.loadPreferences env w
        = (Completion.Returns tt, Spec.afterFailedLoad w msg) ->
        AppState.theme w = AppState.VStr s ->
        exists w',
          AppState.init env w = (Completion.Returns tt, w')
          /\ Spec.themeApplied w'
          /\ AppState.theme w' = AppState.VStr s
          /\ AppState.dataTheme w' = Some s)
  /\ (exists w',
        AppState.toggleTheme env w = (Completion.Returns tt, w')
        /\ Spec.themeApplied w').
Proof.
  repeat apply conj.
  - destruct (loadPreferences_returns env w)
      as [(th & prefs & H & _)|(msg & H)]; [left|right]; eauto.
  - apply loadPreferences_getItem_throws.
  - apply loadPreferences_parse_throws.
  - apply loadPreferences_null.
  - destruct (savePreferences_returns env w) as (w' & H & Ht & _ & _ & Hc).
    exists w'. auto.
  - apply savePreferences_setItem_throws.
  - intros text Ht.
    destruct (init_returns env w text Ht) as (w' & H & Ha & Hd & _).
    now exists w'.
  - intros msg s Hl Hs.
    destruct (init_returns env w s) as (w' & H & Ha & Hd & Hth).
    + rewrite Hl. cbn. now rewrite Hs.
    + exists w'. rewrite Hl in Hth. cbn in Hth. rewrite Hs in Hth. auto.
  - apply toggleTheme_returns.
Qed.

(** A stored value that [JSON.parse] accepts can still stop [init]: with the
    preferences [{theme: {toString: 1}}] in the store, the load takes the
    object as the theme without a warning, and [setAttribute] throws a
    TypeError in [applyTheme], which no handler catches. *)
Lemma init_throws_on_stored_object_theme :
  let q := String (Ascii.ascii_of_N 34) EmptyString in
  let text :=
    String.concat q ["{"; "theme"; ":{"; "toString"; ":1}}"] in
  let stored :=
    AppState.VObj
      [("theme", AppState.VObj [("toString", AppState.VNum "1")])] in
  let env :=
    AppState.mkBrowser
      (fun key =>
         inr (if String.eqb key Config.STORAGE_KEY then Some text else None))
      (fun _ _ => None)
      (fun s =>
         if String.eqb s text then inr stored
         else inl (Completion.mkError "SyntaxError" "Unexpected token"))
      (fun _ => inr text) (Some false) in
  exists w',
    AppState.init env AppState.initial
    = (Completion.Throws
         (AppState.TypeError "Cannot convert object to primitive value"), w')
    /\ AppState.warnings w' = []
    /\ AppState.dataTheme w' = None.
Proof. cbv zeta. eexists. split; [vm_compute; reflexivity|]. now split. Qed.

(** A browser whose storage is disabled: the page still initialises and
    toggles its theme, with one warning for each access. *)
Example storage_disabled :
  let denied := Completion.mkError "SecurityError" "The operation is insecure." in
  let env :=
    AppState.mkBrowser (fun _ => inl denied) (fun _ _ => Some denied)
                       (fun _ => inr AppState.VNull) (fun _ => inr "{}")
                       (Some true) in
  let (r1, w1) := AppState.init env AppState.initial in
  let (r2, w2) := AppState.toggleTheme env w1 in
  r1 = Completion.Returns tt /\ r2 = Completion.Returns tt
  /\ AppState.theme w1 = AppState.VStr "light"
  /\ AppState.theme w2 = AppState.VStr "dark"
  /\ AppState.dataTheme w2 = Some "dark"
  /\ AppState.written w2 = []
  /\ AppState.warnings w2
     = [("Could not load preferences:", "The operation is insecure.");
        ("Could not save preferences:", "The operation is insecure.")].
Proof. cbv. repeat split. Qed.

(** ** Highlighter *)

Section Highlight.
Import Completion.

(** The class of [escapeRegExp] is the set of syntax characters. *)
Lemma inEscapeClass_syntax (c : ascii) :
  inEscapeClass c = RegExp.isSyntaxCharacter c.
Proof. each_ascii c; reflexivity. Qed.

Lemma backslash_is_syntax (c : ascii) :
  Ascii.eqb c "\" = true -> RegExp.isSyntaxCharacter c = true.
Proof. intros H. apply Ascii.eqb_eq in H. now subst. Qed.

(** After escaping, every character of the term is a literal atom. *)
Lemma lex_escapeRegExp (term rest : string) :
  RegExp.lex (escapeRegExp term ++ rest)
  = option_map (app (map RegExp.Lit (list_ascii_of_string term)))
               (RegExp.lex rest).
Proof.
  induction term as [|c term IH].
  - simpl. now destruct (RegExp.lex rest).
  - cbn [escapeRegExp list_ascii_of_string map].
    rewrite inEscapeClass_syntax.
    destruct (RegExp.isSyntaxCharacter c) eqn:Hs.
    + cbn [append RegExp.lex]. rewrite Hs, IH. cbn [Ascii.eqb].
      change (Ascii.eqb "\" "\") with true. cbv iota.
      now destruct (RegExp.lex rest).
    + cbn [append RegExp.lex]. rewrite Hs, IH.
      destruct (Ascii.eqb c "\") eqn:Hb.
      * apply backslash_is_syntax in Hb. congruence.
      * now destruct (RegExp.lex rest).
Qed.

Lemma lex_escaped_term (term : string) :
  RegExp.lex (escapeRegExp term)
  = Some (map RegExp.Lit (list_ascii_of_string term)).
Proof.
  assert (E : escapeRegExp term = escapeRegExp term ++ EmptyString)
    by (induction (escapeRegExp term); simpl; congruence).
  rewrite E, lex_escapeRegExp. simpl. now rewrite app_nil_r.
Qed.

Lemma literalBody_literals (lit : string) :
  RegExp.literalBody
    (map RegExp.Lit (list_ascii_of_string lit) ++ [RegExp.Op ")"])
  = Some lit.
Proof.
  induction lit as [|c lit IH]; [reflexivity|].
  cbn [list_ascii_of_string map app RegExp.literalBody]. now rewrite IH.
Qed.

Lemma construct_escaped (term : string) :
  RegExp.construct ("(" ++ escapeRegExp term ++ ")")
  = Returns (RegExp.LiteralGroup term).
Proof.
  unfold RegExp.construct.
  change ("(" ++ escapeRegExp term ++ ")")
    with (String "(" (escapeRegExp term ++ ")")).
  cbn [RegExp.lex]. change (Ascii.eqb "(" "\") with false. cbv iota.
  change (RegExp.isSyntaxCharacter "(") with true. cbv iota.
  rewrite lex_escapeRegExp.
  change (RegExp.lex ")") with (Some [RegExp.Op ")"]).
  cbn [option_map RegExp.literalGroup].
  change (Ascii.eqb "(" "(") with true. cbv iota.
  now rewrite literalBody_literals.
Qed.

Lemma highlightTerm_returns (highlighted term : string) :
  highlightTerm highlighted term
  = Returns (RegExp.replaceWithMark highlighted (RegExp.LiteralGroup term)).
Proof. unfold highlightTerm. now rewrite construct_escaped. Qed.

Lemma forEach_highlightTerm (terms : list string) (highlighted : string) :
  forEach highlightTerm terms highlighted
  = Returns
      (fold_left
         (fun h term =>
            RegExp.replaceWithMark h (RegExp.LiteralGroup term))
         terms highlighted).
Proof.
  revert highlighted. induction terms as [|term terms IH]; intros h.
  - reflexivity.
  - simpl. rewrite highlightTerm_returns. simpl. apply IH.
Qed.
End Highlight.

(** C10.  [highlightText] returns for every text and every query: each term
    is escaped before it is compiled, so every character of it, the syntax
    characters too, is a literal atom of the pattern, the constructor does
    not throw, and the expression matches the term as written. *)
Theorem highlightText_returns (text query : string) :
  highlightText text query
  = Completion.Returns
      (fold_left
         (fun h term => RegExp.replaceWithMark h (RegExp.LiteralGroup term))
         (searchTerms query) (Helpers.escapeHtml text))
  /\ (forall term,
        RegExp.lex (escapeRegExp term)
        = Some (map RegExp.Lit (list_ascii_of_string term)))
  /\ (forall term,
        RegExp.construct ("(" ++ escapeRegExp term ++ ")")
        = Completion.Returns (RegExp.LiteralGroup term))
  /\ highlightText "f(x) = [a*b] \d+" "F( [A* \D+ )"
     = Completion.Returns
         "<mark>f(</mark>x) = <mark>[a*</mark>b] <mark>\d+</mark>".
Proof.
  split; [|split; [|split]].
  - unfold highlightText. apply forEach_highlightTerm.
  - apply lex_escaped_term.
  - apply construct_escaped.
  - reflexivity.
Qed.

(** ** The earlier revision differs *)

(** Its scorer has no starts-with tier and gives 20 for a keyword. *)
Example legacy_pomodoro_scores :
  map (fun r => (title (item r), score r))
      (Legacy.searchContent (loadSearchData (mkHandler [] false)) "pomodoro")
  = [("Pomodoro Technique", 50); ("Academic Balance", 20)].
Proof. reflexivity. Qed.

(** It keeps terms of one character and splits at single spaces only. *)
Example legacy_single_character_term :
  Legacy.searchTerms "a" = ["a"]
  /\ List.length
       (Legacy.searchContent (loadSearchData (mkHandler [] false)) "a")
     = 10%nat
  /\ searchContent (loadSearchData (mkHandler [] false)) "a" = [].
Proof. repeat split; reflexivity. Qed.

(** Its highlighter compiles the term unescaped, and throws. *)
Example legacy_highlightText_throws :
  Legacy.highlightText "f(x)" "f("
  = Completion.Throws (RegExp.SyntaxError "Unmatched parenthesis")
  /\ highlightText "f(x)" "f(" = Completion.Returns "<mark>f(</mark>x)".
Proof. split; reflexivity. Qed.

(** Its failed load leaves the preferences as parsed, here [null]. *)
Example legacy_load_keeps_null :
  let env :=
    AppState.mkBrowser (fun _ => inr (Some "null")) (fun _ _ => None)
                       (fun _ => inr AppState.VNull) (fun _ => inr "null")
                       None in
  AppState.preferences (snd (Legacy.loadPreferences env AppState.initial))
  = AppState.VNull
  /\ AppState.preferences
       (snd (AppState.loadPreferences env AppState.initial))
     = AppState.VObj [].
Proof. split; reflexivity. Qed.

(** * Further properties of the script *)

(** ** Ranking: what is returned and what is left out *)

Lemma filter_map_length {A B : Type} (f : B -> bool) (g : A -> B)
      (l : list A) :
  List.length (filter f (map g l))
  = List.length (filter (fun x => f (g x)) l).
Proof.
  induction l as [|x l IH]; simpl; [reflexivity|].
  destruct (f (g x)); simpl; now rewrite IH.
Qed.

Lemma totalScore_nonneg (r : SearchRecord) (terms : list string) :
  0 <= Spec.totalScore r terms <= 170 * Z.of_nat (List.length terms).
Proof.
  unfold Spec.totalScore.
  induction terms as [|term terms IH]; [simpl; lia|].
  cbn [map fold_right List.length]. rewrite Nat2Z.inj_succ.
  assert (0 <= Spec.termScore r term <= 170).
  { unfold Spec.termScore, Spec.titleTier, Spec.bonus.
    repeat match goal with |- context [if ?b then _ else _] =>
             destruct b end; lia. }
  lia.
Qed.

Lemma score_scoreItem (terms : list string) (r : SearchRecord) :
  score (scoreItem terms r) = Spec.totalScore r terms.
Proof. unfold scoreItem. simpl. now rewrite fold_addTerm. Qed.

Lemma searchContent_length (this : SearchHandler.t) (query : string) :
  List.length (searchContent this query)
  = Nat.min Config.SEARCH_RESULT_LIMIT
      (List.length
         (filter (fun r => score (scoreItem (searchTerms query) r) >? 0)
                 (searchData this))).
Proof.
  unfold searchContent, JS.slice0.
  destruct (searchTerms query) as [|term terms] eqn:E.
  - assert (Hnil : filter (fun r => score (scoreItem [] r) >? 0)
                           (searchData this) = []).
    { induction (searchData this) as [|r l IH]; [reflexivity|].
      cbn [filter]. rewrite score_scoreItem. exact IH. }
    rewrite Hnil. reflexivity.
  - cbn [List.length Nat.eqb].
    now rewrite length_firstn, (sort_length score), filter_map_length.
Qed.

(** X1.  The output holds as many records as have a positive score, up to the
    limit. *)
Theorem rank_length_exact (this : SearchHandler.t) (query : string) :
  List.length (searchContent this query)
  = Nat.min Config.SEARCH_RESULT_LIMIT
      (List.length
         (filter (fun r => score (scoreItem (searchTerms query) r) >? 0)
                 (searchData this))).
Proof. apply searchContent_length. Qed.

Lemma sorted_split_le {A : Type} (key : A -> Z) (n : nat) (l : list A) :
  StronglySorted (Spec.descending key) l ->
  forall a b, In a (firstn n l) -> In b (skipn n l) -> key b <= key a.
Proof.
  intros Hs. revert n. induction Hs as [|x l Hs IH Hall]; intros n a b.
  - rewrite firstn_nil. intros [].
  - destruct n as [|n]; [intros []|]. simpl. intros [<-|Ha] Hb.
    + rewrite Forall_forall in Hall.
      assert (Hin : In b l)
        by (rewrite <- (firstn_skipn n l); apply in_or_app; now right).
      apply Hall in Hin. unfold Spec.descending in Hin. lia.
    + eapply IH; eassumption.
Qed.

Lemma searchContent_kept_or_lower (this : SearchHandler.t) (query : string)
      (r : SearchRecord) (kept : ScoredRecord) :
  In r (searchData this) ->
  In kept (searchContent this query) ->
  In (scoreItem (searchTerms query) r) (searchContent this query)
  \/ score (scoreItem (searchTerms query) r) <= score kept.
Proof.
  intros Hr Hk. pose proof (searchContent_In _ _ _ Hk) as [Hpos _].
  unfold searchContent, JS.slice0 in *.
  destruct (List.length (searchTerms query) =? 0)%nat; [destruct Hk|].
  set (sr := scoreItem (searchTerms query) r).
  set (sorted := JS.sort (fun a b => score b - score a)
                   (filter (fun item => score item >? 0)
                      (map (scoreItem (searchTerms query))
                           (searchData this)))) in *.
  destruct (Z.leb_spec (score sr) 0) as [Hle|Hgt]; [right; lia|].
  assert (Hin : In sr sorted).
  { apply (proj2 (sort_In score _ _)). apply filter_In. split.
    - apply in_map. exact Hr.
    - apply Z.gtb_lt. lia. }
  rewrite <- (firstn_skipn Config.SEARCH_RESULT_LIMIT sorted) in Hin.
  apply in_app_or in Hin as [Hin|Hin]; [now left|right].
  eapply (sorted_split_le score); [apply (sort_sorted score)| |]; eassumption.
Qed.

Lemma searchContent_head_max (this : SearchHandler.t) (query : string)
      (first : ScoredRecord) (rest : list ScoredRecord) (r : SearchRecord) :
  searchContent this query = first :: rest ->
  In r (searchData this) ->
  score (scoreItem (searchTerms query) r) <= score first.
Proof.
  intros E Hr.
  assert (Hs : StronglySorted (Spec.descending score)
                              (searchContent this query)).
  { unfold searchContent.
    destruct (List.length (searchTerms query) =? 0)%nat; [constructor|].
    apply (firstn_sorted score), (sort_sorted score). }
  destruct (searchContent_kept_or_lower this query r first Hr) as [Hin|Hle];
    [rewrite E; now left| |exact Hle].
  rewrite E in Hin, Hs. destruct Hin as [<-|Hin]; [lia|].
  inversion Hs as [|? ? _ Hall]; subst. rewrite Forall_forall in Hall.
  apply Hall in Hin. unfold Spec.descending in Hin. lia.
Qed.

(** X2.  A record of the catalog that the output leaves out scores no higher
    than any record of the output. *)
Theorem rank_keeps_the_best (this : SearchHandler.t) (query : string)
        (r : SearchRecord) (kept : ScoredRecord) :
  In r (searchData this) ->
  In kept (searchContent this query) ->
  In (scoreItem (searchTerms query) r) (searchContent this query)
  \/ score (scoreItem (searchTerms query) r) <= score kept.
Proof. apply searchContent_kept_or_lower. Qed.

Lemma rank_keeps_the_best_witness :
  let this := mkHandler catalog false in
  let mindMaps :=
    mkRecord "Mind Maps" "Connect ideas visually to improve understanding"
             "High School" "highschool.html"
             ["visual"; "connections"; "diagrams"] in
  let kept :=
    mkScored (mkRecord "Mock Interviews"
                       "Practice responses with peers for confidence"
                       "Senior High" "seniorhigh.html"
                       ["interview"; "practice"; "career"]) 15 in
  In mindMaps (searchData this)
  /\ In kept (searchContent this "high school")
  /\ (In (scoreItem (searchTerms "high school") mindMaps)
         (searchContent this "high school")
      \/ score (scoreItem (searchTerms "high school") mindMaps)
         <= score kept).
Proof.
  intros this mindMaps kept.
  assert (H1 : In mindMaps (searchData this)) by (vm_compute; tauto).
  assert (H2 : In kept (searchContent this "high school"))
    by (vm_compute; tauto).
  split; [exact H1|]. split; [exact H2|].
  exact (rank_keeps_the_best this "high school" mindMaps kept H1 H2).
Defined.

(** ** Scoring: which records match *)

Lemma prefix_refl (s : string) : String.prefix s s = true.
Proof.
  induction s as [|c s IH]; [reflexivity|].
  simpl. destruct (ascii_dec c c); [exact IH|congruence].
Qed.

Lemma prefix_includes (s t : string) :
  String.prefix t s = true -> JS.includes s t = true.
Proof. intros H. destruct s; simpl; simpl in H; now rewrite H. Qed.

Lemma titleTier_positive (titleLower term : string) :
  0 < Spec.titleTier titleLower term <-> JS.includes titleLower term = true.
Proof.
  unfold Spec.titleTier, JS.startsWith.
  destruct (String.eqb_spec term titleLower) as [->|Hne].
  - split; [intros _|lia]. apply prefix_includes, prefix_refl.
  - destruct (String.prefix term titleLower) eqn:Hp.
    + split; [intros _|lia]. now apply prefix_includes.
    + destruct (JS.includes titleLower term); split; (lia || congruence).
Qed.

Lemma termScore_positive (r : SearchRecord) (term : string) :
  0 < Spec.termScore r term <-> Props.occursIn r term = true.
Proof.
  unfold Spec.termScore, Props.occursIn.
  pose proof (titleTier_positive (JS.toLowerCase (title r)) term) as Ht.
  assert (Hn : 0 <= Spec.titleTier (JS.toLowerCase (title r)) term).
  { unfold Spec.titleTier.
    repeat match goal with |- context [if ?b then _ else _] =>
             destruct b end; lia. }
  unfold Spec.bonus.
  destruct (JS.includes (JS.toLowerCase (title r)) term).
  - simpl. split; [reflexivity|intros _].
    assert (0 < Spec.titleTier (JS.toLowerCase (title r)) term)
      by now apply Ht.
    repeat match goal with |- context [if ?b then _ else _] =>
             destruct b end; lia.
  - assert (Spec.titleTier (JS.toLowerCase (title r)) term = 0).
    { destruct (Z.eq_dec (Spec.titleTier (JS.toLowerCase (title r)) term) 0);
        [assumption|].
      assert (false = true) by (apply Ht; lia). discriminate. }
    repeat match goal with |- context [JS.includes ?f term] =>
             destruct (JS.includes f term) end; simpl; split;
      (lia || congruence).
Qed.

Lemma termScore_nonneg (r : SearchRecord) (term : string) :
  0 <= Spec.termScore r term <= 170.
Proof.
  unfold Spec.termScore, Spec.titleTier, Spec.bonus.
  repeat match goal with |- context [if ?b then _ else _] =>
           destruct b end; lia.
Qed.

(** X3.  A record has a positive score exactly when one of the terms occurs in
    its title, description, keywords or category; the score lies between 0
    and 170 for each term. *)
Theorem score_positive_iff_match (terms : list string) (r : SearchRecord) :
  (score (scoreItem terms r) > 0 <->
   exists term, In term terms /\ Props.occursIn r term = true)
  /\ 0 <= score (scoreItem terms r) <= 170 * Z.of_nat (List.length terms).
Proof.
  rewrite score_scoreItem. split; [|apply totalScore_nonneg].
  unfold Spec.totalScore.
  induction terms as [|term terms IH]; cbn [map fold_right].
  - split; [lia|intros (t & [] & _)].
  - pose proof (termScore_nonneg r term) as Hn.
    pose proof (totalScore_nonneg r terms) as Hs.
    unfold Spec.totalScore in Hs. split.
    + intros H.
      destruct (Z.ltb_spec 0 (Spec.termScore r term)) as [Hpos|Hz].
      * exists term. split; [now left|now apply termScore_positive].
      * destruct (proj1 IH) as (t & Hin & Hoc); [lia|].
        exists t. split; [now right|exact Hoc].
    + intros (t & [<-|Hin] & Hoc).
      * apply termScore_positive in Hoc. lia.
      * assert (fold_right Z.add 0 (map (Spec.termScore r) terms) > 0)
          by (apply IH; eauto). lia.
Qed.

(** ** Scoring: the order of the terms does not matter *)

Lemma totalScore_Permutation (r : SearchRecord) (l1 l2 : list string) :
  Permutation l1 l2 -> Spec.totalScore r l1 = Spec.totalScore r l2.
Proof.
  unfold Spec.totalScore.
  induction 1; cbn [map fold_right]; lia.
Qed.

Lemma totalScore_app (r : SearchRecord) (l1 l2 : list string) :
  Spec.totalScore r (l1 ++ l2)%list
  = Spec.totalScore r l1 + Spec.totalScore r l2.
Proof.
  unfold Spec.totalScore. induction l1 as [|t l1 IH]; cbn [map fold_right app].
  - lia.
  - rewrite IH. lia.
Qed.

Lemma scoreItem_Permutation (l1 l2 : list string) (r : SearchRecord) :
  Permutation l1 l2 -> scoreItem l1 r = scoreItem l2 r.
Proof.
  intros H. unfold scoreItem. f_equal.
  rewrite !fold_addTerm. f_equal. now apply totalScore_Permutation.
Qed.

(** X4.  Two queries with the same terms in another order get the same output;
    a term written twice counts twice. *)
Theorem rank_ignores_term_order (this : SearchHandler.t)
        (query1 query2 : string) :
  Permutation (searchTerms query1) (searchTerms query2) ->
  searchContent this query1 = searchContent this query2
  /\ forall r,
       score (scoreItem (searchTerms query1 ++ searchTerms query1)%list r)
       = 2 * score (scoreItem (searchTerms query1) r).
Proof.
  intros H. split.
  - unfold searchContent. rewrite (Permutation_length H).
    destruct (List.length (searchTerms query2) =? 0)%nat; [reflexivity|].
    do 3 f_equal. apply map_ext. intros r. now apply scoreItem_Permutation.
  - intros r. rewrite !score_scoreItem, totalScore_app. lia.
Qed.

Lemma rank_ignores_term_order_witness :
  Permutation (searchTerms "time management") (searchTerms "Management  time")
  /\ searchContent (mkHandler catalog false) "time management"
     = searchContent (mkHandler catalog false) "Management  time".
Proof.
  assert (H : Permutation (searchTerms "time management")
                          (searchTerms "Management  time"))
    by (vm_compute; apply perm_swap).
  split; [exact H|].
  exact (proj1 (rank_ignores_term_order (mkHandler catalog false) _ _ H)).
Defined.

(** ** Tokenizer: letter case and outer whitespace of the query *)

Lemma toLowerCase_idempotent (s : string) :
  JS.toLowerCase (JS.toLowerCase s) = JS.toLowerCase s.
Proof. apply toLowerCase_fixes_lower, toLowerCase_noUppercase. Qed.

Local Notation "'long'" := (filter (fun term => (1 <? String.length term)%nat)).

Lemma splitFrom_inRun_long (s : string) :
  long (JS.splitFrom true s) = long (JS.splitFrom false s).
Proof.
  destruct s as [|c s]; [reflexivity|].
  simpl. now destruct (JS.isWhitespace c).
Qed.

Lemma splitFrom_trimStart (s : string) :
  long (JS.splitFrom false (Builtins.trimStart s))
  = long (JS.splitFrom false s).
Proof.
  induction s as [|c s IH]; [reflexivity|].
  cbn [Builtins.trimStart]. destruct (JS.isWhitespace c) eqn:Hc.
  - rewrite IH. cbn [JS.splitFrom]. rewrite Hc. cbn [filter].
    cbn. now rewrite splitFrom_inRun_long.
  - reflexivity.
Qed.

Lemma trimEnd_empty (s : string) :
  Builtins.trimEnd s = EmptyString -> Spec.onlyWhitespace s.
Proof.
  induction s as [|c s IH]; [constructor|].
  cbn [Builtins.trimEnd].
  destruct (Builtins.trimEnd s); [|discriminate].
  destruct (JS.isWhitespace c) eqn:Hc; [|discriminate].
  intros _. constructor; [exact Hc|now apply IH].
Qed.

Lemma splitFrom_inRun_onlyWhitespace (s : string) :
  Spec.onlyWhitespace s -> JS.splitFrom true s = [EmptyString].
Proof.
  induction s as [|c s IH]; [reflexivity|].
  intros H. inversion H as [|? ? Hc Hs]; subst.
  simpl. rewrite Hc. now apply IH.
Qed.

(** A trailing run of whitespace adds one empty piece at most. *)
Lemma splitFrom_trimEnd (b : bool) (s : string) :
  JS.splitFrom b s = JS.splitFrom b (Builtins.trimEnd s)
  \/ JS.splitFrom b s
     = (JS.splitFrom b (Builtins.trimEnd s) ++ [EmptyString])%list.
Proof.
  revert b. induction s as [|c s IH]; intros b; [now left|].
  cbn [Builtins.trimEnd].
  destruct (Builtins.trimEnd s) as [|d rest] eqn:E.
  - pose proof (trimEnd_empty s E) as Hws.
    destruct (JS.isWhitespace c) eqn:Hc.
    + cbn [JS.splitFrom]. rewrite Hc.
      rewrite (splitFrom_inRun_onlyWhitespace s Hws).
      destruct b; [now left|now right].
    + cbn [JS.splitFrom]. rewrite Hc.
      destruct (IH false) as [->| ->]; cbn; [now left|now right].
  - remember (String d rest) as core eqn:Hcore. clear Hcore E.
    cbn [JS.splitFrom]. destruct (JS.isWhitespace c).
    + destruct (IH true) as [->| ->]; destruct b; cbn; auto.
    + pose proof (splitFrom_not_nil false core) as Hnn.
      destruct (IH false) as [->| ->];
        destruct (JS.splitFrom false core); try congruence; cbn; auto.
Qed.

Lemma toLowerCase_trimStart (s : string) :
  JS.toLowerCase (Builtins.trimStart s)
  = Builtins.trimStart (JS.toLowerCase s).
Proof.
  induction s as [|c s IH]; [reflexivity|].
  cbn [Builtins.trimStart JS.toLowerCase].
  rewrite toLowerChar_whitespace. now destruct (JS.isWhitespace c).
Qed.

Lemma toLowerCase_trimEnd (s : string) :
  JS.toLowerCase (Builtins.trimEnd s) = Builtins.trimEnd (JS.toLowerCase s).
Proof.
  induction s as [|c s IH]; [reflexivity|].
  cbn [Builtins.trimEnd JS.toLowerCase]. rewrite <- IH.
  destruct (Builtins.trimEnd s); cbn [JS.toLowerCase].
  - rewrite toLowerChar_whitespace. now destruct (JS.isWhitespace c).
  - reflexivity.
Qed.

Lemma searchTerms_trim (query : string) :
  searchTerms (Builtins.trim query) = searchTerms query.
Proof.
  unfold searchTerms, Builtins.trim, JS.splitWhitespace.
  rewrite toLowerCase_trimEnd, toLowerCase_trimStart.
  rewrite <- (splitFrom_trimStart (JS.toLowerCase query)).
  destruct (splitFrom_trimEnd false
              (Builtins.trimStart (JS.toLowerCase query))) as [->| ->].
  - reflexivity.
  - rewrite filter_app. cbn. now rewrite app_nil_r.
Qed.

Lemma trimStart_onlyWhitespace (s : string) :
  Spec.onlyWhitespace s -> Builtins.trimStart s = EmptyString.
Proof.
  induction s as [|c s IH]; [reflexivity|].
  intros H. inversion H as [|? ? Hc Hs]; subst.
  cbn [Builtins.trimStart]. rewrite Hc. now apply IH.
Qed.

Lemma trimStart_empty (s : string) :
  Builtins.trimStart s = EmptyString -> Spec.onlyWhitespace s.
Proof.
  induction s as [|c s IH]; [constructor|].
  cbn [Builtins.trimStart]. destruct (JS.isWhitespace c) eqn:Hc.
  - intros H. constructor; [exact Hc|now apply IH].
  - discriminate.
Qed.

Lemma trimEnd_trimStart_empty (s : string) :
  Builtins.trimEnd (Builtins.trimStart s) = EmptyString ->
  Builtins.trimStart s = EmptyString.
Proof.
  induction s as [|c s IH]; [reflexivity|].
  cbn [Builtins.trimStart]. destruct (JS.isWhitespace c) eqn:Hc; [exact IH|].
  cbn [Builtins.trimEnd]. rewrite Hc.
  destruct (Builtins.trimEnd s); discriminate.
Qed.

Lemma trim_empty_iff (s : string) :
  Builtins.trim s = EmptyString <-> Spec.onlyWhitespace s.
Proof.
  unfold Builtins.trim. split.
  - intros H. now apply trimStart_empty, trimEnd_trimStart_empty.
  - intros H. now rewrite trimStart_onlyWhitespace.
Qed.

(** X5.  Letter case of the query and whitespace around it do not change the
    output of [searchContent]. *)
Theorem rank_ignores_case_and_outer_whitespace (this : SearchHandler.t)
        (query : string) :
  searchContent this (JS.toLowerCase query) = searchContent this query
  /\ searchContent this (Builtins.trim query) = searchContent this query.
Proof.
  split; unfold searchContent.
  - unfold searchTerms. now rewrite toLowerCase_idempotent.
  - now rewrite searchTerms_trim.
Qed.

(** ** [Helpers.escapeHtml] *)

Lemma escapeChar_cases (c : ascii) :
  (c = "&"%char \/ c = "<"%char \/ c = ">"%char \/ c = ascii_of_N 160)
  \/ (Helpers.escapeChar c = String c EmptyString /\ c <> "&"%char).
Proof.
  each_ascii c;
    first [ right; split; [reflexivity|discriminate]
          | left; vm_compute; tauto ].
Qed.

Lemma chars_append (a b : string) :
  list_ascii_of_string (a ++ b)
  = (list_ascii_of_string a ++ list_ascii_of_string b)%list.
Proof. induction a as [|c a IH]; simpl; congruence. Qed.

Lemma escapeChar_plain (c : ascii) :
  Forall Props.plainChar (list_ascii_of_string (Helpers.escapeChar c)).
Proof.
  unfold Props.plainChar.
  destruct (escapeChar_cases c) as [[->|[->|[->| ->]]]|[E Hc]].
  1-4: vm_compute; repeat constructor; discriminate.
  rewrite E. constructor; [|constructor].
  revert E. each_ascii c; vm_compute; intros E;
    first [discriminate E | repeat split; discriminate].
Qed.

(** X6.  The escaped text holds no [<], no [>] and no no-break space, and
    different texts have different escaped texts. *)
Theorem escapeHtml_safe_and_injective (text1 text2 : string) :
  Forall (fun c => c <> "<"%char /\ c <> ">"%char /\ c <> ascii_of_N 160)
         (list_ascii_of_string (Helpers.escapeHtml text1))
  /\ (Helpers.escapeHtml text1 = Helpers.escapeHtml text2 -> text1 = text2).
Proof.
  split.
  - induction text1 as [|c text IH]; [constructor|].
    cbn [Helpers.escapeHtml]. rewrite chars_append.
    apply Forall_app. split; [apply escapeChar_plain|exact IH].
  - revert text2. induction text1 as [|c a IH]; intros [|d b].
    + reflexivity.
    + cbn [Helpers.escapeHtml].
      destruct (escapeChar_cases d) as [[->|[->|[->| ->]]]|[-> _]];
        discriminate.
    + cbn [Helpers.escapeHtml].
      destruct (escapeChar_cases c) as [[->|[->|[->| ->]]]|[-> _]];
        discriminate.
    + cbn [Helpers.escapeHtml].
      destruct (escapeChar_cases c) as [[->|[->|[->| ->]]]|[-> Hc]];
        destruct (escapeChar_cases d) as [[->|[->|[->| ->]]]|[-> Hd]];
        cbn; intros H; try discriminate H;
        try (injection H as H; f_equal; now apply IH);
        try (injection H as -> H; f_equal; now apply IH);
        try (exfalso; injection H; congruence).
Qed.

(** ** [Helpers.debounce] *)

Section DebounceFacts.
Context {A : Type}.
Variable delay : Z.
Import Debounce.

Local Notation "'runD'" := (Debounce.run (A := A) delay).

Lemma run_snoc (events : list (event (A := A))) (e : event) :
  runD (events ++ [e]) = step delay (runD events) e.
Proof. unfold run. now rewrite fold_left_app. Qed.

Lemma lastCall_snoc_call (events : list (event (A := A))) (args : A) :
  lastCall (events ++ [Call args]) = Some args.
Proof.
  induction events as [|[a|i] events IH]; cbn [app lastCall];
    [reflexivity| |exact IH].
  now rewrite IH.
Qed.

Lemma lastCall_snoc_expire (events : list (event (A := A))) (id : nat) :
  lastCall (events ++ [Expire id]) = lastCall events.
Proof.
  induction events as [|[a|i] events IH]; cbn [app lastCall];
    [reflexivity| |exact IH].
  now rewrite IH.
Qed.

Lemma clear_own_timer (id : nat) (entry : Z * A) :
  clearTimeout (Some id) [(id, entry)] = [].
Proof. simpl. now rewrite Nat.eqb_refl. Qed.

Lemma run_settled (events : list (event (A := A))) :
  settled delay events (runD events).
Proof.
  induction events as [|e events IH] using rev_ind.
  - split; [now left|simpl; lia].
  - rewrite run_snoc. unfold settled in *. destruct IH as [Ht Hn].
    rewrite filter_app, length_app. destruct e as [args|id].
    + cbn [step call filter isCall List.length timers applied timeoutId].
      split.
      * right. exists (nextId (runD events)), args.
        rewrite lastCall_snoc_call. repeat split.
        destruct Ht as [E|(id & a & E & Hid & _)].
        -- rewrite E. now destruct (timeoutId (runD events)).
        -- rewrite E, Hid, clear_own_timer. reflexivity.
      * destruct Ht as [E|(id & a & E & Hid & _)].
        -- rewrite E in *. replace (clearTimeout _ []) with (@nil (nat * (Z * A)))
             by now destruct (timeoutId (runD events)).
           simpl in *. lia.
        -- rewrite E, Hid, clear_own_timer in *. simpl in *. lia.
    + cbn [step filter isCall List.length]. rewrite lastCall_snoc_expire.
      unfold expire.
      destruct Ht as [E|(id' & a & E & Hid & Hl)].
      * rewrite E. cbn [lookup]. rewrite E. split; [now left|].
        rewrite E in Hn. simpl in *. lia.
      * rewrite E. cbn [lookup]. destruct (Nat.eqb_spec id' id) as [->|Hne].
        -- cbn [timers applied]. rewrite clear_own_timer. split; [now left|].
           rewrite E in Hn. rewrite length_app. simpl in *. lia.
        -- rewrite E. split; [right; now exists id', a|].
           rewrite E in Hn. simpl in *. lia.
Qed.

Lemma run_calls_applied (events : list (event (A := A))) (l : list A) :
  applied (runD (events ++ map Call l)) = applied (runD events).
Proof.
  induction l as [|x l IH] using rev_ind.
  - now rewrite app_nil_r.
  - rewrite map_app, app_assoc. cbn [map]. rewrite run_snoc. exact IH.
Qed.

(** After a burst of calls the one timer is that of the last call. *)
Lemma run_burst (events : list (event (A := A))) (burst : list A)
      (last : A) :
  exists id,
    timers (runD (events ++ map Call (burst ++ [last])))
    = [(id, (delay, last))].
Proof.
  set (calls := map Call (burst ++ [last])).
  destruct (run_settled (events ++ calls)) as [Ht _].
  assert (Hlast : lastCall (events ++ calls) = Some last).
  { subst calls. rewrite map_app, app_assoc. cbn [map].
    apply lastCall_snoc_call. }
  assert (Hne : timers (runD (events ++ calls)) <> []).
  { subst calls. rewrite map_app, app_assoc. cbn [map]. rewrite run_snoc.
    cbn. now destruct (clearTimeout _ _). }
  destruct Ht as [E|(id & a & E & Hid & Hl)]; [contradiction|].
  rewrite Hlast in Hl. injection Hl as ->. now exists id.
Qed.
End DebounceFacts.

(** X7.  After any calls and expiries, the debounced function has one timer
    pending at most, the one whose id it holds, and [fn] has been applied no
    more often than the function was called. *)
Theorem debounce_single_timer {A : Type} (delay : Z)
        (events : list (Debounce.event (A := A))) :
  let d := Debounce.run delay events in
  (List.length (Debounce.timers d) <= 1)%nat
  /\ (forall id entry,
        In (id, entry) (Debounce.timers d) ->
        Debounce.timeoutId d = Some id /\ fst entry = delay)
  /\ (List.length (Debounce.applied d)
      <= List.length (filter Debounce.isCall events))%nat.
Proof.
  intros d. destruct (run_settled delay events) as [Ht Hn]. fold d in Ht, Hn.
  destruct Ht as [E|(id & a & E & Hid & _)]; rewrite E in *.
  - split; [simpl; lia|]. split; [intros ? ? []|simpl in *; lia].
  - split; [simpl; lia|]. split; [|simpl in *; lia].
    intros i entry [H|[]]. injection H as <- <-. now split.
Qed.

(** X8.  An expiry applies [fn] once at most, to the arguments of the latest
    call; after a burst of calls with no expiry in between, the one timer
    left applies [fn] to the arguments of the last call, once. *)
Theorem debounce_applies_latest {A : Type} (delay : Z)
        (events : list (Debounce.event (A := A))) :
  (forall id,
      let before := Debounce.run delay events in
      let after := Debounce.run delay (events ++ [Debounce.Expire id]) in
      after = before
      \/ exists args,
          Debounce.lastCall events = Some args
          /\ Debounce.applied after
             = (Debounce.applied before ++ [args])%list
          /\ Debounce.timers after = [])
  /\ forall (burst : list A) (last : A),
       let calls := map Debounce.Call (burst ++ [last]) in
       exists id,
         Debounce.timers (Debounce.run delay (events ++ calls))
         = [(id, (delay, last))]
         /\ Debounce.applied
              (Debounce.run delay (events ++ calls ++ [Debounce.Expire id]))
            = (Debounce.applied (Debounce.run delay events) ++ [last])%list.
Proof.
  split.
  - intros id before after. subst before after. rewrite run_snoc.
    destruct (run_settled delay events) as [[E|(i & a & E & Hid & Hl)] _];
      cbn [Debounce.step]; unfold Debounce.expire; rewrite E;
      cbn [Debounce.lookup].
    + now left.
    + destruct (Nat.eqb_spec i id) as [->|Hne]; [right|now left].
      exists a. cbn. rewrite Nat.eqb_refl. now repeat split.
  - intros burst last calls.
    destruct (run_burst delay events burst last) as (id & E).
    exists id. split; [exact E|].
    rewrite app_assoc, run_snoc. cbn [Debounce.step]. unfold Debounce.expire.
    fold calls in E. rewrite E. cbn. rewrite Nat.eqb_refl. cbn. f_equal.
    apply run_calls_applied.
Qed.

(** ** [Helpers.throttleRAF] *)

Section ThrottleFacts.
Context {A : Type}.
Variable throws : A -> bool.
Import ThrottleRAF.

Local Notation "'runT'" := (ThrottleRAF.run (A := A) throws).

Lemma runT_snoc (events : list (event (A := A))) (e : event) (d : t) :
  runT (events ++ [e]) d = step throws (runT events d) e.
Proof. unfold run. now rewrite fold_left_app. Qed.

Lemma runT_frames (events : list (event (A := A))) :
  frames (runT events start) = []
  \/ exists id args,
      frames (runT events start) = [(id, args)]
      /\ ticking (runT events start) = true.
Proof.
  induction events as [|e events IH] using rev_ind; [now left|].
  rewrite runT_snoc. destruct e as [args|id]; cbn [step].
  - unfold call. destruct IH as [E|(id & a & E & Hy)].
    + destruct (ticking (runT events start)) eqn:Ht; [now left|].
      right. cbn. rewrite E. now eexists _, _.
    + rewrite Hy. right. now exists id, a.
  - unfold frame. destruct IH as [E|(i & a & E & Ht)]; rewrite E.
    + cbn. rewrite E. now left.
    + cbn [lookup]. destruct (Nat.eqb_spec i id) as [->|Hne].
      * left. cbn. now rewrite Nat.eqb_refl.
      * right. rewrite E. now exists i, a.
Qed.

(** Once [fn] has thrown, nothing changes any more. *)
Lemma stuck_forever (d : t) (events : list (event (A := A))) :
  ticking d = true -> frames d = [] -> runT events d = d.
Proof.
  intros Ht Hf. induction events as [|e events IH] using rev_ind;
    [reflexivity|].
  rewrite runT_snoc, IH. destruct e as [args|id]; cbn [step].
  - unfold call. now rewrite Ht.
  - unfold frame. now rewrite Hf.
Qed.
End ThrottleFacts.

(** X9.  A throttled function has one frame requested at most, and [ticking] is
    set while it waits; when it is idle and called several times before the
    frame comes, [fn] is applied once, to the arguments of the first call. *)
Theorem throttle_applies_first {A : Type} (throws : A -> bool)
        (events : list (ThrottleRAF.event (A := A))) :
  let d := ThrottleRAF.run throws events ThrottleRAF.start in
  (List.length (ThrottleRAF.frames d) <= 1)%nat
  /\ (ThrottleRAF.frames d <> [] -> ThrottleRAF.ticking d = true)
  /\ (ThrottleRAF.ticking d = false ->
      forall (first : A) (others : list A),
        let calls := map ThrottleRAF.Call (first :: others) in
        let waiting := ThrottleRAF.run throws calls d in
        exists id,
          ThrottleRAF.frames waiting = [(id, first)]
          /\ ThrottleRAF.applied (ThrottleRAF.frame throws id waiting)
             = (ThrottleRAF.applied d ++ [first])%list).
Proof.
  intros d. destruct (runT_frames throws events) as [E|(id & a & E & Ht)];
    fold d in E; try fold d in Ht.
  - rewrite E. split; [simpl; lia|]. split; [congruence|].
    intros Hidle first others calls waiting.
    assert (Hw : waiting
                 = ThrottleRAF.mk true [(ThrottleRAF.nextId d, first)]
                     (S (ThrottleRAF.nextId d)) (ThrottleRAF.applied d)).
    { subst waiting calls. cbn [map ThrottleRAF.run fold_left].
      cbn [ThrottleRAF.step]. unfold ThrottleRAF.call.
      rewrite Hidle, E. cbn [app].
      induction others as [|x l IH] using rev_ind; [reflexivity|].
      rewrite map_app. cbn [map]. rewrite fold_left_app. cbn [fold_left].
      rewrite IH. reflexivity. }
    exists (ThrottleRAF.nextId d). rewrite Hw. split; [reflexivity|].
    unfold ThrottleRAF.frame. cbn. now rewrite Nat.eqb_refl.
  - rewrite E. split; [simpl; lia|]. split; [intros _; exact Ht|].
    congruence.
Qed.

(** X10.  When [fn] throws in a frame, [ticking] stays set: the throttled function
    never applies [fn] again, whatever is called later. *)
Theorem throttle_dead_after_throw {A : Type} (throws : A -> bool)
        (events later : list (ThrottleRAF.event (A := A)))
        (id : nat) (args : A) :
  let d := ThrottleRAF.run throws events ThrottleRAF.start in
  ThrottleRAF.lookup id (ThrottleRAF.frames d) = Some args ->
  throws args = true ->
  ThrottleRAF.applied
    (ThrottleRAF.run throws later (ThrottleRAF.frame throws id d))
  = (ThrottleRAF.applied d ++ [args])%list
  /\ ThrottleRAF.frames
       (ThrottleRAF.run throws later (ThrottleRAF.frame throws id d))
     = [].
Proof.
  intros d Hl Hthrow.
  destruct (runT_frames throws events) as [E|(i & a & E & Ht)];
    fold d in E; try fold d in Ht; rewrite E in Hl; [discriminate|].
  cbn [ThrottleRAF.lookup] in Hl.
  destruct (Nat.eqb_spec i id) as [->|Hne]; [|discriminate].
  injection Hl as ->.
  assert (Hf : ThrottleRAF.frame throws id d
               = ThrottleRAF.mk true [] (ThrottleRAF.nextId d)
                   (ThrottleRAF.applied d ++ [args])).
  { unfold ThrottleRAF.frame. rewrite E. cbn.
    now rewrite Nat.eqb_refl, Hthrow, Ht. }
  rewrite Hf, stuck_forever; [now split|reflexivity|reflexivity].
Qed.

Lemma throttle_dead_after_throw_witness :
  let events := [ThrottleRAF.Call 7%nat] in
  let later := [ThrottleRAF.Call 8%nat; ThrottleRAF.Frame 1;
                ThrottleRAF.Call 9%nat] in
  ThrottleRAF.applied
    (ThrottleRAF.run (fun _ => true) later
       (ThrottleRAF.frame (fun _ => true) 0
          (ThrottleRAF.run (fun _ => true) events ThrottleRAF.start)))
  = [7%nat].
Proof.
  exact (proj1 (throttle_dead_after_throw (fun _ : nat => true)
                  [ThrottleRAF.Call 7%nat]
                  [ThrottleRAF.Call 8%nat; ThrottleRAF.Frame 1;
                   ThrottleRAF.Call 9%nat] 0 7%nat eq_refl eq_refl)).
Defined.

(** ** The search box: its panel *)

Section SearchPanel.
Import Completion SearchUI.

Lemma highlightText_total (text query : string) :
  exists out, highlightText text query = Returns out.
Proof. unfold highlightText. rewrite forEach_highlightTerm. now eexists. Qed.

Lemma renderItems_returns (query : string) (results : list ScoredRecord)
      (index : Z) :
  exists items,
    renderItems query index results = Returns items
    /\ map href items = map (fun r => page (item r)) results
    /\ map categoryHtml items = map (fun r => category (item r)) results.
Proof.
  revert index. induction results as [|r results IH]; intros index.
  - now exists [].
  - cbn [renderItems].
    destruct (highlightText_total (title (item r)) query) as (t & ->).
    destruct (highlightText_total (description (item r)) query) as (d & ->).
    destruct (IH (index + 1)) as (items & -> & Hh & Hc).
    eexists. split; [reflexivity|]. cbn. now rewrite Hh, Hc.
Qed.

Lemma renderPanel_returns (results : list ScoredRecord) (query : string) :
  exists panel,
    renderPanel results query = Returns panel
    /\ match results with
       | [] => panel = NoResults (Helpers.escapeHtml query)
       | _ =>
           exists items,
             panel = Results (countText (List.length results)) items
             /\ map href items = map (fun r => page (item r)) results
       end.
Proof.
  destruct results as [|r results].
  - now eexists.
  - unfold renderPanel.
    destruct (renderItems_returns query (r :: results) 0)
      as (items & -> & Hh & _).
    eexists. split; [reflexivity|]. now exists items.
Qed.

Lemma clearResults_onePanel (ui : t) :
  onePanel ui ->
  onePanel (clearResults ui)
  /\ resultsContainer (clearResults ui) = None
  /\ attached (clearResults ui) = [].
Proof.
  unfold onePanel, clearResults. intros [He Ha].
  destruct (resultsContainer ui) as [[id panel]|] eqn:E.
  - cbn. rewrite Ha. destruct (hasWrapper ui); cbn.
    + unfold isContainer. cbn. rewrite Nat.eqb_refl. now cbn.
    + now cbn.
  - rewrite E. now repeat split.
Qed.

Lemma displayResults_onePanel (results : list ScoredRecord) (query : string)
      (ui : t) :
  onePanel ui -> onePanel (displayResults results query ui).
Proof.
  intros H. destruct (clearResults_onePanel ui H) as ([He _] & Hr & Ha).
  unfold displayResults.
  destruct (renderPanel_returns results query) as (panel & -> & _).
  unfold onePanel. cbn. rewrite Ha. split; [exact He|].
  now destruct (hasWrapper (clearResults ui)).
Qed.

Lemma handleSearch_onePanel (query : string) (ui : t) :
  onePanel ui -> onePanel (handleSearch query ui).
Proof.
  intros H. unfold handleSearch. destruct (String.eqb query EmptyString).
  - now apply clearResults_onePanel.
  - now apply displayResults_onePanel.
Qed.

Lemma handleArrowNavigation_onePanel (key : string) (ui : t) :
  onePanel ui -> onePanel (handleArrowNavigation key ui).
Proof.
  intros H. unfold handleArrowNavigation.
  destruct (List.length (resultItems ui) =? 0)%nat; [exact H|].
  destruct (Builtins.at_ _ _) as [[c i]|]; exact H.
Qed.

Lemma step_onePanel (ui : t) (e : event) :
  onePanel ui -> onePanel (step ui e).
Proof.
  intros H. destruct e as [v|key| |key c m|w r|id]; cbn [step].
  - exact H.
  - unfold onInputKeydown.
    match goal with |- context [if String.eqb key "Enter" then ?x else ui] =>
      set (ui1 := if String.eqb key "Enter" then x else ui) end.
    assert (H1 : onePanel ui1).
    { subst ui1. destruct (String.eqb key "Enter"); [|exact H].
      cbv zeta. destruct (String.eqb _ EmptyString); [exact H|].
      destruct (searchContent _ _); exact H. }
    destruct (_ || _); [now apply handleArrowNavigation_onePanel|exact H1].
  - unfold onClearClick. destruct (hasClear ui); [|exact H].
    cbv zeta.
    match goal with |- onePanel (setInput _ _ _ (clearResults ?u)) =>
      destruct (clearResults_onePanel u) as (Hc & _ & _); [exact H|exact Hc]
    end.
  - unfold onDocumentKeydown.
    match goal with |- context [if ?b then ?x else ui] =>
      set (ui1 := if b then x else ui) end.
    assert (H1 : onePanel ui1)
      by (subst ui1; destruct (_ && _); exact H).
    destruct (active ui1); try exact H1.
    destruct (String.eqb key "Escape"); [|exact H1].
    now apply clearResults_onePanel.
  - unfold onDocumentClick. destruct (_ && _); [|exact H].
    now apply clearResults_onePanel.
  - unfold onTimeout. destruct (Debounce.lookup _ _); [|exact H].
    now apply handleSearch_onePanel.
Qed.

Lemma run_snoc_ui (events : list event) (e : event) (ui : t) :
  run (events ++ [e]) ui = step (run events ui) e.
Proof. unfold run. now rewrite fold_left_app. Qed.

Lemma run_onePanel (events : list event) (ui : t) :
  onePanel ui -> onePanel (run events ui).
Proof.
  intros H. induction events as [|e events IH] using rev_ind; [exact H|].
  rewrite run_snoc_ui. now apply step_onePanel.
Qed.

Lemma step_debounced (ui : t) (e : event) :
  debounced (step ui e)
  = fold_left (Debounce.step 200) (debounceEvent e) (debounced ui).
Proof.
  assert (Hclear : forall u, debounced (clearResults u) = debounced u).
  { intros u. unfold clearResults.
    now destruct (resultsContainer u) as [[? ?]|]. }
  assert (Hsearch : forall q u, debounced (handleSearch q u) = debounced u).
  { intros q u. unfold handleSearch, displayResults.
    destruct (String.eqb q EmptyString); [apply Hclear|].
    destruct (renderPanel _ _); cbn; apply Hclear. }
  assert (Harrow : forall k u,
             debounced (handleArrowNavigation k u) = debounced u).
  { intros k u. unfold handleArrowNavigation.
    destruct (_ =? _)%nat; [reflexivity|].
    now destruct (Builtins.at_ _ _) as [[? ?]|]. }
  destruct e as [v|key| |key c m|w r|id]; cbn [step debounceEvent fold_left].
  - reflexivity.
  - unfold onInputKeydown.
    match goal with |- context [if String.eqb key "Enter" then ?x else ui] =>
      set (ui1 := if String.eqb key "Enter" then x else ui) end.
    assert (H1 : debounced ui1 = debounced ui).
    { subst ui1. destruct (String.eqb key "Enter"); [|reflexivity].
      cbv zeta. destruct (String.eqb _ EmptyString); [reflexivity|].
      now destruct (searchContent _ _). }
    destruct (_ || _); [now rewrite Harrow|exact H1].
  - unfold onClearClick. destruct (hasClear ui); [|reflexivity].
    cbn. now rewrite Hclear.
  - unfold onDocumentKeydown.
    match goal with |- context [if ?b then ?x else ui] =>
      set (ui1 := if b then x else ui) end.
    assert (H1 : debounced ui1 = debounced ui)
      by (subst ui1; now destruct (_ && _)).
    destruct (active ui1); try exact H1.
    destruct (String.eqb key "Escape"); [|exact H1].
    now rewrite Hclear.
  - unfold onDocumentClick. destruct (_ && _); [apply Hclear|reflexivity].
  - unfold onTimeout, Debounce.step, Debounce.expire.
    destruct (Debounce.lookup _ _); [|reflexivity].
    now rewrite Hsearch.
Qed.

Lemma clearResults_hasWrapper (ui : t) :
  hasWrapper (clearResults ui) = hasWrapper ui.
Proof. unfold clearResults. now destruct (resultsContainer ui) as [[? ?]|]. Qed.

Lemma handleSearch_hasWrapper (query : string) (ui : t) :
  hasWrapper (handleSearch query ui) = hasWrapper ui.
Proof.
  unfold handleSearch, displayResults.
  destruct (String.eqb query EmptyString); [apply clearResults_hasWrapper|].
  destruct (renderPanel _ _); cbn; apply clearResults_hasWrapper.
Qed.

Lemma handleArrowNavigation_hasWrapper (key : string) (ui : t) :
  hasWrapper (handleArrowNavigation key ui) = hasWrapper ui.
Proof.
  unfold handleArrowNavigation. destruct (_ =? _)%nat; [reflexivity|].
  now destruct (Builtins.at_ _ _) as [[? ?]|].
Qed.

Lemma step_hasWrapper (ui : t) (e : event) :
  hasWrapper (step ui e) = hasWrapper ui.
Proof.
  destruct e as [v|key| |key c m|w r|id]; cbn [step].
  - reflexivity.
  - unfold onInputKeydown.
    match goal with |- context [if String.eqb key "Enter" then ?x else ui] =>
      set (ui1 := if String.eqb key "Enter" then x else ui) end.
    assert (H1 : hasWrapper ui1 = hasWrapper ui).
    { subst ui1. destruct (String.eqb key "Enter"); [|reflexivity].
      cbv zeta. destruct (String.eqb _ EmptyString); [reflexivity|].
      now destruct (searchContent _ _). }
    destruct (_ || _); [now rewrite handleArrowNavigation_hasWrapper|exact H1].
  - unfold onClearClick. destruct (hasClear ui); [|reflexivity].
    cbn. now rewrite clearResults_hasWrapper.
  - unfold onDocumentKeydown.
    match goal with |- context [if ?b then ?x else ui] =>
      set (ui1 := if b then x else ui) end.
    assert (H1 : hasWrapper ui1 = hasWrapper ui)
      by (subst ui1; now destruct (_ && _)).
    destruct (active ui1); try exact H1.
    destruct (String.eqb key "Escape"); [|exact H1].
    now rewrite clearResults_hasWrapper.
  - unfold onDocumentClick.
    destruct (_ && _); [apply clearResults_hasWrapper|reflexivity].
  - unfold onTimeout. destruct (Debounce.lookup _ _); [|reflexivity].
    now rewrite handleSearch_hasWrapper.
Qed.

Lemma run_hasWrapper (events : list event) (ui : t) :
  hasWrapper (run events ui) = hasWrapper ui.
Proof.
  induction events as [|e events IH] using rev_ind; [reflexivity|].
  now rewrite run_snoc_ui, step_hasWrapper.
Qed.

Lemma run_debounced (events : list event) (wrapper clear : bool) :
  debounced (run events (start wrapper clear))
  = Debounce.run 200 (flat_map debounceEvent events).
Proof.
  induction events as [|e events IH] using rev_ind; [reflexivity|].
  rewrite run_snoc_ui, step_debounced, IH, flat_map_app.
  unfold Debounce.run. rewrite fold_left_app. cbn. now rewrite app_nil_r.
Qed.
End SearchPanel.

(** X11.  Whatever the user does, no handler throws, the page holds one result
    panel at most, the one that [resultsContainer] refers to, and one
    debounced search is pending at most. *)
Theorem search_panel_is_single (wrapper clear : bool)
        (events : list SearchUI.event) :
  let ui := SearchUI.run events (SearchUI.start wrapper clear) in
  SearchUI.errors ui = []
  /\ (List.length (SearchUI.attached ui) <= 1)%nat
  /\ SearchUI.attached ui
     = match SearchUI.resultsContainer ui with
       | Some container => if wrapper then [container] else []
       | None => []
       end
  /\ (List.length (Debounce.timers (SearchUI.debounced ui)) <= 1)%nat.
Proof.
  intros ui.
  destruct (run_onePanel events (SearchUI.start wrapper clear))
    as [He Ha]; [now split|].
  fold ui in He, Ha. unfold ui in Ha at 3. rewrite run_hasWrapper in Ha.
  cbn in Ha.
  split; [exact He|]. split; [|split; [exact Ha|]].
  - rewrite Ha. destruct (SearchUI.resultsContainer ui), wrapper; simpl; lia.
  - subst ui. rewrite run_debounced.
    destruct (run_settled 200 (flat_map SearchUI.debounceEvent events))
      as [[E|(id & a & E & _)] _]; rewrite E; simpl; lia.
Qed.

(** ** The search box: what the handlers do *)

Section SearchHandlers.
Import Completion SearchUI.

Lemma flat_map_inputs (values : list string) :
  flat_map debounceEvent (map Input values)
  = map Debounce.Call (map Builtins.trim values).
Proof. induction values as [|v l IH]; cbn; congruence. Qed.

Lemma run_app_ui (events1 events2 : list event) (ui : t) :
  run (events1 ++ events2) ui = run events2 (run events1 ui).
Proof. unfold run. apply fold_left_app. Qed.

(** Typing changes neither the panel nor what has been announced. *)
Lemma run_inputs_panel (values : list string) (ui : t) :
  resultsContainer (run (map Input values) ui) = resultsContainer ui
  /\ announcements (run (map Input values) ui) = announcements ui
  /\ nextElement (run (map Input values) ui) = nextElement ui
  /\ searchData (run (map Input values) ui) = searchData ui.
Proof.
  induction values as [|v l IH] using rev_ind; [now repeat split|].
  rewrite map_app. cbn [map]. rewrite run_snoc_ui. exact IH.
Qed.

Lemma displayResults_panel (results : list ScoredRecord) (query : string)
      (ui : t) :
  exists panel,
    resultsContainer (displayResults results query ui)
    = Some (nextElement (clearResults ui), panel)
    /\ announcements (displayResults results query ui)
       = (announcements ui
          ++ [String.append (countText (List.length results)) " found"])%list
    /\ match results with
       | [] => panel = NoResults (Helpers.escapeHtml query)
       | _ =>
           exists items,
             panel = Results (countText (List.length results)) items
             /\ map href items = map (fun r => page (item r)) results
       end.
Proof.
  unfold displayResults.
  destruct (renderPanel_returns results query) as (panel & -> & Hp).
  exists panel. cbn. split; [reflexivity|]. split; [|exact Hp].
  unfold clearResults. now destruct (resultsContainer ui) as [[? ?]|].
Qed.

Lemma handleSearch_debounced (query : string) (ui : t) :
  debounced (handleSearch query ui) = debounced ui.
Proof.
  unfold handleSearch, displayResults, clearResults.
  destruct (String.eqb query EmptyString).
  - now destruct (resultsContainer ui) as [[? ?]|].
  - destruct (renderPanel _ _); cbn;
      now destruct (resultsContainer ui) as [[? ?]|].
Qed.

(** The panel and the announcement that [handleSearch] leaves depend on
    the catalog, on the panel before and on the element counter only. *)
Lemma handleSearch_congr (query : string) (ui1 ui2 : t) :
  searchData ui1 = searchData ui2 ->
  resultsContainer ui1 = resultsContainer ui2 ->
  announcements ui1 = announcements ui2 ->
  nextElement ui1 = nextElement ui2 ->
  resultsContainer (handleSearch query ui1)
  = resultsContainer (handleSearch query ui2)
  /\ announcements (handleSearch query ui1)
     = announcements (handleSearch query ui2).
Proof.
  intros Hd Hr Ha Hn.
  unfold handleSearch, displayResults, handlerOf, clearResults.
  rewrite Hd, Hr.
  destruct (String.eqb query EmptyString).
  - destruct (resultsContainer ui2) as [[? ?]|] eqn:E; cbn;
      rewrite ?E, ?Ha; split; congruence.
  - destruct (renderPanel _ _);
      destruct (resultsContainer ui2) as [[? ?]|] eqn:E; cbn;
      rewrite ?E, ?Ha, ?Hn; split; congruence.
Qed.
End SearchHandlers.

(** X12.  [handleSearch] closes the panel for the empty query and opens one for
    any other: the panel of the ranked records, in rank order, or the
    no-results panel when no record matches, as for a query of one-letter
    words; it announces the number of results. *)
Theorem handleSearch_panel (query : string) (ui : SearchUI.t) :
  let results := searchContent (SearchUI.handlerOf ui) query in
  let after := SearchUI.handleSearch query ui in
  (query = EmptyString ->
   SearchUI.resultsContainer after = None
   /\ SearchUI.announcements after = SearchUI.announcements ui)
  /\ (query <> EmptyString ->
      exists id panel,
        SearchUI.resultsContainer after = Some (id, panel)
        /\ SearchUI.announcements after
           = (SearchUI.announcements ui
              ++ [String.append (SearchUI.countText (List.length results))
                                " found"])%list
        /\ (searchTerms query = [] ->
            panel = SearchUI.NoResults (Helpers.escapeHtml query))
        /\ match results with
           | [] => panel = SearchUI.NoResults (Helpers.escapeHtml query)
           | _ =>
               exists items,
                 panel
                 = SearchUI.Results
                     (SearchUI.countText (List.length results)) items
                 /\ map SearchUI.href items
                    = map (fun r => page (item r)) results
                 /\ (List.length items <= 10)%nat
           end).
Proof.
  intros results after. subst after. unfold SearchUI.handleSearch. split.
  - intros ->. cbn [String.eqb]. unfold SearchUI.clearResults.
    destruct (SearchUI.resultsContainer ui) as [[? ?]|] eqn:E;
      [now cbn|now rewrite E].
  - intros Hq. destruct (String.eqb_spec query EmptyString); [contradiction|].
    fold results.
    destruct (displayResults_panel results query ui)
      as (panel & Hr & Ha & Hp).
    eexists _, panel. split; [exact Hr|]. split; [exact Ha|]. split.
    + intros Ht. subst results. unfold searchContent in Hp. rewrite Ht in Hp.
      exact Hp.
    + destruct results as [|r rest] eqn:E; [exact Hp|].
      destruct Hp as (items & -> & Hh). exists items.
      split; [reflexivity|]. split; [exact Hh|].
      rewrite <- (length_map SearchUI.href), Hh, length_map, <- E.
      subst results. unfold searchContent.
      destruct (_ =? _)%nat; [simpl; lia|apply firstn_le_length].
Qed.

(** X13.  However many values are typed before the timer expires, the search
    runs once, for the last value trimmed: one timer is left, and when it
    expires the panel and the announcement are those of that query. *)
Theorem typing_burst_searches_once (wrapper clear : bool)
        (events : list SearchUI.event) (values : list string)
        (last : string) :
  let ui := SearchUI.run events (SearchUI.start wrapper clear) in
  let typed := SearchUI.run (map SearchUI.Input (values ++ [last])) ui in
  let query := Builtins.trim last in
  SearchUI.resultsContainer typed = SearchUI.resultsContainer ui
  /\ SearchUI.announcements typed = SearchUI.announcements ui
  /\ exists id,
       Debounce.timers (SearchUI.debounced typed) = [(id, (200, query))]
       /\ SearchUI.resultsContainer (SearchUI.step typed (SearchUI.Timeout id))
          = SearchUI.resultsContainer (SearchUI.handleSearch query ui)
       /\ SearchUI.announcements (SearchUI.step typed (SearchUI.Timeout id))
          = SearchUI.announcements (SearchUI.handleSearch query ui)
       /\ Debounce.timers
            (SearchUI.debounced (SearchUI.step typed (SearchUI.Timeout id)))
          = [].
Proof.
  intros ui typed query.
  destruct (run_inputs_panel (values ++ [last]) ui) as (Hr & Ha & Hn & Hd).
  fold typed in Hr, Ha, Hn, Hd. split; [exact Hr|]. split; [exact Ha|].
  assert (Hdeb : SearchUI.debounced typed
                 = Debounce.run 200
                     (flat_map SearchUI.debounceEvent events
                      ++ map Debounce.Call
                           (map Builtins.trim values ++ [query]))%list).
  { subst typed ui. rewrite <- run_app_ui, run_debounced, flat_map_app.
    now rewrite flat_map_inputs, map_app. }
  destruct (run_burst 200 (flat_map SearchUI.debounceEvent events)
              (map Builtins.trim values) query) as (id & E).
  rewrite <- Hdeb in E. exists id. split; [exact E|].
  cbn [SearchUI.step]. unfold SearchUI.onTimeout. rewrite E.
  cbn [Debounce.lookup]. rewrite Nat.eqb_refl.
  rewrite handleSearch_debounced. cbn [SearchUI.debounced SearchUI.setInput].
  split; [|split].
  - now apply handleSearch_congr.
  - now apply handleSearch_congr.
  - unfold Debounce.expire. rewrite E. cbn. now rewrite Nat.eqb_refl.
Qed.

Section SearchClosing.
Import SearchUI.

Lemma clearResults_frame (ui : t) :
  hasClear (clearResults ui) = hasClear ui
  /\ inputValue (clearResults ui) = inputValue ui
  /\ searchData (clearResults ui) = searchData ui
  /\ location (clearResults ui) = location ui.
Proof. unfold clearResults. now destruct (resultsContainer ui) as [[? ?]|]. Qed.

Lemma handleSearch_frame (query : string) (ui : t) :
  hasClear (handleSearch query ui) = hasClear ui
  /\ inputValue (handleSearch query ui) = inputValue ui
  /\ searchData (handleSearch query ui) = searchData ui
  /\ location (handleSearch query ui) = location ui.
Proof.
  unfold handleSearch, displayResults.
  destruct (String.eqb query EmptyString); [apply clearResults_frame|].
  destruct (renderPanel _ _); cbn; apply clearResults_frame.
Qed.

Lemma handleArrowNavigation_frame (key : string) (ui : t) :
  hasClear (handleArrowNavigation key ui) = hasClear ui
  /\ searchData (handleArrowNavigation key ui) = searchData ui
  /\ location (handleArrowNavigation key ui) = location ui
  /\ resultsContainer (handleArrowNavigation key ui) = resultsContainer ui.
Proof.
  unfold handleArrowNavigation. destruct (_ =? _)%nat; [now repeat split|].
  now destruct (Builtins.at_ _ _) as [[? ?]|].
Qed.

Lemma step_hasClear (ui : t) (e : event) : hasClear (step ui e) = hasClear ui.
Proof.
  destruct e as [v|key| |key c m|w r|id]; cbn [step].
  - reflexivity.
  - unfold onInputKeydown.
    match goal with |- context [if String.eqb key "Enter" then ?x else ui] =>
      set (ui1 := if String.eqb key "Enter" then x else ui) end.
    assert (H1 : hasClear ui1 = hasClear ui).
    { subst ui1. destruct (String.eqb key "Enter"); [|reflexivity].
      cbv zeta. destruct (String.eqb _ EmptyString); [reflexivity|].
      now destruct (searchContent _ _). }
    destruct (_ || _); [|exact H1].
    now rewrite (proj1 (handleArrowNavigation_frame key ui1)).
  - unfold onClearClick. destruct (hasClear ui) eqn:E; [|exact E].
    cbn. now rewrite (proj1 (clearResults_frame _)).
  - unfold onDocumentKeydown.
    match goal with |- context [if ?b then ?x else ui] =>
      set (ui1 := if b then x else ui) end.
    assert (H1 : hasClear ui1 = hasClear ui)
      by (subst ui1; now destruct (_ && _)).
    destruct (active ui1); try exact H1.
    destruct (String.eqb key "Escape"); [|exact H1].
    now rewrite (proj1 (clearResults_frame _)).
  - unfold onDocumentClick.
    destruct (_ && _); [apply clearResults_frame|reflexivity].
  - unfold onTimeout. destruct (Debounce.lookup _ _); [|reflexivity].
    now rewrite (proj1 (handleSearch_frame _ _)).
Qed.

Lemma run_hasClear (events : list event) (ui : t) :
  hasClear (run events ui) = hasClear ui.
Proof.
  induction events as [|e events IH] using rev_ind; [reflexivity|].
  now rewrite run_snoc_ui, step_hasClear.
Qed.
End SearchClosing.

(** X14.  The clear button closes the panel and empties the input, but the timer
    of the debounced search stays: when it expires, the panel opens again
    for the text that was typed, the input being empty. *)
Theorem clear_leaves_pending_search (wrapper : bool)
        (events : list SearchUI.event) (value : string) :
  Builtins.trim value <> EmptyString ->
  let ui := SearchUI.run events (SearchUI.start wrapper true) in
  let cleared :=
    SearchUI.run [SearchUI.Input value; SearchUI.ClearClick] ui in
  SearchUI.inputValue cleared = EmptyString
  /\ SearchUI.resultsContainer cleared = None
  /\ exists id,
       Debounce.timers (SearchUI.debounced cleared)
       = [(id, (200, Builtins.trim value))]
       /\ let late := SearchUI.step cleared (SearchUI.Timeout id) in
          SearchUI.inputValue late = EmptyString
          /\ SearchUI.resultsContainer late
             = SearchUI.resultsContainer
                 (SearchUI.handleSearch (Builtins.trim value) cleared)
          /\ exists container, SearchUI.resultsContainer late = Some container.
Proof.
  intros Hq ui cleared.
  assert (Hc : SearchUI.hasClear ui = true)
    by (subst ui; now rewrite run_hasClear).
  assert (E1 : cleared
               = SearchUI.onClearClick (SearchUI.onInput value ui))
    by reflexivity.
  assert (Hdeb : SearchUI.debounced cleared
                 = Debounce.call 200 (Builtins.trim value)
                     (SearchUI.debounced ui)).
  { rewrite E1. unfold SearchUI.onClearClick. cbn [SearchUI.hasClear
      SearchUI.onInput SearchUI.setInput]. rewrite Hc. cbn.
    unfold SearchUI.clearResults. cbn.
    now destruct (SearchUI.resultsContainer ui) as [[? ?]|]. }
  assert (Hin : SearchUI.inputValue cleared = EmptyString
                /\ SearchUI.resultsContainer cleared = None).
  { rewrite E1. unfold SearchUI.onClearClick. cbn [SearchUI.hasClear
      SearchUI.onInput SearchUI.setInput]. rewrite Hc. cbn.
    unfold SearchUI.clearResults. cbn.
    destruct (SearchUI.resultsContainer ui) as [[? ?]|] eqn:E0; cbn;
      rewrite ?E0; now split. }
  destruct Hin as [Hi Hr]. split; [exact Hi|]. split; [exact Hr|].
  destruct (run_burst 200 (flat_map SearchUI.debounceEvent events) []
              (Builtins.trim value)) as (id & E).
  assert (Ht : Debounce.timers (SearchUI.debounced cleared)
               = [(id, (200, Builtins.trim value))]).
  { rewrite Hdeb. subst ui. rewrite run_debounced.
    cbn [app map] in E. rewrite run_snoc in E. exact E. }
  exists id. split; [exact Ht|]. cbv zeta.
  cbn [SearchUI.step]. unfold SearchUI.onTimeout. rewrite Ht.
  cbn [Debounce.lookup]. rewrite Nat.eqb_refl.
  split; [|split].
  - now rewrite (proj1 (proj2 (handleSearch_frame _ _))).
  - now apply handleSearch_congr.
  - unfold SearchUI.handleSearch.
    destruct (String.eqb_spec (Builtins.trim value) EmptyString);
      [contradiction|].
    match goal with |- context [SearchUI.displayResults ?r ?q ?u] =>
      destruct (displayResults_panel r q u) as (panel & -> & _) end.
    now eexists.
Qed.

Lemma clear_leaves_pending_search_witness :
  let cleared :=
    SearchUI.run [SearchUI.Input "pomodoro"; SearchUI.ClearClick]
                 (SearchUI.start true true) in
  SearchUI.inputValue cleared = EmptyString
  /\ exists container,
       SearchUI.resultsContainer
         (SearchUI.step cleared (SearchUI.Timeout 0))
       = Some container.
Proof.
  destruct (clear_leaves_pending_search true [] "pomodoro")
    as (Hi & _ & id & Ht & _ & _ & Hc); [discriminate|].
  split; [exact Hi|].
  assert (id = 0%nat) by (vm_compute in Ht; congruence). subst id. exact Hc.
Defined.

(** X15.  Enter in the input opens the page of the first ranked record for the
    trimmed text: a record of the catalog that no record outscores.  It
    opens nothing when no record matches, and it leaves the panel and the
    pending search as they are. *)
Theorem enter_opens_best_match (ui : SearchUI.t) :
  let terms := searchTerms (SearchUI.inputValue ui) in
  let after := SearchUI.onInputKeydown "Enter" ui in
  SearchUI.resultsContainer after = SearchUI.resultsContainer ui
  /\ SearchUI.debounced after = SearchUI.debounced ui
  /\ SearchUI.prevented after = S (SearchUI.prevented ui)
  /\ ((forall r, In r (SearchUI.searchData ui) ->
                 score (scoreItem terms r) <= 0) ->
      SearchUI.location after = SearchUI.location ui)
  /\ ((exists r, In r (SearchUI.searchData ui)
                 /\ score (scoreItem terms r) > 0) ->
      exists best,
        In best (SearchUI.searchData ui)
        /\ SearchUI.location after = Some (page best)
        /\ score (scoreItem terms best) > 0
        /\ forall r, In r (SearchUI.searchData ui) ->
                     score (scoreItem terms r)
                     <= score (scoreItem terms best)).
Proof.
  intros terms after. subst after. unfold SearchUI.onInputKeydown.
  cbn [String.eqb Ascii.eqb Bool.eqb orb andb]. cbv iota.
  change (SearchUI.inputValue (SearchUI.preventDefault ui))
    with (SearchUI.inputValue ui).
  change (SearchUI.handlerOf (SearchUI.preventDefault ui))
    with (SearchUI.handlerOf ui).
  set (query := Builtins.trim (SearchUI.inputValue ui)).
  assert (Ht : searchTerms query = terms) by apply searchTerms_trim.
  destruct (searchContent (SearchUI.handlerOf ui) query)
    as [|first rest] eqn:E.
  - assert (Hsame : (if String.eqb query EmptyString
                     then SearchUI.preventDefault ui
                     else SearchUI.preventDefault ui)
                    = SearchUI.preventDefault ui)
      by now destruct (String.eqb query EmptyString).
    rewrite Hsame.
    split; [reflexivity|]. split; [reflexivity|]. split; [reflexivity|].
    split; [reflexivity|].
    intros (r & Hr & Hpos). exfalso.
    pose proof (searchContent_length (SearchUI.handlerOf ui) query) as Hl.
    rewrite E, Ht in Hl. cbn [List.length] in Hl.
    assert (Hin : In r (filter (fun r => score (scoreItem terms r) >? 0)
                               (SearchUI.searchData ui))).
    { apply filter_In. split; [exact Hr|]. apply Z.gtb_lt. lia. }
    change (searchData (SearchUI.handlerOf ui))
      with (SearchUI.searchData ui) in Hl.
    destruct (filter _ (SearchUI.searchData ui)); [destruct Hin|].
    discriminate Hl.
  - assert (Hq : String.eqb query EmptyString = false).
    { destruct (String.eqb_spec query EmptyString) as [Heq|]; [|reflexivity].
      rewrite Heq in E. discriminate E. }
    rewrite Hq.
    split; [reflexivity|]. split; [reflexivity|]. split; [reflexivity|].
    split.
    + assert (Hin : In first (searchContent (SearchUI.handlerOf ui) query))
        by (rewrite E; now left).
      apply searchContent_In in Hin as (Hpos & Hitem & _).
      intros Hall. apply Hall in Hitem.
      assert (Hf : In first (searchContent (SearchUI.handlerOf ui) query))
        by (rewrite E; now left).
      apply searchContent_In in Hf as (_ & _ & Hf).
      rewrite Ht in Hf. rewrite Hf in Hpos. cbn [item] in Hitem.
      exfalso. lia.
    + intros _.
      assert (Hin : In first (searchContent (SearchUI.handlerOf ui) query))
        by (rewrite E; now left).
      apply searchContent_In in Hin as (Hpos & Hitem & Hf).
      rewrite Ht in Hf. exists (item first).
      split; [exact Hitem|]. split; [reflexivity|].
      rewrite <- Hf. split; [exact Hpos|].
      intros r Hr. rewrite <- Ht.
      now apply (searchContent_head_max (SearchUI.handlerOf ui) query
                   first rest r).
Qed.

(** X16.  The clear button, Escape while the input has the focus, and a click
    outside the wrapper and the panel close the panel; a click inside the
    wrapper, and Escape with the focus elsewhere, leave the page as it
    is. *)
Theorem panel_closing_events (wrapper clear : bool)
        (events : list SearchUI.event) :
  let ui := SearchUI.run events (SearchUI.start wrapper clear) in
  let closed (after : SearchUI.t) :=
    SearchUI.resultsContainer after = None /\ SearchUI.attached after = [] in
  (clear = true -> closed (SearchUI.step ui SearchUI.ClearClick))
  /\ (SearchUI.active ui = SearchUI.OnInput ->
      closed (SearchUI.step ui (SearchUI.DocumentKeydown "Escape" false false)))
  /\ closed (SearchUI.step ui (SearchUI.DocumentClick false false))
  /\ (wrapper = true -> forall inResults,
        SearchUI.step ui (SearchUI.DocumentClick true inResults) = ui)
  /\ (SearchUI.active ui <> SearchUI.OnInput ->
      SearchUI.step ui (SearchUI.DocumentKeydown "Escape" false false) = ui).
Proof.
  intros ui closed.
  assert (Hone : SearchUI.onePanel ui)
    by (apply run_onePanel; now split).
  assert (Hw : SearchUI.hasWrapper ui = wrapper)
    by (subst ui; now rewrite run_hasWrapper).
  assert (Hc : SearchUI.hasClear ui = clear)
    by (subst ui; now rewrite run_hasClear).
  assert (Hclose : forall u, SearchUI.onePanel u ->
                             closed (SearchUI.clearResults u)).
  { intros u Hu. destruct (clearResults_onePanel u Hu) as (_ & Hr & Ha).
    now split. }
  split; [|split; [|split; [|split]]].
  - intros ->. cbn [SearchUI.step]. unfold SearchUI.onClearClick. rewrite Hc.
    cbv zeta.
    match goal with |- closed (SearchUI.setInput _ _ _ ?u) =>
      change (closed u) end.
    apply Hclose. exact Hone.
  - intros Ha. cbn [SearchUI.step]. unfold SearchUI.onDocumentKeydown.
    cbn [andb orb String.eqb]. rewrite Ha.
    cbn [String.eqb Ascii.eqb Bool.eqb andb]. cbv iota.
    apply Hclose. exact Hone.
  - cbn [SearchUI.step]. unfold SearchUI.onDocumentClick. rewrite Hw.
    assert (Hout : (if wrapper then negb false else true) = true)
      by now destruct wrapper.
    rewrite Hout. destruct (SearchUI.resultsContainer ui) eqn:E;
      cbn [negb andb]; apply Hclose; exact Hone.
  - intros -> inResults. cbn [SearchUI.step].
    unfold SearchUI.onDocumentClick. rewrite Hw. reflexivity.
  - intros Ha. cbn [SearchUI.step]. unfold SearchUI.onDocumentKeydown.
    cbn [andb orb]. destruct (SearchUI.active ui); congruence.
Qed.

(** ** The search box: arrow keys *)

Lemma findIndex_range {A : Type} (p : A -> bool) (l : list A) :
  -1 <= Builtins.findIndex p l < Z.of_nat (List.length l).
Proof.
  induction l as [|x l IH]; [simpl; lia|].
  cbn [Builtins.findIndex List.length]. rewrite Nat2Z.inj_succ.
  destruct (p x); [lia|].
  destruct (Z.ltb_spec (Builtins.findIndex p l) 0); lia.
Qed.

Lemma findIndex_none {A : Type} (p : A -> bool) (l : list A) :
  (forall x, In x l -> p x = false) -> Builtins.findIndex p l = -1.
Proof.
  induction l as [|x l IH]; intros H; [reflexivity|].
  cbn [Builtins.findIndex]. rewrite (H x) by now left.
  rewrite IH by (intros y Hy; apply H; now right). reflexivity.
Qed.

Lemma at_in_range {A : Type} (l : list A) (i : Z) :
  0 <= i < Z.of_nat (List.length l) ->
  exists x, Builtins.at_ l i = Some x /\ In x l.
Proof.
  intros H. unfold Builtins.at_.
  destruct (Z.ltb_spec i 0); [lia|].
  destruct (nth_error l (Z.to_nat i)) as [x|] eqn:E.
  - exists x. split; [reflexivity|]. eapply nth_error_In; eassumption.
  - apply nth_error_None in E. lia.
Qed.

Lemma nth_error_last {A : Type} (l : list A) :
  nth_error l (List.length l - 1) = Builtins.pop l.
Proof.
  unfold Builtins.pop. induction l as [|x l IH]; [reflexivity|].
  destruct l as [|y l]; [reflexivity|].
  change (List.length (x :: y :: l) - 1)%nat with (S (List.length l)).
  change (List.length (y :: l) - 1)%nat with (List.length l - 0)%nat in IH.
  rewrite Nat.sub_0_r in IH. exact IH.
Qed.

Lemma nextIndex_range (key : string) (cur n : Z) :
  0 < n -> -1 <= cur < n -> 0 <= SearchUI.nextIndex key cur n < n.
Proof.
  intros Hn Hc. unfold SearchUI.nextIndex.
  destruct (String.eqb key "ArrowDown").
  - destruct (Z.ltb_spec cur (n - 1)); lia.
  - destruct (Z.gtb_spec cur 0); lia.
Qed.

(** X17.  With [n] results and the focus on none of them or on one, an arrow key
    gives an index of a result; ArrowDown goes from no focus to the first
    result and from the last to the first, ArrowUp from no focus to the last
    and from the first to the last; each key undoes the other. *)
Theorem arrow_index_wraps (n current : Z) :
  0 < n -> -1 <= current < n ->
  0 <= SearchUI.nextIndex "ArrowDown" current n < n
  /\ 0 <= SearchUI.nextIndex "ArrowUp" current n < n
  /\ SearchUI.nextIndex "ArrowDown" (-1) n = 0
  /\ SearchUI.nextIndex "ArrowUp" (-1) n = n - 1
  /\ SearchUI.nextIndex "ArrowDown" (n - 1) n = 0
  /\ SearchUI.nextIndex "ArrowUp" 0 n = n - 1
  /\ (0 <= current ->
      SearchUI.nextIndex "ArrowUp"
        (SearchUI.nextIndex "ArrowDown" current n) n = current
      /\ SearchUI.nextIndex "ArrowDown"
           (SearchUI.nextIndex "ArrowUp" current n) n = current).
Proof.
  intros Hn Hc.
  split; [now apply nextIndex_range|]. split; [now apply nextIndex_range|].
  unfold SearchUI.nextIndex.
  cbn [String.eqb Ascii.eqb Bool.eqb andb]. cbv iota.
  split; [destruct (Z.ltb_spec (-1) (n - 1)); lia|].
  split; [reflexivity|].
  split; [destruct (Z.ltb_spec (n - 1) (n - 1)); lia|].
  split; [reflexivity|].
  intros H0. split.
  - destruct (Z.ltb_spec current (n - 1)).
    + destruct (Z.gtb_spec (current + 1) 0); lia.
    + cbn. lia.
  - destruct (Z.gtb_spec current 0).
    + destruct (Z.ltb_spec (current - 1) (n - 1)); lia.
    + destruct (Z.ltb_spec (n - 1) (n - 1)); lia.
Qed.

Lemma arrow_index_wraps_witness :
  SearchUI.nextIndex "ArrowDown" 2 3 = 0
  /\ SearchUI.nextIndex "ArrowUp" (SearchUI.nextIndex "ArrowDown" 2 3) 3 = 2.
Proof.
  destruct (arrow_index_wraps 3 2) as (_ & _ & _ & _ & Hd & _ & Hi);
    [lia|lia|].
  split; [exact Hd|]. apply Hi. lia.
Defined.

(** X18.  [handleArrowNavigation] does nothing when the page shows no result;
    otherwise it prevents the default action of the key and puts the focus
    on a result: on the first one for ArrowDown and on the last one for
    ArrowUp when no result had it. *)
Theorem arrow_focus_lands_on_result (key : string) (ui : SearchUI.t) :
  let items := SearchUI.resultItems ui in
  let after := SearchUI.handleArrowNavigation key ui in
  (items = [] -> after = ui)
  /\ (items <> [] ->
      SearchUI.prevented after = S (SearchUI.prevented ui)
      /\ (exists c i,
             SearchUI.active after = SearchUI.OnResult c i
             /\ In (c, i) items)
      /\ ((forall element, In element items ->
                           SearchUI.isActive (SearchUI.active ui) element
                           = false) ->
          exists c i,
            SearchUI.active after = SearchUI.OnResult c i
            /\ Some (c, i)
               = if String.eqb key "ArrowDown" then List.hd_error items
                 else Builtins.pop items)).
Proof.
  intros items after. subst after. unfold SearchUI.handleArrowNavigation.
  fold items. split.
  - intros ->. reflexivity.
  - intros Hne.
    assert (Hlen : 0 < Z.of_nat (List.length items))
      by (destruct items; [congruence|simpl; lia]).
    destruct (Nat.eqb_spec (List.length items) 0) as [H0|_]; [lia|].
    cbv zeta.
    change (SearchUI.active (SearchUI.preventDefault ui))
      with (SearchUI.active ui).
    set (current := Builtins.findIndex
                      (SearchUI.isActive (SearchUI.active ui)) items).
    pose proof (findIndex_range (SearchUI.isActive (SearchUI.active ui))
                                items) as Hcur.
    fold current in Hcur.
    pose proof (nextIndex_range key current _ Hlen Hcur) as Hnext.
    destruct (at_in_range items _ Hnext) as ([c i] & Hat & Hin).
    rewrite Hat. split; [reflexivity|]. split; [now exists c, i|].
    intros Hnone. exists c, i. split; [reflexivity|].
    assert (Hc : current = -1) by now apply findIndex_none.
    rewrite Hc in Hat. rewrite <- Hat. unfold SearchUI.nextIndex.
    destruct (String.eqb key "ArrowDown").
    + destruct (Z.ltb_spec (-1) (Z.of_nat (List.length items) - 1)).
      * destruct items; [congruence|reflexivity].
      * destruct items; [congruence|reflexivity].
    + cbn [Z.gtb Z.compare]. unfold Builtins.at_, Builtins.pop.
      destruct (Z.ltb_spec (Z.of_nat (List.length items) - 1) 0); [lia|].
      replace (Z.to_nat (Z.of_nat (List.length items) - 1))
        with (List.length items - 1)%nat by lia.
      apply nth_error_last.
Qed.

(** ** Navigation: the mobile menu *)

Section MenuFacts.
Import Menu.

Lemma toggleMenu_consistent (w : t) : consistent (toggleMenu w).
Proof.
  unfold toggleMenu, consistent.
  destruct (menuOpen w); cbn; [now repeat split|].
  destruct (firstLink _); now repeat split.
Qed.

Lemma closeMenu_consistent (w : t) : consistent w -> consistent (closeMenu w).
Proof.
  intros H. unfold closeMenu.
  destruct (menuOpen w) eqn:E; cbn; [|exact H].
  now repeat split.
Qed.

Lemma handleFocusTrap_consistent (shiftKey : bool) (w : t) :
  consistent w -> consistent (handleFocusTrap shiftKey w).
Proof.
  unfold handleFocusTrap. intros H.
  destruct (_ && _); [exact H|]. destruct (_ && _); exact H.
Qed.

Lemma step_consistent (w : t) (e : event) :
  consistent w -> consistent (step w e).
Proof.
  intros H. destruct e as [|m g|key| |key s]; cbn [step].
  - apply toggleMenu_consistent.
  - destruct (_ && _); [now apply closeMenu_consistent|exact H].
  - destruct (_ && _); [|exact H].
    apply (closeMenu_consistent w H).
  - now apply closeMenu_consistent.
  - destruct (_ && _); [now apply handleFocusTrap_consistent|exact H].
Qed.
End MenuFacts.

(** X19.  Once the class of the menu, the attribute of the button and the scroll
    lock of the body agree with the flag, they do so after every event: the
    body does not scroll exactly while the menu is open.  A toggle flips the
    flag and makes them agree in any state [any], whatever they were; two
    toggles give the first state back, and Escape closes an open menu and
    gives the focus to the button. *)
Theorem menu_stays_consistent (w any : Menu.t) (events : list Menu.event) :
  Menu.consistent w ->
  Menu.consistent (Menu.run events w)
  /\ (Menu.bodyOverflow (Menu.run events w) = "hidden"
      <-> Menu.menuOpen (Menu.run events w) = true)
  /\ (Menu.consistent (Menu.toggleMenu any)
      /\ Menu.menuOpen (Menu.toggleMenu any) = negb (Menu.menuOpen any))
  /\ (let twice := Menu.toggleMenu (Menu.toggleMenu w) in
      Menu.menuOpen twice = Menu.menuOpen w
      /\ Menu.showClass twice = Menu.showClass w
      /\ Menu.ariaExpanded twice = Menu.ariaExpanded w
      /\ Menu.bodyOverflow twice = Menu.bodyOverflow w)
  /\ (Menu.menuOpen w = true ->
      let closed := Menu.step w (Menu.DocumentKeydown "Escape") in
      Menu.menuOpen closed = false
      /\ Menu.bodyOverflow closed = EmptyString
      /\ Menu.focus closed = Menu.OnToggle).
Proof.
  intros H.
  assert (Hrun : Menu.consistent (Menu.run events w)).
  { induction events as [|e events IH] using rev_ind; [exact H|].
    unfold Menu.run. rewrite fold_left_app. cbn [fold_left].
    now apply step_consistent. }
  split; [exact Hrun|]. split; [|split; [split|split]].
  - destruct Hrun as (_ & _ & Ho). rewrite Ho.
    destruct (Menu.menuOpen (Menu.run events w)); split; congruence.
  - apply toggleMenu_consistent.
  - unfold Menu.toggleMenu. destruct (Menu.menuOpen any); cbn; [reflexivity|].
    now destruct (Menu.firstLink _).
  - destruct H as (Hs & Ha & Ho). unfold Menu.toggleMenu.
    destruct (Menu.menuOpen w) eqn:E; cbn.
    + destruct (Menu.firstLink _); cbn; rewrite Hs, Ha, Ho; now repeat split.
    + destruct (Menu.firstLink _); cbn; rewrite Hs, Ha, Ho; now repeat split.
  - intros Ho. cbn. rewrite Ho. cbn. unfold Menu.closeMenu. rewrite Ho.
    now repeat split.
Qed.

Lemma menu_stays_consistent_witness :
  let w := Menu.mk false false (Some "false") EmptyString
                   [(1%nat, false); (2%nat, true)] Menu.Other 0 in
  let any := Menu.mk true false None "auto" [] Menu.Other 0 in
  let events := [Menu.ToggleClick; Menu.MenuKeydown "Tab" false;
                 Menu.DocumentClick false false] in
  Menu.consistent w /\ Menu.consistent (Menu.run events w)
  /\ ~ Menu.consistent any /\ Menu.consistent (Menu.toggleMenu any).
Proof.
  intros w any events.
  assert (H : Menu.consistent w) by (now repeat split).
  destruct (menu_stays_consistent w any events H) as (Hr & _ & (Ht & _) & _).
  split; [exact H|]. split; [exact Hr|]. split; [|exact Ht].
  intros (Hs & _). discriminate Hs.
Defined.

(** ** Navigation: the header on scroll *)

Lemma gt_spec (a b : Q) : Scroll.gt a b = true <-> (b < a)%Q.
Proof.
  unfold Scroll.gt. rewrite negb_true_iff.
  destruct (Qle_bool a b) eqn:E.
  - apply Qle_bool_iff in E. split; [discriminate|].
    intros H. exfalso. now apply (Qlt_not_le b a).
  - split; [intros _|reflexivity].
    apply Qnot_le_lt. intros H. apply Qle_bool_iff in H. congruence.
Qed.

(** X20.  After [handleScroll] the header is hidden exactly when the page has
    moved down and stands below 100 pixels, so that scrolling up, or being
    near the top, shows it; the shadow class follows the offset 10 as long as
    it agreed with the flag before.  Without a header nothing changes. *)
Theorem header_hides_only_scrolling_down (y : Q) (w : Scroll.t) :
  Scroll.hasHeader w = true ->
  let after := Scroll.handleScroll y w in
  (Scroll.hiddenClass after = true
   <-> (Scroll.lastScrollY w < y)%Q /\ (100 # 1 < y)%Q)
  /\ Scroll.lastScrollY after = y
  /\ (Scroll.scrolledClass w = Scroll.isScrolled w ->
      Scroll.scrolledClass after = Scroll.isScrolled after
      /\ (Scroll.scrolledClass after = true <-> (10 # 1 < y)%Q))
  /\ forall offsets bare,
       Scroll.hasHeader bare = false -> Scroll.run offsets bare = bare.
Proof.
  intros Hh after. subst after. unfold Scroll.handleScroll. rewrite Hh.
  cbn [negb Scroll.hiddenClass Scroll.lastScrollY Scroll.scrolledClass
       Scroll.isScrolled].
  split; [|split; [reflexivity|split]].
  - rewrite andb_true_iff, !gt_spec. reflexivity.
  - intros Hc. rewrite Hc.
    destruct (Scroll.gt y Scroll.SCROLL_THRESHOLD) eqn:E;
      destruct (Scroll.isScrolled w); cbn; (split; [reflexivity|]);
      rewrite <- (gt_spec y (10 # 1)); unfold Scroll.SCROLL_THRESHOLD in E;
      rewrite E; split; congruence.
  - intros offsets bare Hb.
    induction offsets as [|x l IH] using rev_ind; [reflexivity|].
    unfold Scroll.run in *. rewrite fold_left_app. cbn [fold_left].
    rewrite IH. unfold Scroll.handleScroll. now rewrite Hb.
Qed.

Lemma header_hides_only_scrolling_down_witness :
  let w := Scroll.mk true true true false (150 # 1) in
  Scroll.hiddenClass (Scroll.handleScroll (120 # 1) w) = false
  /\ Scroll.hiddenClass (Scroll.handleScroll (180 # 1) w) = true.
Proof.
  intros w.
  destruct (header_hides_only_scrolling_down (120 # 1) w eq_refl)
    as (H1 & _).
  destruct (header_hides_only_scrolling_down (180 # 1) w eq_refl)
    as (H2 & _).
  split.
  - destruct (Scroll.hiddenClass (Scroll.handleScroll (120 # 1) w)) eqn:E;
      [|reflexivity].
    destruct (proj1 H1 eq_refl) as [Hlt _]. now vm_compute in Hlt.
  - apply H2. split; reflexivity.
Defined.

(** ** Navigation: the link of the current page *)

Lemma split_not_nil (sep : ascii) (s : string) : Builtins.split sep s <> [].
Proof.
  induction s as [|c s IH]; simpl; [discriminate|].
  destruct (Ascii.eqb c sep); [discriminate|].
  destruct (Builtins.split sep s); discriminate.
Qed.

Lemma pop_cons {A : Type} (x y : A) (l : list A) :
  Builtins.pop (x :: y :: l) = Builtins.pop (y :: l).
Proof. reflexivity. Qed.

Lemma append_assoc (a b c : string) : (a ++ b) ++ c = a ++ (b ++ c).
Proof. induction a as [|x a IH]; simpl; congruence. Qed.

(** The last piece is what follows the last separator. *)
Lemma split_last (sep : ascii) (s : string) :
  exists dir page,
    Builtins.pop (Builtins.split sep s) = Some page
    /\ s = dir ++ page
    /\ Forall (fun c => c <> sep) (list_ascii_of_string page)
    /\ (dir = EmptyString \/ exists d, dir = d ++ String sep EmptyString)
    /\ (dir = EmptyString <-> List.length (Builtins.split sep s) = 1%nat).
Proof.
  induction s as [|c s (dir & page & Hp & Hs & Hno & Hd & Hl)].
  - exists EmptyString, EmptyString. repeat split; auto; constructor.
  - cbn [Builtins.split]. pose proof (split_not_nil sep s) as Hnn.
    destruct (Ascii.eqb_spec c sep) as [->|Hne].
    + exists (String sep dir), page.
      destruct (Builtins.split sep s) as [|p rest] eqn:E; [congruence|].
      rewrite pop_cons. repeat split; auto.
      * cbn. now rewrite <- Hs.
      * right. destruct Hd as [->|(d & ->)].
        -- now exists EmptyString.
        -- now exists (String sep d).
      * discriminate.
      * cbn. discriminate.
    + destruct (Builtins.split sep s) as [|p rest] eqn:E; [congruence|].
      destruct rest as [|q rest].
      * assert (Hdir : dir = EmptyString) by now apply Hl.
        subst dir. cbn in Hs. cbn in Hp. injection Hp as <-.
        exists EmptyString, (String c p). subst s.
        repeat split; auto. cbn. constructor; assumption.
      * exists (String c dir), page. rewrite pop_cons.
        rewrite pop_cons in Hp. repeat split; auto.
        -- cbn. now rewrite <- Hs.
        -- right. destruct Hd as [->|(d & ->)].
           ++ destruct Hl as [Hl _]. specialize (Hl eq_refl). discriminate.
           ++ now exists (String c d).
        -- discriminate.
        -- cbn. discriminate.
Qed.

(** X21.  The current page is the part of the path behind its last slash, or
    index.html when that part is empty: it is never empty and holds no
    slash.  [highlightActiveNav] leaves the links where they are, marks a
    link active exactly when it gives it aria-current, marks every link to
    the current page, and changes nothing when run again. *)
Theorem active_nav_marks_current_page (pathname : string)
        (links : list ActiveNav.Link) :
  let page := ActiveNav.currentPage pathname in
  let marked := ActiveNav.highlightActiveNav pathname links in
  page <> EmptyString
  /\ Forall (fun c => c <> "/"%char) (list_ascii_of_string page)
  /\ (exists dir,
         (pathname = dir ++ page
          \/ (pathname = dir /\ page = "index.html"))
         /\ (dir = EmptyString \/ exists d, dir = d ++ "/"))
  /\ map ActiveNav.href marked = map ActiveNav.href links
  /\ Forall (fun link =>
               (ActiveNav.activeClass link = true
                <-> ActiveNav.ariaCurrent link = Some "page")
               /\ (ActiveNav.href link = Some page ->
                   ActiveNav.activeClass link = true))
            marked
  /\ ActiveNav.highlightActiveNav pathname marked = marked.
Proof.
  intros page marked.
  destruct (split_last "/" pathname) as (dir & seg & Hp & Hs & Hno & Hd & _).
  assert (Hpage : page = if String.eqb seg EmptyString then "index.html"
                         else seg).
  { subst page. unfold ActiveNav.currentPage. now rewrite Hp. }
  split; [|split; [|split; [|split; [|split]]]].
  - rewrite Hpage. destruct (String.eqb_spec seg EmptyString);
      [discriminate|assumption].
  - rewrite Hpage. destruct (String.eqb_spec seg EmptyString); [|exact Hno].
    repeat constructor; discriminate.
  - exists dir. split; [|exact Hd]. rewrite Hpage.
    destruct (String.eqb_spec seg EmptyString) as [->|]; [right|now left].
    split; [|reflexivity]. rewrite Hs. clear.
    induction dir as [|c d IH]; cbn; congruence.
  - subst marked. unfold ActiveNav.highlightActiveNav. rewrite map_map.
    reflexivity.
  - subst marked. unfold ActiveNav.highlightActiveNav. fold page.
    apply Forall_forall. intros link Hin.
    apply in_map_iff in Hin as (l & <- & _). cbn. split.
    + destruct (ActiveNav.isActive page l); split; congruence.
    + unfold ActiveNav.isActive. cbn. intros ->.
      now rewrite String.eqb_refl.
  - subst marked. unfold ActiveNav.highlightActiveNav. fold page.
    rewrite map_map. apply map_ext. intros l. reflexivity.
Qed.

(** ** Theme: toggling, reloading and the system theme *)

Section ThemeFacts.
Import Completion AppState.
Variable env : Browser.

Lemma lookup_assign (key : string) (x : value)
      (props : list (string * value)) :
  lookup key (assign key x props) = x.
Proof.
  induction props as [|[k v] props IH]; cbn.
  - now rewrite String.eqb_refl.
  - destruct (String.eqb k key) eqn:E; cbn; rewrite E; [reflexivity|exact IH].
Qed.

(** A save puts the theme into the preferences in memory, whatever the
    store does, when the preferences are an object. *)
Lemma savePreferences_object (w : World) (props : list (string * value)) :
  preferences w = VObj props ->
  exists w',
    savePreferences env w = (Returns tt, w')
    /\ preferences w' = VObj (assign "theme" (theme w) props)
    /\ theme w' = theme w /\ dataTheme w' = dataTheme w
    /\ darkMode w' = darkMode w /\ announced w' = announced w
    /\ listening w' = listening w.
Proof.
  intros Hp. unfold savePreferences, tryCatch, bindM, getPreferences,
    getTheme, lift, ofSum, setPreferences, storageSet, warn. cbn.
  rewrite Hp. cbn.
  destruct (JSON_stringify env _) as [e|text]; cbn.
  - eexists. split; [reflexivity|]. now repeat split.
  - destruct (setItem env _ _); cbn; eexists; (split; [reflexivity|]);
      now repeat split.
Qed.

Lemma toggleTheme_object (w : World) (props : list (string * value)) :
  preferences w = VObj props ->
  let next := if isString "light" (theme w) then "dark" else "light" in
  exists w',
    toggleTheme env w = (Returns tt, w')
    /\ theme w' = VStr next
    /\ preferences w' = VObj (assign "theme" (VStr next) props)
    /\ dataTheme w' = Some next
    /\ darkMode w' = isString "dark" (VStr next).
Proof.
  intros Hp next.
  unfold toggleTheme, getTheme, setTheme, applyTheme, bindM, lift. cbn.
  match goal with |- context [savePreferences env ?w0] =>
    destruct (savePreferences_object w0 props Hp)
      as (w' & -> & Hpr & Hth & Hdt & Hdm & _) end.
  cbn in Hpr, Hth, Hdt, Hdm. unfold announce. eexists.
  split; [reflexivity|]. cbn. fold next in Hpr, Hth, Hdt, Hdm.
  now rewrite Hpr, Hth, Hdt, Hdm.
Qed.
End ThemeFacts.

(** X22.  With preferences that are an object, a toggle gives the theme dark when
    it was light and light otherwise, shows it on the page and records it in
    the preferences, whether or not the store takes it; two toggles from
    light or dark give the theme back; and after a toggle a change of the
    system theme leaves the theme alone. *)
Theorem toggle_then_system_change (env : AppState.Browser)
        (w : AppState.World) (props : list (string * AppState.value))
        (matches : bool) :
  AppState.preferences w = AppState.VObj props ->
  exists w1 w2,
    AppState.toggleTheme env w = (Completion.Returns tt, w1)
    /\ AppState.toggleTheme env w1 = (Completion.Returns tt, w2)
    /\ AppState.theme w1
       = AppState.VStr
           (if AppState.isString "light" (AppState.theme w) then "dark"
            else "light")
    /\ Spec.themeApplied w1
    /\ AppState.getProp (AppState.preferences w1) "theme"
       = Completion.Returns (AppState.theme w1)
    /\ (AppState.theme w = AppState.VStr "light"
        \/ AppState.theme w = AppState.VStr "dark" ->
        AppState.theme w2 = AppState.theme w)
    /\ ThemeListener.onSystemThemeChange matches w1
       = (Completion.Returns tt, w1).
Proof.
  intros Hp.
  destruct (toggleTheme_object env w props Hp)
    as (w1 & H1 & Ht1 & Hp1 & Hd1 & Hm1).
  destruct (toggleTheme_object env w1 _ Hp1) as (w2 & H2 & Ht2 & _).
  exists w1, w2. split; [exact H1|]. split; [exact H2|].
  split; [exact Ht1|]. split; [|split; [|split]].
  - unfold Spec.themeApplied. rewrite Hd1, Hm1, Ht1.
    split; [|reflexivity]. eexists. now split.
  - rewrite Hp1, Ht1. cbn. now rewrite lookup_assign.
  - rewrite Ht2, Ht1. intros [->| ->]; reflexivity.
  - unfold ThemeListener.onSystemThemeChange, AppState.bindM,
      AppState.getPreferences, AppState.lift. rewrite Hp1. cbn.
    rewrite lookup_assign. cbn.
    now destruct (AppState.isString "light" (AppState.theme w)).
Qed.

Lemma toggle_then_system_change_witness :
  let env :=
    AppState.mkBrowser (fun _ => inr None) (fun _ _ => None)
                       (fun _ => inr (AppState.VObj [])) (fun _ => inr "{}")
                       (Some true) in
  exists w1,
    AppState.toggleTheme env AppState.initial = (Completion.Returns tt, w1)
    /\ ThemeListener.onSystemThemeChange false w1
       = (Completion.Returns tt, w1).
Proof.
  intros env.
  destruct (toggle_then_system_change env AppState.initial [] false eq_refl)
    as (w1 & w2 & H1 & _ & _ & _ & _ & _ & H).
  now exists w1.
Defined.

(** X23.  With no theme in the preferences, a change of the system theme sets
    the theme and shows it.  Whether [init] returns or throws, it leaves the
    listener registered only when it has returned, the browser has
    [matchMedia] and the preferences hold no theme; and it does return and
    register it then, when the theme converts to a string. *)
Theorem system_theme_followed_until_chosen (env : AppState.Browser)
        (w : AppState.World) (matches : bool) :
  (forall stored,
      AppState.getProp (AppState.preferences w) "theme"
      = Completion.Returns stored ->
      AppState.truthy stored = false ->
      exists w',
        ThemeListener.onSystemThemeChange matches w
        = (Completion.Returns tt, w')
        /\ AppState.theme w'
           = AppState.VStr (if matches then "dark" else "light")
        /\ Spec.themeApplied w'
        /\ AppState.preferences w' = AppState.preferences w)
  /\ (forall c w',
        AppState.init env w = (c, w') ->
        AppState.listening w' = true ->
        AppState.listening w = true
        \/ (c = Completion.Returns tt
            /\ AppState.prefersDark env <> None
            /\ exists stored,
                 AppState.getProp (AppState.preferences w') "theme"
                 = Completion.Returns stored
                 /\ AppState.truthy stored = false))
  /\ (forall dark stored text,
        let loaded := snd (AppState.loadPreferences env w) in
        AppState.prefersDark env = Some dark ->
        AppState.getProp (AppState.preferences loaded) "theme"
        = Completion.Returns stored ->
        AppState.truthy stored = false ->
        AppState.toString (AppState.theme loaded) = Completion.Returns text ->
        exists w',
          AppState.init env w = (Completion.Returns tt, w')
          /\ AppState.listening w' = true
          /\ Spec.themeApplied w').
Proof.
  split; [|split].
  - intros stored Hg Ht.
    unfold ThemeListener.onSystemThemeChange, AppState.bindM,
      AppState.getPreferences, AppState.lift. rewrite Hg, Ht. cbn.
    eexists. split; [reflexivity|]. split; [reflexivity|].
    split; [|reflexivity]. unfold Spec.themeApplied. cbn.
    split; [|reflexivity]. eexists. now split.
  - intros c w' Hi Hl.
    destruct (loadPreferences_readable env w) as (w1 & H1 & stored & Hs).
    assert (Hl1 : AppState.listening w1 = AppState.listening w).
    { destruct (loadPreferences_returns env w)
        as [(th & prefs & E & _)|(msg & E)];
        rewrite E in H1; injection H1 as <-; reflexivity. }
    destruct (AppState.toString (AppState.theme w1)) as [text|e|] eqn:Et.
    + unfold AppState.init in Hi. unfold AppState.bindM at 1 in Hi.
      rewrite H1 in Hi. unfold AppState.bindM at 1 in Hi.
      rewrite (applyTheme_returns w1 text Et) in Hi.
      match type of Hi with context [AppState.setupSystemThemeListener env ?w0] =>
        destruct (setupSystemThemeListener_returns env w0 stored Hs)
          as (w2 & E2 & _ & Hp2 & _ & _ & _ & Hreg) end.
      rewrite E2 in Hi. injection Hi as <- <-.
      destruct (Hreg Hl) as [Hw|[Hm Hf]].
      * left. cbn in Hw. congruence.
      * right. split; [reflexivity|]. split; [exact Hm|].
        exists stored. rewrite Hp2. cbn. now split.
    + assert (Hi' := init_throws env w e).
      rewrite H1 in Hi'. cbn [snd] in Hi'. rewrite (Hi' Et) in Hi.
      injection Hi as <- <-. left. congruence.
    + unfold AppState.init in Hi. unfold AppState.bindM at 1 in Hi.
      rewrite H1 in Hi. unfold AppState.bindM at 1 in Hi.
      unfold AppState.applyTheme, AppState.bindM, AppState.getTheme,
        AppState.lift in Hi. rewrite Et in Hi.
      injection Hi as <- <-. left. congruence.
  - intros dark stored text loaded Hd Hs Hf Ht.
    destruct (loadPreferences_readable env w) as (w1 & H1 & _).
    subst loaded. rewrite H1 in *. cbn [snd] in *.
    unfold AppState.init. unfold AppState.bindM at 1. rewrite H1.
    unfold AppState.bindM at 1. rewrite (applyTheme_returns w1 text Ht).
    unfold AppState.setupSystemThemeListener. rewrite Hd.
    unfold AppState.bindM, AppState.getPreferences, AppState.lift. cbn.
    rewrite Hs, Hf. eexists. split; [reflexivity|]. split; [reflexivity|].
    unfold Spec.themeApplied. cbn. split; [|reflexivity].
    exists text. now split.
Qed.

(** ** Preferences: a saved theme comes back *)

(** X24.  With preferences that are an object and a theme that is truthy,
    when [JSON.stringify] gives a non-empty text, the store takes it and
    returns it on the next page load, and [JSON.parse] gives the preferences
    back, the theme that was saved is the theme after [loadPreferences],
    with no warning. *)
Theorem saved_theme_survives_reload (saving loading : AppState.Browser)
        (w : AppState.World) (props : list (string * AppState.value))
        (text : string) :
  AppState.preferences w = AppState.VObj props ->
  AppState.truthy (AppState.theme w) = true ->
  AppState.JSON_stringify saving
    (AppState.VObj (AppState.assign "theme" (AppState.theme w) props))
  = inr text ->
  AppState.setItem saving Config.STORAGE_KEY text = None ->
  text <> EmptyString ->
  AppState.getItem loading Config.STORAGE_KEY = inr (Some text) ->
  AppState.JSON_parse loading text
  = inr (AppState.VObj (AppState.assign "theme" (AppState.theme w) props)) ->
  exists w1 w2,
    AppState.savePreferences saving w = (Completion.Returns tt, w1)
    /\ AppState.written w1
       = (AppState.written w ++ [(Config.STORAGE_KEY, text)])%list
    /\ AppState.loadPreferences loading AppState.initial
       = (Completion.Returns tt, w2)
    /\ AppState.theme w2 = AppState.theme w
    /\ AppState.preferences w2 = AppState.preferences w1
    /\ AppState.warnings w2 = [].
Proof.
  intros Hp Ht Hs Hset Hne Hget Hparse.
  unfold AppState.savePreferences, AppState.loadPreferences,
    AppState.tryCatch, AppState.bindM, AppState.getPreferences,
    AppState.getTheme, AppState.lift, AppState.ofSum,
    AppState.setPreferences, AppState.storageSet, AppState.setTheme,
    AppState.ret. cbn.
  rewrite Hp. cbn. rewrite Hs. cbn. rewrite Hset, Hget. cbn.
  destruct (String.eqb_spec text EmptyString); [contradiction|].
  rewrite Hparse. cbn. rewrite lookup_assign, Ht.
  eexists _, _. repeat split.
Qed.

Lemma saved_theme_survives_reload_witness :
  let q := String (Ascii.ascii_of_N 34) EmptyString in
  let text := String.concat q ["{"; "theme"; ":"; "dark"; "}"] in
  let prefs := AppState.VObj [("theme", AppState.VStr "dark")] in
  let parse (s : string) :=
    if String.eqb s text then inr prefs
    else inl (Completion.mkError "SyntaxError" "Unexpected token") in
  let saving :=
    AppState.mkBrowser (fun _ => inr None) (fun _ _ => None) parse
                       (fun _ => inr text) None in
  let loading :=
    AppState.mkBrowser (fun _ => inr (Some text)) (fun _ _ => None) parse
                       (fun _ => inr text) None in
  let w :=
    AppState.mkWorld (AppState.VStr "dark") (AppState.VObj []) [] [] None
                     false false [] in
  exists w2,
    AppState.loadPreferences loading AppState.initial
    = (Completion.Returns tt, w2)
    /\ AppState.theme w2 = AppState.VStr "dark".
Proof.
  intros q text prefs parse saving loading w.
  destruct (saved_theme_survives_reload saving loading w [] text)
    as (w1 & w2 & _ & _ & Hl & Ht & _);
    try reflexivity; try discriminate.
  exists w2. split; [exact Hl|exact Ht].
Defined.

(** ** [Performance.prefetchLinks] *)

Section PrefetchFacts.
Import Prefetch.

Lemma has_In (href : string) (set : list string) :
  has href set = true <-> In href set.
Proof.
  unfold has. rewrite existsb_exists. split.
  - intros (x & Hx & E). apply String.eqb_eq in E. now subst.
  - intros H. exists href. split; [exact H|apply String.eqb_refl].
Qed.

Lemma mouseenter_tidy (i : nat) (w : t) :
  tidy w ->
  tidy (mouseenter i w)
  /\ hrefs (mouseenter i w) = hrefs w
  /\ observer (mouseenter i w) = observer w
  /\ (forall j, In j (fired w) -> In j (fired (mouseenter i w)))
  /\ (observer w = true -> (i < List.length (hrefs w))%nat ->
      In i (fired (mouseenter i w))).
Proof.
  intros (Hnd & Hh & Hsub & Hf). unfold mouseenter.
  destruct (observer w) eqn:Ho; cbn [negb].
  2:{ repeat split; auto. discriminate. }
  destruct (nth_error (hrefs w) i) as [href|] eqn:En.
  2:{ repeat split; auto. intros _ Hlt.
      apply nth_error_None in En. lia. }
  destruct (existsb (Nat.eqb i) (fired w)) eqn:Ef.
  { repeat split; auto. intros _ _.
    apply existsb_exists in Ef as (j & Hj & E).
    apply Nat.eqb_eq in E. now subst. }
  destruct (has href (prefetched w)) eqn:Ehas.
  - apply has_In in Ehas. unfold tidy. cbn.
    repeat split; auto.
    intros j h [<-|Hj] Hn; [|eauto]. congruence.
  - assert (Hnot : ~ In href (prefetched w)).
    { intros Hin. apply has_In in Hin. congruence. }
    unfold tidy. cbn. repeat split; auto.
    + apply NoDup_app; [exact Hnd|repeat constructor; intros []|].
      intros a Ha [<-|[]]. contradiction.
    + now rewrite Hh.
    + intros h Hin. apply in_app_or in Hin as [Hin|[<-|[]]]; [auto|].
      eapply nth_error_In; eassumption.
    + intros j h [<-|Hj] Hn; apply in_or_app.
      * right. left. congruence.
      * left. eauto.
Qed.

Lemma run_tidy (events : list nat) (links : list string) :
  let w := run events (start links true) in
  tidy w /\ hrefs w = links /\ observer w = true
  /\ forall i, In i events -> (i < List.length links)%nat -> In i (fired w).
Proof.
  induction events as [|e events IH] using rev_ind.
  - cbn. repeat split; auto; try constructor; intros ? [].
  - cbv zeta in *. unfold run in *. rewrite fold_left_app. cbn [fold_left].
    destruct IH as (Ht & Hh & Ho & Hf).
    destruct (mouseenter_tidy e _ Ht) as (Ht' & Hh' & Ho' & Hmono & Hnew).
    split; [exact Ht'|]. split; [congruence|]. split; [congruence|].
    intros i Hin Hlt. apply in_app_or in Hin as [Hin|[<-|[]]].
    + apply Hmono. now apply Hf.
    + apply Hnew; [exact Ho|]. now rewrite Hh.
Qed.

Lemma run_without_observer (events : list nat) (links : list string) :
  run events (start links false) = start links false.
Proof.
  induction events as [|e l IH] using rev_ind; [reflexivity|].
  unfold run in *. rewrite fold_left_app. cbn [fold_left].
  now rewrite IH.
Qed.
End PrefetchFacts.

(** X25.  However the pointer moves over the links, the head gets one prefetch
    link for each target at most, only targets of links of the page, and
    one for the target of every link that the pointer has entered; in a
    browser without IntersectionObserver it gets none. *)
Theorem prefetch_each_target_once (links : list string) (events : list nat) :
  let w := Prefetch.run events (Prefetch.start links true) in
  NoDup (Prefetch.head w)
  /\ (forall h, In h (Prefetch.head w) -> In h links)
  /\ (forall i h, In i events -> nth_error links i = Some h ->
                  In h (Prefetch.head w))
  /\ Prefetch.run events (Prefetch.start links false)
     = Prefetch.start links false.
Proof.
  intros w. destruct (run_tidy events links)
    as ((Hnd & Hh & Hsub & Hf) & Hl & _ & Hfired).
  fold w in Hnd, Hh, Hsub, Hf, Hl, Hfired.
  split; [now rewrite Hh|]. split; [|split].
  - intros h Hin. rewrite Hh in Hin. rewrite <- Hl. now apply Hsub.
  - intros i h Hin Hn. rewrite Hh. apply (Hf i); [|now rewrite Hl].
    apply Hfired; [exact Hin|]. apply nth_error_Some. congruence.
  - apply run_without_observer.
Qed.

(** ** The earlier revision (src/script.js): ranking and highlighting *)

(** X26.  The ranking of the earlier revision is bounded, sorted and stable as
    well, returns positive scores only, and returns nothing for a query
    without term, though it has no early return. *)
Theorem legacy_rank_properties (this : SearchHandler.t) (query : string) :
  let output := Legacy.searchContent this query in
  (List.length output <= 10)%nat
  /\ StronglySorted (Spec.descending score) output
  /\ (forall r, In r output -> score r > 0 /\ In (item r) (searchData this))
  /\ (forall a b, Spec.precedes a b output -> score a = score b ->
                  Spec.precedes (item a) (item b) (searchData this))
  /\ (Legacy.searchTerms query = [] -> output = []).
Proof.
  intros output. subst output. unfold Legacy.searchContent, JS.slice0.
  split; [apply firstn_le_length|].
  split; [apply (firstn_sorted score), (sort_sorted score)|].
  split; [|split].
  - intros r H. apply firstn_In in H.
    apply (proj1 (sort_In score _ _)) in H. apply filter_In in H as [H Hpos].
    apply in_map_iff in H as (x & <- & Hx). split; [lia|exact Hx].
  - intros a b H Hk. apply precedes_firstn in H.
    apply (precedes_sort score) in H; [|exact Hk].
    apply precedes_filter in H.
    apply precedes_map in H as (u & v & <- & <- & H). exact H.
  - intros ->.
    assert (Hnil : filter (fun r => score r >? 0)
                          (map (Legacy.scoreItem []) (searchData this)) = []).
    { induction (searchData this) as [|r l IH]; [reflexivity|exact IH]. }
    now rewrite Hnil.
Qed.

Section LegacyHighlight.
Import Completion.

Lemma escapeRegExp_plain (term : string) :
  Forall (fun c => RegExp.isSyntaxCharacter c = false)
         (list_ascii_of_string term) ->
  escapeRegExp term = term.
Proof.
  induction term as [|c term IH]; [reflexivity|].
  intros H. inversion H as [|? ? Hc Ht]; subst.
  cbn [escapeRegExp]. rewrite inEscapeClass_syntax, Hc. f_equal. now apply IH.
Qed.

Lemma forEach_ext {A B : Type} (f g : B -> A -> completion B) (l : list A)
      (acc : B) :
  (forall b x, In x l -> f b x = g b x) -> forEach f l acc = forEach g l acc.
Proof.
  revert acc. induction l as [|x l IH]; intros acc H; [reflexivity|].
  cbn [forEach]. rewrite (H acc x) by now left.
  destruct (g acc x); cbn; auto. apply IH. intros b y Hy. apply H. now right.
Qed.

Lemma lex_atoms (s : string) :
  Forall (fun c => c <> "\"%char) (list_ascii_of_string s) ->
  RegExp.lex s = Some (map Props.atom (list_ascii_of_string s)).
Proof.
  induction s as [|c s IH]; [reflexivity|].
  intros H. inversion H as [|? ? Hc Hs]; subst.
  cbn [RegExp.lex list_ascii_of_string map].
  destruct (Ascii.eqb_spec c "\"); [contradiction|].
  rewrite (IH Hs). reflexivity.
Qed.

Lemma literalBody_open (ts : list RegExp.token) :
  In (RegExp.Op "(") ts -> RegExp.literalBody ts = None.
Proof.
  induction ts as [|t ts IH]; intros H; [destruct H|].
  destruct t as [c|c|c].
  - destruct H as [H|H]; [discriminate|].
    cbn [RegExp.literalBody]. now rewrite IH.
  - cbn [RegExp.literalBody]. destruct ts as [|u ts]; [|reflexivity].
    destruct H as [H|[]]. injection H as ->. reflexivity.
  - reflexivity.
Qed.

(** Parentheses of a term whose other characters stand for themselves. *)
Lemma balanced_opens (term : string) (depth : nat) :
  Forall (fun c => c = "("%char \/ RegExp.isSyntaxCharacter c = false)
         (list_ascii_of_string term) ->
  RegExp.balanced depth
    (map Props.atom (list_ascii_of_string term) ++ [RegExp.Op ")"])
  = (depth
     + List.length (filter (Ascii.eqb "(") (list_ascii_of_string term))
     =? 1)%nat.
Proof.
  revert depth. induction term as [|c term IH]; intros depth H.
  - cbn. destruct depth as [|[|d]]; reflexivity.
  - inversion H as [|? ? Hc Ht]; subst.
    cbn [list_ascii_of_string map app filter]. unfold Props.atom at 1.
    destruct Hc as [->|Hc].
    + change (if RegExp.isSyntaxCharacter "(" then RegExp.Op "("
              else RegExp.Lit "(") with (RegExp.Op "(").
      cbn [RegExp.balanced]. change (Ascii.eqb "(" "(") with true.
      cbv iota. rewrite (IH (S depth) Ht). cbn [List.length].
      rewrite Nat.add_succ_r. reflexivity.
    + rewrite Hc. cbn [RegExp.balanced]. rewrite (IH depth Ht).
      destruct (Ascii.eqb_spec "(" c) as [<-|_]; [discriminate Hc|].
      reflexivity.
Qed.
End LegacyHighlight.

(** X27.  The earlier revision puts the term into the pattern as it is.  For a
    term without syntax character this is what the later revision does; a
    term that holds an opening parenthesis, and no other syntax character,
    makes [new RegExp] throw. *)
Theorem legacy_highlight_unescaped (highlighted term : string) :
  (Forall (fun c => RegExp.isSyntaxCharacter c = false)
          (list_ascii_of_string term) ->
   Legacy.highlightTerm highlighted term = highlightTerm highlighted term)
  /\ (Forall (fun c => c = "("%char \/ RegExp.isSyntaxCharacter c = false)
             (list_ascii_of_string term) ->
      In "("%char (list_ascii_of_string term) ->
      Legacy.highlightTerm highlighted term
      = Completion.Throws (RegExp.SyntaxError "Unmatched parenthesis")).
Proof.
  split.
  - intros H. unfold Legacy.highlightTerm, highlightTerm.
    now rewrite escapeRegExp_plain.
  - intros H Hin. unfold Legacy.highlightTerm, RegExp.construct.
    assert (Hchars : list_ascii_of_string ("(" ++ term ++ ")")
                     = ("("%char :: list_ascii_of_string term ++ [")"%char])
                         %list).
    { cbn. f_equal. now rewrite chars_append. }
    assert (Hno : Forall (fun c => c <> "\"%char)
                         (list_ascii_of_string ("(" ++ term ++ ")"))).
    { rewrite Hchars. constructor; [discriminate|].
      apply Forall_app. split; [|repeat constructor; discriminate].
      eapply Forall_impl; [|exact H]. intros c [->|Hc]; [discriminate|].
      intros ->. discriminate Hc. }
    rewrite (lex_atoms _ Hno), Hchars. cbn [map]. rewrite map_app. cbn [map].
    change (Props.atom "(") with (RegExp.Op "(").
    change (Props.atom ")") with (RegExp.Op ")").
    cbn [RegExp.literalGroup]. change (Ascii.eqb "(" "(") with true.
    cbv iota.
    assert (Hopen : In (RegExp.Op "(")
                       (map Props.atom (list_ascii_of_string term)
                        ++ [RegExp.Op ")"])).
    { apply in_or_app. left. apply in_map_iff. exists "("%char.
      split; [reflexivity|exact Hin]. }
    rewrite (literalBody_open _ Hopen). cbn [Completion.bind].
    assert (Hcls : existsb (RegExp.isOp "[")
                     (RegExp.Op "("
                      :: map Props.atom (list_ascii_of_string term)
                         ++ [RegExp.Op ")"]) = false).
    { cbn [existsb RegExp.isOp]. change (Ascii.eqb "[" "(") with false.
      cbn [orb]. rewrite existsb_app. cbn.
      rewrite orb_false_r.
      clear -H. induction H as [|c l Hc _ IH]; [reflexivity|].
      cbn [map existsb]. rewrite IH, orb_false_r. unfold Props.atom.
      destruct Hc as [->|Hc]; [reflexivity|]. now rewrite Hc. }
    rewrite Hcls. cbn [orb RegExp.balanced].
    change (Ascii.eqb "(" "(") with true. cbv iota.
    rewrite (balanced_opens term 1 H).
    assert (Hcount : (1 <= List.length
                            (filter (Ascii.eqb "(")
                                    (list_ascii_of_string term)))%nat).
    { clear -Hin. induction (list_ascii_of_string term) as [|c l IH];
        [destruct Hin|].
      cbn [filter]. destruct Hin as [->|Hin].
      - change (Ascii.eqb "(" "(") with true. cbv iota.
        cbn [List.length]. lia.
      - specialize (IH Hin).
        destruct (Ascii.eqb "(" c); cbn [List.length]; lia. }
    destruct (Nat.eqb_spec
                (1 + List.length
                       (filter (Ascii.eqb "(") (list_ascii_of_string term)))
                1); [lia|reflexivity].
Qed.
